(** * koishi-plugin-csss: address parsing, cached queries, batch fan-out,
      text reports and the schedule timer, embedded from [src/index.ts]
      (and the scheduler revision of the same file). *)

From Stdlib Require Import ZArith NArith List Bool Ascii String Lia Sorted Permutation.
From Stdlib Require Import DecimalPos.
From stdpp Require Import base option list gmap.
Import ListNotations.

Local Open Scope Z_scope.

(* ===================================================================== *)
(** ** JavaScript strings                                                 *)
(* ===================================================================== *)

(** A JavaScript string is a sequence of UTF-16 code units; [length],
    [substring], [padEnd] and the regular expressions of the plugin all
    count and match code units. *)
Module Js.

Definition jsstring : Type := list N.

(** Code unit of an ASCII character. *)
Definition ch (a : ascii) : N := N_of_ascii a.
Arguments ch : simpl never.

(** Literals are written as in the TypeScript source (the file is UTF-8):
    [utf16] decodes the bytes of a Rocq string literal into code units, with
    surrogate pairs for the astral plane (the emoji of the messages). *)
Definition units_of_code_point (cp : N) : jsstring :=
  if (cp <? 65536)%N then [cp]
  else let v := (cp - 65536)%N in
       [(55296 + N.shiftr v 10)%N; (56320 + N.land v 1023)%N].

Definition cont (b : N) : N := N.land b 63.

Fixpoint decode_utf8 (fuel : nat) (bs : list N) : jsstring :=
  match fuel with
  | O => []
  | S fuel' =>
    match bs with
    | [] => []
    | b0 :: r0 =>
      if (b0 <? 128)%N then b0 :: decode_utf8 fuel' r0
      else if (b0 <? 224)%N then
        match r0 with
        | b1 :: r1 =>
          units_of_code_point (N.shiftl (N.land b0 31) 6 + cont b1)
            ++ decode_utf8 fuel' r1
        | _ => []
        end
      else if (b0 <? 240)%N then
        match r0 with
        | b1 :: b2 :: r2 =>
          units_of_code_point
            (N.shiftl (N.land b0 15) 12 + N.shiftl (cont b1) 6 + cont b2)
            ++ decode_utf8 fuel' r2
        | _ => []
        end
      else
        match r0 with
        | b1 :: b2 :: b3 :: r3 =>
          units_of_code_point
            (N.shiftl (N.land b0 7) 18 + N.shiftl (cont b1) 12
             + N.shiftl (cont b2) 6 + cont b3)
            ++ decode_utf8 fuel' r3
        | _ => []
        end
    end
  end.

Definition utf16 (s : string) : jsstring :=
  let bs := List.map N_of_ascii (list_ascii_of_string s) in
  decode_utf8 (List.length bs) bs.
Arguments utf16 : simpl never.

(** *** Character classes *)

(** [WhiteSpace] and [LineTerminator] of ECMAScript: what [trim] and the
    first step of [parseInt] strip. *)
Definition isWhiteSpace (c : N) : bool :=
  ((9 <=? c) && (c <=? 13) || (c =? 32) || (c =? 160) || (c =? 5760)
   || (8192 <=? c) && (c <=? 8202) || (c =? 8232) || (c =? 8233)
   || (c =? 8239) || (c =? 8287) || (c =? 12288) || (c =? 65279))%N.

(** [\d] and [[0-9]]. *)
Definition isDigit (c : N) : bool := ((48 <=? c) && (c <=? 57))%N.

(** [[\u0000-\u001F]]. *)
Definition isControl (c : N) : bool := (c <=? 31)%N.

(** *** String primitives *)

Fixpoint takeWhile (p : N -> bool) (s : jsstring) : jsstring :=
  match s with
  | c :: r => if p c then c :: takeWhile p r else []
  | [] => []
  end.

Fixpoint dropWhile (p : N -> bool) (s : jsstring) : jsstring :=
  match s with
  | c :: r => if p c then dropWhile p r else s
  | [] => []
  end.

Definition trimStart (s : jsstring) : jsstring := dropWhile isWhiteSpace s.
Definition trimEnd (s : jsstring) : jsstring := rev (dropWhile isWhiteSpace (rev s)).
(** [String.prototype.trim] *)
Definition trim (s : jsstring) : jsstring := trimEnd (trimStart s).

Fixpoint startsWith (p s : jsstring) : bool :=
  match p, s with
  | [], _ => true
  | a :: p', b :: s' => (a =? b)%N && startsWith p' s'
  | _ :: _, [] => false
  end.

(** [s.includes(c)] for a one-character needle. *)
Definition includes (c : N) (s : jsstring) : bool := existsb (N.eqb c) s.

(** [s.includes(needle)] *)
Fixpoint includesText (needle s : jsstring) : bool :=
  startsWith needle s
  || match s with
     | [] => false
     | _ :: r => includesText needle r
     end.

(** [s.split(sep)] for a one-character separator: always at least one part. *)
Fixpoint split (sep : N) (s : jsstring) : list jsstring :=
  match s with
  | [] => [[]]
  | c :: r =>
    if (c =? sep)%N then [] :: split sep r
    else match split sep r with
         | p :: ps => (c :: p) :: ps
         | [] => [[c]]
         end
  end.

(** Number of occurrences of a code unit. *)
Fixpoint occurrences (c : N) (s : jsstring) : nat :=
  match s with
  | [] => O
  | x :: r => if (x =? c)%N then S (occurrences c r) else occurrences c r
  end.

(** [s.substring(0, n)] for an integer [n >= 0]. *)
Definition substring0 (n : nat) (s : jsstring) : jsstring := firstn n s.

(** [s.padEnd(n, ' ')] and [s.padStart(n, ' ')]. *)
Definition padEnd (n : nat) (s : jsstring) : jsstring :=
  s ++ repeat (ch " ") (n - List.length s).
Definition padStart (n : nat) (s : jsstring) : jsstring :=
  repeat (ch " ") (n - List.length s) ++ s.

(** *** Numbers *)

Definition digit_unit (d : N) : N := (48 + d)%N.

Fixpoint units_of_uint (u : Decimal.uint) : jsstring :=
  match u with
  | Decimal.Nil => []
  | Decimal.D0 r => digit_unit 0 :: units_of_uint r
  | Decimal.D1 r => digit_unit 1 :: units_of_uint r
  | Decimal.D2 r => digit_unit 2 :: units_of_uint r
  | Decimal.D3 r => digit_unit 3 :: units_of_uint r
  | Decimal.D4 r => digit_unit 4 :: units_of_uint r
  | Decimal.D5 r => digit_unit 5 :: units_of_uint r
  | Decimal.D6 r => digit_unit 6 :: units_of_uint r
  | Decimal.D7 r => digit_unit 7 :: units_of_uint r
  | Decimal.D8 r => digit_unit 8 :: units_of_uint r
  | Decimal.D9 r => digit_unit 9 :: units_of_uint r
  end.

(** Template-literal rendering [`${n}`] of an integer-valued number. *)
Definition numberToString (z : Z) : jsstring :=
  match z with
  | Z0 => [digit_unit 0]
  | Zpos p => units_of_uint (Pos.to_uint p)
  | Zneg p => ch "-" :: units_of_uint (Pos.to_uint p)
  end.

(** Value of a digit in radix 10 or 16, if it is one. *)
Definition digitValue (radix : Z) (c : N) : option Z :=
  let z := Z.of_N c in
  if isDigit c then Some (z - 48)
  else if (radix =? 16) && (97 <=? z) && (z <=? 102) then Some (z - 87)
  else if (radix =? 16) && (65 <=? z) && (z <=? 70) then Some (z - 55)
  else None.

Definition isRadixDigit (radix : Z) (c : N) : bool :=
  match digitValue radix c with Some _ => true | None => false end.

Definition digitsValue (radix : Z) (ds : jsstring) : Z :=
  fold_left (fun acc c => acc * radix + default 0 (digitValue radix c)) ds 0.

(** [parseInt(s)] with no radix argument (ECMAScript 19.2.5): leading white
    space is skipped, a sign is read, a [0x]/[0X] prefix selects radix 16,
    and the longest prefix of digits is converted; what follows the digits
    is ignored, and no digit at all gives [NaN] (here [None]).  The result
    is the mathematical integer: the callers only compare it with 1 and
    65535, and the rounding to a double is monotone and exact on that
    range. *)
Definition parseInt (s : jsstring) : option Z :=
  let s1 := trimStart s in
  let '(sign, s2) :=
    match s1 with
    | c :: r =>
      if (c =? ch "-")%N then (-1, r)
      else if (c =? ch "+")%N then (1, r) else (1, s1)
    | [] => (1, s1)
    end in
  let '(radix, s3) :=
    match s2 with
    | z :: x :: r =>
      if ((z =? ch "0") && ((x =? ch "x") || (x =? ch "X")))%N
      then (16, r) else (10, s2)
    | _ => (10, s2)
    end in
  match takeWhile (isRadixDigit radix) s3 with
  | [] => None
  | ds => Some (sign * digitsValue radix ds)
  end.

End Js.
Import Js.

(** Thrown values: only [message] is ever read ([error.message],
    [lastError?.message]); a rejection that carries none has [None]. *)
Record JsError : Type := mkJsError { message : option jsstring }.

(** [new Error(msg)] *)
Definition newError (msg : jsstring) : JsError := mkJsError (Some msg).

(** Completion of a synchronous call. *)
Inductive Completion (A : Type) : Type :=
| Normal (a : A)
| Thrown (e : JsError).
Arguments Normal {A} a.
Arguments Thrown {A} e.

(* ===================================================================== *)
(** ** parseAddress                                                       *)
(* ===================================================================== *)

(** [input.replace(/^(http|https|udp|tcp):\/\//, '')] *)
Definition stripScheme (input : jsstring) : jsstring :=
  if startsWith (utf16 "http://") input then skipn 7 input
  else if startsWith (utf16 "https://") input then skipn 8 input
  else if startsWith (utf16 "udp://") input then skipn 6 input
  else if startsWith (utf16 "tcp://") input then skipn 6 input
  else input.

(** [address.match(/^\[([^\]]+)\](?::(\d+))?$/)]: the two capture groups,
    the second absent when the port suffix is. *)
Definition matchBracketed (address : jsstring)
  : option (jsstring * option jsstring) :=
  match address with
  | c :: rest =>
    if (c =? ch "[")%N then
      let notClose := fun c => negb (c =? ch "]")%N in
      match takeWhile notClose rest, dropWhile notClose rest with
      | h :: hs, _ :: tail =>
        match tail with
        | [] => Some (h :: hs, None)
        | c' :: ds =>
          if ((c' =? ch ":")%N && negb (Nat.eqb (List.length ds) 0)
              && forallb isDigit ds)%bool
          then Some (h :: hs, Some ds) else None
        end
      | _, _ => None
      end
    else None
  | [] => None
  end.

Definition defaultPort : Z := 27015.

Definition portInRange (port : Z) : bool := (1 <=? port) && (port <=? 65535).

Definition invalidAddressMessage (input : jsstring) : jsstring :=
  utf16 "无效的地址格式: " ++ input
  ++ [10%N] ++ utf16 "正确格式: [地址]:[端口] 或 [地址]".

Definition splitBranch (input address : jsstring) : Completion (jsstring * Z) :=
  match split (ch ":") address with
  | [host; portText] =>
    match parseInt portText with
    | Some port =>
      if portInRange port then Normal (host, port)
      else Thrown (newError (invalidAddressMessage input))
    | None => Thrown (newError (invalidAddressMessage input))
    end
  | [host] => Normal (host, defaultPort)
  | _ => Thrown (newError (invalidAddressMessage input))
  end.

Definition parseAddress (input : jsstring) : Completion (jsstring * Z) :=
  let address := stripScheme input in
  let bracketed :=
    if includes (ch "[") address then
      match matchBracketed address with
      | Some (host, group2) =>
        let port := match group2 with
                    | Some ds => parseInt ds
                    | None => Some defaultPort
                    end in
        match port with
        | Some p => if portInRange p then Some (host, p) else None
        | None => None
        end
      | None => None
      end
    else None in
  match bracketed with
  | Some hp => Normal hp
  | None => splitBranch input address
  end.

(* ===================================================================== *)
(** ** Data model                                                         *)
(* ===================================================================== *)

(** A player of the query result; [name] may be missing. *)
Record Player : Type := mkPlayer { player_name : option jsstring }.

(** The fields of the external query result that the text reports read
    ([result.name], [result.players], [result.maxplayers]); a missing field
    is [None]. *)
Record QueryResult : Type := mkQueryResult {
  name : option jsstring;
  players : option (list Player);
  maxplayers : option Z
}.

(** [{ game: 'csgo', result }] *)
Record Data : Type := mkData { game : jsstring; result : QueryResult }.

(** [interface CacheEntry { timestamp: number; data: any }] *)
Record CacheEntry : Type := mkCacheEntry { timestamp : Z; data : Data }.

(** The options of the plugin that the embedded functions read. *)
Record Config : Type := mkConfig {
  timeout : Z;
  cacheTime : Z;
  maxPlayers : Z;
  retryCount : Z;
  generateImage : bool;
  serverList : list jsstring;
  scheduleEnabled : bool;
  scheduleInterval : Z;
  scheduleStartTime : jsstring;
  scheduleEndTime : jsstring;
  scheduleGroups : list jsstring;
  scheduleUseImage : bool
}.

(** The argument object of [ctx.gamedig.query]. *)
Record QueryOptions : Type := mkQueryOptions {
  q_type : jsstring;
  q_host : jsstring;
  q_port : Z;
  q_maxAttempts : Z;
  q_socketTimeout : Z;
  q_attemptTimeout : Z
}.

(* ===================================================================== *)
(** ** Asynchronous programs                                              *)
(* ===================================================================== *)

(** An [async] function is a finite tree: it returns, throws, or performs
    an effect and continues with the answer.  [E X] is the family of
    effects answering in [X]. *)
Inductive Async (E : Type -> Type) (A : Type) : Type :=
| Ret (a : A)
| Throw (e : JsError)
| Vis {X : Type} (e : E X) (k : X -> Async E A).
Arguments Ret {E A} a.
Arguments Throw {E A} e.
Arguments Vis {E A X} e k.

Fixpoint bind {E A B} (p : Async E A) (f : A -> Async E B) : Async E B :=
  match p with
  | Ret a => f a
  | Throw e => Throw e
  | Vis e k => Vis e (fun x => bind (k x) f)
  end.

(** [try { body } catch (error) { handler }], where the body ends the
    function when it completes normally. *)
Fixpoint tryCatch {E A} (body : Async E A) (handler : JsError -> Async E A)
  : Async E A :=
  match body with
  | Ret a => Ret a
  | Throw e => handler e
  | Vis e k => Vis e (fun x => tryCatch (k x) handler)
  end.

Definition trigger {E X} (e : E X) : Async E X := Vis e Ret.

(** [await p] of a promise that settles with a completion. *)
Definition await {E A} (e : E (Completion A)) : Async E A :=
  Vis e (fun c => match c with Normal a => Ret a | Thrown err => Throw err end).

Definition ofCompletion {E A} (c : Completion A) : Async E A :=
  match c with Normal a => Ret a | Thrown e => Throw e end.

Declare Scope async_scope.
Delimit Scope async_scope with async.
Notation "x <- c1 ;; c2" := (bind c1 (fun x => c2))
  (at level 100, c1 at next level, right associativity) : async_scope.
Notation "c1 ;;; c2" := (bind c1 (fun _ => c2))
  (at level 100, right associativity) : async_scope.
Local Open Scope async_scope.

(** Effects of [queryServer]: the clock, the shared [cache] map, the
    external query and the timer of the inter-attempt delay.  The last two
    are awaited. *)
Inductive QEff : Type -> Type :=
| DateNow : QEff Z
| CacheGet (key : jsstring) : QEff (option CacheEntry)
| CacheSet (key : jsstring) (entry : CacheEntry) : QEff unit
| GamedigQuery (o : QueryOptions) : QEff (Completion QueryResult)
| SetTimeout (ms : Z) : QEff unit.

Definition awaited {X} (e : QEff X) : bool :=
  match e with
  | GamedigQuery _ | SetTimeout _ => true
  | _ => false
  end.

(* ===================================================================== *)
(** ** queryServer                                                        *)
(* ===================================================================== *)

(** [`${host}:${port}`] *)
Definition cacheKey (host : jsstring) (port : Z) : jsstring :=
  host ++ [ch ":"] ++ numberToString port.

Definition queryOptions (config : Config) (host : jsstring) (port : Z)
  : QueryOptions :=
  {| q_type := utf16 "csgo"; q_host := host; q_port := port;
     q_maxAttempts := 1;
     q_socketTimeout := timeout config;
     q_attemptTimeout := timeout config |}.

(** [lastError?.message || '未知错误'] *)
Definition lastErrorMessage (lastError : option JsError) : jsstring :=
  match lastError with
  | Some {| message := Some (c :: m) |} => c :: m
  | _ => utf16 "未知错误"
  end.

Definition queryFailedMessage (lastError : option JsError) : jsstring :=
  utf16 "无法连接到服务器: " ++ lastErrorMessage lastError.

(** The loop [for (let i = 0; i <= config.retryCount; i++)], entered at
    counter [i] with [remaining] iterations to go. *)
Fixpoint attemptLoop (config : Config) (host : jsstring) (port now : Z)
    (remaining : nat) (i : Z) (lastError : option JsError)
  : Async QEff Data :=
  match remaining with
  | O => Throw (newError (queryFailedMessage lastError))
  | S remaining' =>
    tryCatch
      (result <- await (GamedigQuery (queryOptions config host port)) ;;
       let data := {| game := utf16 "csgo"; result := result |} in
       (if 0 <? cacheTime config
        then trigger (CacheSet (cacheKey host port)
                               {| timestamp := now; data := data |})
        else Ret tt) ;;;
       Ret data)
      (fun error =>
         (if i <? retryCount config then trigger (SetTimeout 1000)
          else Ret tt) ;;;
         attemptLoop config host port now remaining' (i + 1) (Some error))
  end.

(** The cache check of the first lines: the entry that is returned at once,
    if there is one. *)
Definition freshEntry (config : Config) (now : Z) (cached : option CacheEntry)
  : option Data :=
  match cached with
  | Some c => if now - timestamp c <? cacheTime config then Some (data c) else None
  | None => None
  end.

Definition queryServer (config : Config) (host : jsstring) (port : Z)
  : Async QEff Data :=
  now <- trigger DateNow ;;
  hit <- (if 0 <? cacheTime config
          then cached <- trigger (CacheGet (cacheKey host port)) ;;
               Ret (freshEntry config now cached)
          else Ret None) ;;
  match hit with
  | Some d => Ret d
  | None =>
    attemptLoop config host port now (Z.to_nat (retryCount config + 1)) 0 None
  end.

(* ===================================================================== *)
(** ** Running one call                                                   *)
(* ===================================================================== *)

(** The collaborators outside the plugin: the wall clock, the query
    library, and the passing of time while a timer is awaited. *)
Class World : Type := {
  W : Type;
  clock : W -> Z;
  gamedig : QueryOptions -> W -> Completion QueryResult * W;
  elapse : Z -> W -> W
}.

(** What the collaborators were asked, in order. *)
Inductive Event : Type :=
| EvQuery (o : QueryOptions) (answer : Completion QueryResult)
| EvDelay (ms : Z).

Record Store `{World} : Type := mkStore {
  cache : gmap (list N) CacheEntry;
  world : W;
  trace : list Event
}.

Definition handle `{World} {X} (e : QEff X) (s : Store) : X * Store :=
  match e in QEff X return X * Store with
  | DateNow => (clock (world s), s)
  | CacheGet key => (cache s !! key, s)
  | CacheSet key entry =>
    (tt, {| cache := <[key := entry]> (cache s);
            world := world s; trace := trace s |})
  | GamedigQuery o =>
    let '(c, w') := gamedig o (world s) in
    (c, {| cache := cache s; world := w'; trace := trace s ++ [EvQuery o c] |})
  | SetTimeout ms =>
    (tt, {| cache := cache s; world := elapse ms (world s);
            trace := trace s ++ [EvDelay ms] |})
  end.

(** A call that nothing else interleaves with. *)
Fixpoint run `{World} {A} (p : Async QEff A) (s : Store) : Completion A * Store :=
  match p with
  | Ret a => (Normal a, s)
  | Throw e => (Thrown e, s)
  | Vis e k => let '(x, s') := handle e s in run (k x) s'
  end.

(** A scripted world for examples: each query takes the next scripted
    answer and the time it took; time passes while a timer is awaited. *)
Record Script : Type := mkScript {
  s_time : Z;
  s_answers : list (Completion QueryResult * Z)
}.

#[export] Instance scriptWorld : World := {|
  W := Script;
  clock := s_time;
  gamedig := fun _ w =>
    match s_answers w with
    | (c, d) :: rest => (c, {| s_time := s_time w + d; s_answers := rest |})
    | [] => (Thrown (mkJsError None), w)
    end;
  elapse := fun ms w => {| s_time := s_time w + ms; s_answers := s_answers w |}
|}.

(** The events of failed attempts, each followed by the fixed wait. *)
Definition failedAttempts (o : QueryOptions) (errs : list JsError) : list Event :=
  flat_map (fun e => [EvQuery o (Thrown e); EvDelay 1000]) errs.

(** What the cache check of a call entered in store [s] finds. *)
Definition cachedData `{World} (config : Config) (host : jsstring) (port : Z)
    (s : Store) : option Data :=
  if 0 <? cacheTime config
  then freshEntry config (clock (world s)) (cache s !! cacheKey host port)
  else None.

(* ===================================================================== *)
(** ** queryServers: the batch fan-out                                    *)
(* ===================================================================== *)

(** What a batch element carries besides its place: [success: true, data]
    or [success: false, error: error.message]. *)
Inductive Outcome : Type :=
| Succeeded (data : Data)
| Failed (error : option jsstring).

(** [{ index, server, success, data | error }] *)
Record Entry : Type := mkEntry {
  index : Z;
  server : jsstring;
  outcome : Outcome
}.

Definition success (e : Entry) : bool :=
  match outcome e with Succeeded _ => true | Failed _ => false end.

(** An element of the array that [Promise.allSettled] resolves to. *)
Inductive Settled (A : Type) : Type :=
| Fulfilled (value : A)
| Rejected (reason : JsError).
Arguments Fulfilled {A} value.
Arguments Rejected {A} reason.

(** The callback of [serversToQuery.map(async (server, index) => ...)]. *)
Definition queryTask (config : Config) (index0 : nat) (server : jsstring)
  : Async QEff Entry :=
  tryCatch
    (hp <- ofCompletion (parseAddress server) ;;
     data <- queryServer config hp.1 hp.2 ;;
     Ret {| index := Z.of_nat index0 + 1; server := server;
            outcome := Succeeded data |})
    (fun error =>
       Ret {| index := Z.of_nat index0 + 1; server := server;
              outcome := Failed (message error) |}).

Definition queryTasks (config : Config) (serversToQuery : list jsstring)
  : list (Async QEff Entry) :=
  imap (queryTask config) serversToQuery.

(** *** The tasks of a batch on the event loop

    A started task runs until it awaits the query or the timer; the event
    loop then resumes, one at a time and in any order, a task whose awaited
    effect settles, and that task runs on to its next await or to its end.
    All tasks share the store. *)
Fixpoint advance `{World} {A} (p : Async QEff A) (s : Store)
  : Async QEff A * Store :=
  match p with
  | Vis e k =>
    if awaited e then (p, s)
    else let '(x, s') := handle e s in advance (k x) s'
  | _ => (p, s)
  end.

(** [list.map(async ...)] starts the tasks in order. *)
Fixpoint spawn `{World} {A} (ps : list (Async QEff A)) (s : Store)
  : list (Async QEff A) * Store :=
  match ps with
  | [] => ([], s)
  | p :: ps' =>
    let '(p1, s1) := advance p s in
    let '(rest, s2) := spawn ps' s1 in
    (p1 :: rest, s2)
  end.

Inductive resume `{World} {A}
  : list (Async QEff A) * Store -> list (Async QEff A) * Store -> Prop :=
| resume_task ts s j X (e : QEff X) k x s1 p' s2 :
    ts !! j = Some (Vis e k) ->
    awaited e = true ->
    handle e s = (x, s1) ->
    advance (k x) s1 = (p', s2) ->
    resume (ts, s) (<[j := p']> ts, s2).



(** A task that awaits at most [n] times, whatever it is answered. *)
Fixpoint AwaitsWithin {A} (n : nat) (p : Async QEff A) : Prop :=
  match p with
  | Vis e k =>
    if awaited e
    then match n with
         | O => False
         | S m => forall x, AwaitsWithin m (k x)
         end
    else forall x, AwaitsWithin n (k x)
  | _ => True
  end.

(** A task between two turns: done, or waiting for an awaited effect. *)
Definition parked {A} (p : Async QEff A) : bool :=
  match p with
  | Vis e _ => awaited e
  | _ => true
  end.




(* ===================================================================== *)
(** ** Text reports                                                       *)
(* ===================================================================== *)

(** [s.replace(/\^[0-9]/g, '')]: every caret followed by a digit goes,
    scanning from the left. *)
Fixpoint stripColorCodes (s : jsstring) : jsstring :=
  match s with
  | [] => []
  | c :: r =>
    match r with
    | d :: r' =>
      if ((c =? ch "^")%N && isDigit d)%bool then stripColorCodes r'
      else c :: stripColorCodes r
    | [] => [c]
    end
  end.

(** [s.replace(/[\u0000-\u001F]/g, '')] *)
Definition stripControl (s : jsstring) : jsstring :=
  List.filter (fun c => negb (isControl c)) s.

(** [utils.cleanName]; a missing or empty name is falsy. *)
Definition cleanName (name : option jsstring) : jsstring :=
  match name with
  | Some (c :: r) => trim (stripControl (stripColorCodes (c :: r)))
  | _ => utf16 "未知"
  end.

(** [utils.truncateText] *)
Definition truncateText (text : jsstring) (maxLength : nat) : jsstring :=
  if (maxLength <? List.length text)%nat
  then substring0 maxLength text ++ utf16 "..."
  else text.

(** Rendering of a fraction, which the embedding does not compute:
    [toFixed digits ms] stands for [(ms / 1000).toFixed(digits)]. *)
Class NumberFormat : Type := { toFixed : nat -> Z -> jsstring }.

(** [utils.formatTime] *)
Definition formatTime `{NumberFormat} (ms : Z) : jsstring :=
  if ms <? 1000 then numberToString ms ++ utf16 "ms"
  else if ms <? 60000 then toFixed 1 ms ++ utf16 "秒"
  else toFixed 0 ms ++ utf16 "秒".

(** [serverData.name ? utils.cleanName(serverData.name) : '未知'] *)
Definition serverName (serverData : QueryResult) : jsstring :=
  match name serverData with
  | Some (c :: r) => cleanName (Some (c :: r))
  | _ => utf16 "未知"
  end.

(** [utils.truncateText(serverName, 20).padEnd(20, ' ')]: the name field
    of a row. *)
Definition paddedName (serverData : QueryResult) : jsstring :=
  padEnd 20 (truncateText (serverName serverData) 20).

(** [x || 0] for a count *)
Definition orZero (x : option Z) : Z := default 0 x.

(** [`${x}`] of a string that may be [undefined] *)
Definition renderOptional (x : option jsstring) : jsstring :=
  default (utf16 "undefined") x.

(** The body of [results.forEach((result, index) => ...)]: the row that is
    appended for one settled element. *)
Definition tableRow (serversToQuery : list jsstring) (index0 : nat)
    (r : Settled Entry) : jsstring :=
  let serverInfo := renderOptional (serversToQuery !! index0) in
  let number := padStart 2 (numberToString (Z.of_nat index0 + 1)) in
  match r with
  | Fulfilled value =>
    match outcome value with
    | Succeeded d =>
      let serverData := result d in
      let playerCount := orZero (Z.of_nat <$> (List.length <$> players serverData)) in
      let maxPlayers := orZero (maxplayers serverData) in
      number ++ utf16 "  " ++ paddedName serverData ++ utf16 " "
      ++ numberToString playerCount ++ utf16 "/" ++ numberToString maxPlayers
      ++ [10%N]
    | Failed error =>
      number ++ utf16 "  " ++ serverInfo ++ utf16 " ❌ 查询失败: "
      ++ renderOptional error ++ [10%N]
    end
  | Rejected _ =>
    number ++ utf16 "  " ++ serverInfo ++ utf16 " ❌ 查询失败" ++ [10%N]
  end.

Definition isSuccessful (r : Settled Entry) : bool :=
  match r with
  | Fulfilled value => success value
  | Rejected _ => false
  end.

(** [generateTextTable]; the default title is ['批量查询结果']. *)
Definition generateTextTable `{NumberFormat} (results : list (Settled Entry))
    (serversToQuery : list jsstring) (queryTime : Z) (title : jsstring)
  : jsstring :=
  let successful := Z.of_nat (List.length (List.filter isSuccessful results)) in
  let failed := Z.of_nat (List.length results) - successful in
  utf16 "📊 " ++ title ++ utf16 " (" ++ formatTime queryTime ++ utf16 ")" ++ [10%N]
  ++ utf16 "✅ 成功: " ++ numberToString successful
  ++ utf16 " 个 | ❌ 失败: " ++ numberToString failed ++ utf16 " 个" ++ [10%N; 10%N]
  ++ utf16 "序号 服务器名称       在线人数" ++ [10%N]
  ++ utf16 "──────────────────────────────" ++ [10%N]
  ++ concat (imap (tableRow serversToQuery) results).

(** The collation of the host: [String.prototype.toLowerCase] and
    [String.prototype.localeCompare], whose sign orders two strings. *)
Class Locale : Type := {
  toLowerCase : jsstring -> jsstring;
  localeCompare : jsstring -> jsstring -> Z
}.

(** [Array.prototype.sort(compare)]: for a comparator that orders its
    arguments consistently the result is the stable sorted arrangement,
    which insertion from the right computes. *)
Fixpoint insertSorted {A} (compare : A -> A -> Z) (x : A) (l : list A) : list A :=
  match l with
  | [] => [x]
  | y :: l' =>
    if compare x y <=? 0 then x :: l else y :: insertSorted compare x l'
  end.

Definition sort {A} (compare : A -> A -> Z) (l : list A) : list A :=
  foldr (insertSorted compare) [] l.

(** [a.slice(0, end)] for an integer [end]; a negative one counts from the
    end of the array. *)
Definition slice0 {A} (end_ : Z) (l : list A) : list A :=
  firstn (Z.to_nat (if end_ <? 0 then Z.of_nat (List.length l) + end_ else end_)) l.

(** The comparator of [formatPlayers]. *)
Definition comparePlayers `{Locale} (a b : Player) : Z :=
  let nameA := toLowerCase (cleanName (player_name a)) in
  let nameB := toLowerCase (cleanName (player_name b)) in
  localeCompare nameA nameB.

Definition noPlayersLine : jsstring := utf16 "👤 服务器当前无在线玩家".

(** [`${index + 1}. ${utils.cleanName(player.name)}\n`] *)
Definition playerLine (index0 : nat) (player : Player) : jsstring :=
  numberToString (Z.of_nat index0 + 1) ++ utf16 ". "
  ++ cleanName (player_name player) ++ [10%N].

(** [`... 还有 ${n} 位玩家未显示`] *)
Definition moreLine (n : Z) : jsstring :=
  utf16 "... 还有 " ++ numberToString n ++ utf16 " 位玩家未显示".

(** [formatPlayers]; [None] is a missing list. *)
Definition formatPlayers `{Locale} (config : Config) (players : option (list Player))
  : jsstring :=
  match players with
  | None | Some [] => noPlayersLine
  | Some players =>
    let sortedPlayers := sort comparePlayers players in
    let displayPlayers := slice0 (maxPlayers config) sortedPlayers in
    let count := Z.of_nat (List.length players) in
    let message :=
      utf16 "👤 在线玩家 (" ++ numberToString count ++ utf16 "人):" ++ [10%N] in
    let message := message ++ concat (imap playerLine displayPlayers) in
    let message :=
      if maxPlayers config <? count
      then message ++ moreLine (count - maxPlayers config)
      else message in
    trim message
  end.

(** A collation for examples: ASCII letters fold to lower case and strings
    compare code unit by code unit. *)
Definition asciiLower (c : N) : N :=
  if ((65 <=? c) && (c <=? 90))%N then (c + 32)%N else c.

Fixpoint compareUnits (a b : jsstring) : Z :=
  match a, b with
  | [], [] => 0
  | [], _ :: _ => -1
  | _ :: _, [] => 1
  | x :: a', y :: b' =>
    if (x <? y)%N then -1 else if (y <? x)%N then 1 else compareUnits a' b'
  end.

#[export] Instance asciiLocale : Locale := {|
  toLowerCase := List.map asciiLower;
  localeCompare := compareUnits
|}.

(** A number format for examples that keeps the integer part only. *)
#[export] Instance wholeSeconds : NumberFormat := {|
  toFixed := fun _ ms => numberToString (ms / 1000)
|}.

(* ===================================================================== *)
(** ** The schedule timer                                                 *)
(* ===================================================================== *)

(** The timers of the runtime and the variable [scheduleTimer].  [armed]
    holds the interval timers that were set and not cleared, with their
    period; a handle is never handed out twice.  [executions] counts the
    calls of [executeScheduleTask], [logged] the lines of [console.log]. *)
Record Scheduler : Type := mkScheduler {
  scheduleTimer : option nat;
  armed : gmap nat Z;
  nextHandle : nat;
  executions : nat;
  logged : list jsstring
}.

Definition initialScheduler : Scheduler :=
  {| scheduleTimer := None; armed := ∅; nextHandle := O;
     executions := O; logged := [] |}.

(** [clearInterval(handle)] *)
Definition clearInterval (handle : nat) (s : Scheduler) : Scheduler :=
  {| scheduleTimer := scheduleTimer s; armed := delete handle (armed s);
     nextHandle := nextHandle s; executions := executions s;
     logged := logged s |}.

(** [setInterval(executeScheduleTask, intervalMs)]: the new handle and the
    runtime with the timer armed. *)
Definition setInterval (intervalMs : Z) (s : Scheduler) : nat * Scheduler :=
  (nextHandle s,
   {| scheduleTimer := scheduleTimer s;
      armed := <[nextHandle s := intervalMs]> (armed s);
      nextHandle := S (nextHandle s); executions := executions s;
      logged := logged s |}).

Definition startedMessage (config : Config) : jsstring :=
  utf16 "定时任务已启动，间隔: " ++ numberToString (scheduleInterval config)
  ++ utf16 "分钟，时间范围: " ++ scheduleStartTime config ++ utf16 "-"
  ++ scheduleEndTime config.

Definition startScheduleTask (config : Config) (s : Scheduler) : Scheduler :=
  let s1 := match scheduleTimer s with
            | Some handle => clearInterval handle s
            | None => s
            end in
  if scheduleEnabled config && (0 <? scheduleInterval config) then
    let intervalMs := scheduleInterval config * 60 * 1000 in
    (* executeScheduleTask() *)
    let s2 := {| scheduleTimer := scheduleTimer s1; armed := armed s1;
                 nextHandle := nextHandle s1; executions := S (executions s1);
                 logged := logged s1 |} in
    let '(handle, s3) := setInterval intervalMs s2 in
    {| scheduleTimer := Some handle; armed := armed s3;
       nextHandle := nextHandle s3; executions := executions s3;
       logged := logged s3 ++ [startedMessage config] |}
  else s1.

Definition stopScheduleTask (s : Scheduler) : Scheduler :=
  match scheduleTimer s with
  | Some handle =>
    let s1 := clearInterval handle s in
    {| scheduleTimer := None; armed := armed s1; nextHandle := nextHandle s1;
       executions := executions s1;
       logged := logged s1 ++ [utf16 "定时任务已停止"] |}
  | None => s
  end.

(** The runtime fires an armed timer: one more call of the callback. *)
Definition fire (handle : nat) (s : Scheduler) : option Scheduler :=
  match armed s !! handle with
  | Some _ =>
    Some {| scheduleTimer := scheduleTimer s; armed := armed s;
            nextHandle := nextHandle s; executions := S (executions s);
            logged := logged s |}
  | None => None
  end.

(** What can happen to the scheduler: the two functions are called, with
    whatever configuration is current, and armed timers fire. *)
Inductive schedulerStep : Scheduler -> Scheduler -> Prop :=
| step_start config s : schedulerStep s (startScheduleTask config s)
| step_stop s : schedulerStep s (stopScheduleTask s)
| step_fire handle s s' : fire handle s = Some s' -> schedulerStep s s'.

(** The places the plugin calls them from: plugin start and the [config]
    event ([if (config.scheduleEnabled) startScheduleTask() else
    stopScheduleTask()], the plugin start without the [else]), the
    [cs.schedule] options [-S] (which first sets [scheduleEnabled]) and [-T],
    and [dispose]. *)
Definition withEnabled (b : bool) (config : Config) : Config :=
  {| timeout := timeout config; cacheTime := cacheTime config;
     maxPlayers := maxPlayers config; retryCount := retryCount config;
     generateImage := generateImage config; serverList := serverList config;
     scheduleEnabled := b; scheduleInterval := scheduleInterval config;
     scheduleStartTime := scheduleStartTime config;
     scheduleEndTime := scheduleEndTime config;
     scheduleGroups := scheduleGroups config;
     scheduleUseImage := scheduleUseImage config |}.

Inductive pluginStep : Scheduler -> Scheduler -> Prop :=
| plugin_config config s :
    0 < scheduleInterval config ->
    pluginStep s (if scheduleEnabled config then startScheduleTask config s
                  else stopScheduleTask s)
| plugin_command_start config s :
    0 < scheduleInterval config ->
    pluginStep s (startScheduleTask (withEnabled true config) s)
| plugin_command_stop s : pluginStep s (stopScheduleTask s)
| plugin_dispose s : pluginStep s (stopScheduleTask s)
| plugin_fire handle s s' : fire handle s = Some s' -> pluginStep s s'.

(** *** The time window *)

(** [Number(s)] on the strings that denote an integer in decimal digits,
    with an optional sign; white space around is ignored and the empty
    string is 0.  Any other string is [None]: it is [NaN], or one of the
    other numeric literals, which the schema of the two time options rules
    out. *)
Definition toNumber (s : jsstring) : option Z :=
  match trim s with
  | [] => Some 0
  | c :: r =>
    let '(sign, ds) :=
      if (c =? ch "-")%N then (-1, r)
      else if (c =? ch "+")%N then (1, r) else (1, c :: r) in
    match ds with
    | [] => None
    | _ => if forallb isDigit ds then Some (sign * digitsValue 10 ds) else None
    end
  end.

(** [utils.parseTimeToMinutes]; [None] is [NaN]. *)
Definition parseTimeToMinutes (timeStr : jsstring) : option Z :=
  match List.map toNumber (split (ch ":") timeStr) with
  | Some hours :: Some minutes :: _ => Some (hours * 60 + minutes)
  | _ => None
  end.

(** The comparison at the end of [utils.isWithinScheduleTime], for the
    hour and minute that [new Date()] shows; a comparison with [NaN] is
    false. *)
Definition withinWindow (hours minutes : Z) (startTime endTime : jsstring) : bool :=
  let currentMinutes := hours * 60 + minutes in
  match parseTimeToMinutes startTime, parseTimeToMinutes endTime with
  | Some startMinutes, Some endMinutes =>
    (startMinutes <=? currentMinutes) && (currentMinutes <=? endMinutes)
  | _, _ => false
  end.

(** The pattern of the schema for the two time options,
    [/^([01]?[0-9]|2[0-3]):[0-5][0-9]$/]. *)
Definition isTimeOfDay (s : jsstring) : bool :=
  let upto (c hi : N) := ((48 <=? c) && (c <=? hi))%N in
  match s with
  | [h; c; m1; m2] =>
    isDigit h && (c =? ch ":")%N && upto m1 53%N && isDigit m2
  | [h1; h2; c; m1; m2] =>
    (upto h1 49%N && isDigit h2 || (h1 =? ch "2")%N && upto h2 51%N)
    && (c =? ch ":")%N && upto m1 53%N && isDigit m2
  | _ => false
  end.

(* ===================================================================== *)
(** ** Commands and the scheduled task                                    *)
(* ===================================================================== *)

(** The bytes of a rendered image. *)
Definition Buffer : Type := list N.

(** What is sent to a chat: a text or [h.image(buffer, 'image/png')]. *)
Inductive Content : Type :=
| Text (s : jsstring)
| ImageElement (buffer : Buffer).

(** Effects of the command handlers and of the scheduled task.  The
    queries, the drawing on the canvas and the delivery of messages are
    awaited. *)
Inductive CEff : Type -> Type :=
| LocalTime : CEff (Z * Z)
    (** [new Date()]: its [getHours()] and [getMinutes()] *)
| Now : CEff Z
    (** [Date.now()] *)
| LocaleTimeString : CEff jsstring
    (** [new Date().toLocaleString('zh-CN')] *)
| QueryBatch (servers : list jsstring) : CEff (list (Settled Entry))
    (** [Promise.allSettled] over the tasks of the addresses *)
| QueryOne (host : jsstring) (port : Z) : CEff (Completion Data)
    (** [queryServer(host, port)] *)
| GenerateBatchImage (results : list (Settled Entry)) (servers : list jsstring)
    (queryTime : Z) : CEff (Completion Buffer)
| GenerateServerImage (d : Data) (host : jsstring) (port : Z)
  : CEff (Completion Buffer)
| Broadcast (channels : list jsstring) (content : option Content)
  : CEff (Completion unit)
| SessionSend (msg : jsstring) : CEff unit
| ConsoleError (what : jsstring) (error : JsError) : CEff unit
| CacheSize : CEff Z
| CacheClear : CEff unit.

(** A call of a collaborator, as recorded. *)
Record Call : Type := mkCall { call_answer : Type; call_effect : CEff call_answer }.

(** The host of the plugin answers every call from its state. *)
Class Host : Type := {
  HostState : Type;
  answer : forall {X}, CEff X -> HostState -> X * HostState
}.

(** Run a handler: its completion, the state of the host after it, and the
    calls it made, in order. *)
Fixpoint exec `{Host} {A} (p : Async CEff A) (h : HostState)
  : Completion A * HostState * list Call :=
  match p with
  | Ret a => (Normal a, h, [])
  | Throw e => (Thrown e, h, [])
  | Vis e k =>
    let '(x, h1) := answer e h in
    let '(c, h2, calls) := exec (k x) h1 in
    (c, h2, mkCall _ e :: calls)
  end.

Definition isQueryCall (c : Call) : bool :=
  match call_effect c with
  | QueryBatch _ | QueryOne _ _ => true
  | _ => false
  end.

Definition isBroadcastCall (c : Call) : bool :=
  match call_effect c with
  | Broadcast _ _ => true
  | _ => false
  end.

Definition isImageCall (c : Call) : bool :=
  match call_effect c with
  | GenerateBatchImage _ _ _ | GenerateServerImage _ _ _ => true
  | _ => false
  end.

(** The servers of a batch call and the channels of a broadcast. *)
Definition batchOf (c : Call) : option (list jsstring) :=
  match call_effect c with
  | QueryBatch servers => Some servers
  | _ => None
  end.

Definition channelsOf (c : Call) : option (list jsstring) :=
  match call_effect c with
  | Broadcast channels _ => Some channels
  | _ => None
  end.

(** [queryServers], seen from its caller. *)
Definition queryServers (serversToQuery : list jsstring)
  : Async CEff (list (Settled Entry) * Z) :=
  startTime <- trigger Now ;;
  results <- trigger (QueryBatch serversToQuery) ;;
  endTime <- trigger Now ;;
  Ret (results, endTime - startTime).

(** [utils.isWithinScheduleTime] *)
Definition isWithinScheduleTime (startTime endTime : jsstring) : Async CEff bool :=
  now <- trigger LocalTime ;;
  Ret (withinWindow now.1 now.2 startTime endTime).

(** The text of the scheduled report (scheduler revision, the branch
    [typeof outputContent === 'string' || !config.scheduleUseImage]). *)
Definition scheduleTextMessage `{NumberFormat} (config : Config)
    (results : list (Settled Entry)) (queryTime : Z) (timeStr : jsstring)
  : jsstring :=
  let successful := Z.of_nat (List.length (List.filter isSuccessful results)) in
  let failed := Z.of_nat (List.length results) - successful in
  utf16 "🕒 " ++ timeStr ++ utf16 " 服务器状态更新 (耗时: "
  ++ formatTime queryTime ++ utf16 ")" ++ [10%N]
  ++ utf16 "✅ 成功: " ++ numberToString successful
  ++ utf16 " 个 | ❌ 失败: " ++ numberToString failed ++ utf16 " 个" ++ [10%N; 10%N]
  ++ utf16 "序号 服务器名称    在线人数" ++ [10%N]
  ++ utf16 "──────────────────────────────" ++ [10%N]
  ++ concat (imap (tableRow (serverList config)) results).

(** [for (const groupId of config.scheduleGroups) { try { await
    ctx.broadcast(...) } catch (error) { console.error(...) } }] *)
Fixpoint broadcastAll (groups : list jsstring) (content : option Content)
  : Async CEff unit :=
  match groups with
  | [] => Ret tt
  | groupId :: rest =>
    tryCatch
      (await (Broadcast [utf16 "onebot:" ++ groupId] content))
      (fun error =>
         trigger (ConsoleError
                    (utf16 "定时任务发送消息到群组 " ++ groupId ++ utf16 " 失败:")
                    error)) ;;;
    broadcastAll rest content
  end.

(** The block [if (config.scheduleUseImage) { try { ... } catch { ... } }]:
    the value of [outputContent] after it. *)
Definition scheduleImage (config : Config) (results : list (Settled Entry))
    (queryTime : Z) (timeStr : jsstring) : Async CEff (option Content) :=
  if scheduleUseImage config then
    tryCatch
      (imageBuffer <- await (GenerateBatchImage results (serverList config)
                                                queryTime) ;;
       Ret (Some (ImageElement imageBuffer)))
      (fun imageError =>
         trigger (ConsoleError (utf16 "定时任务生成图片失败:") imageError) ;;;
         Ret (Some (Text (utf16 "🕒 " ++ timeStr ++ utf16 " 服务器状态更新"
                          ++ [10%N] ++ utf16 "生成图片失败，使用文本格式："
                          ++ [10%N; 10%N]))))
  else Ret None.

(** The statements inside the outer [try] of [executeScheduleTask]. *)
Definition scheduleReport `{NumberFormat} (config : Config) : Async CEff unit :=
  startTime <- trigger Now ;;
  results <- trigger (QueryBatch (serverList config)) ;;
  endTime <- trigger Now ;;
  let queryTime := endTime - startTime in
  timeStr <- trigger LocaleTimeString ;;
  outputContent <- scheduleImage config results queryTime timeStr ;;
  let textMessage := scheduleTextMessage config results queryTime timeStr in
  let outputContent :=
    match outputContent with
    | Some (Text prefix) => Some (Text (prefix ++ textMessage))
    | other =>
      if negb (scheduleUseImage config) then Some (Text textMessage) else other
    end in
  broadcastAll (scheduleGroups config) outputContent.

Definition executeScheduleTask `{NumberFormat} (config : Config) : Async CEff unit :=
  if negb (scheduleEnabled config)
     || Nat.eqb (List.length (scheduleGroups config)) 0
     || Nat.eqb (List.length (serverList config)) 0
  then Ret tt
  else
    within <- isWithinScheduleTime (scheduleStartTime config) (scheduleEndTime config) ;;
    if negb within then Ret tt
    else
      tryCatch (scheduleReport config)
        (fun error => trigger (ConsoleError (utf16 "定时任务执行失败:") error)).

(** [formatServerInfo], the single-server text, renders fields of the
    query result that no property here depends on (map, bots, ping, ...);
    it is taken as given. *)
Class ServerInfoText : Type := { formatServerInfo : Data -> jsstring }.

(** [const shouldGenerateImage =
       options.image || (config.generateImage && !options.text)],
    the same line in the [cs] and [csss] actions. *)
Definition shouldGenerateImage (image text : bool) (config : Config) : bool :=
  image || (generateImage config && negb text).

(** Options of [cs <address>]. *)
Record CsOptions : Type := mkCsOptions {
  cs_noPlayers : bool;
  cs_image : bool;
  cs_text : bool;
  cs_clear : bool
}.

(** The [catch] of the [cs] action: reading [error.message.includes] of an
    error without message is itself a [TypeError]. *)
Definition csErrorReply (error : JsError) : Async CEff Content :=
  match message error with
  | None =>
    Throw (newError (utf16 "Cannot read properties of undefined (reading 'includes')"))
  | Some msg =>
    let errorMessage := utf16 "查询失败: " ++ msg ++ [10%N; 10%N] in
    Ret (Text (
      if includesText (utf16 "无法加载 gamedig") msg then
        errorMessage ++ utf16 "请确保已安装 koishi-plugin-gamedig：" ++ [10%N]
        ++ utf16 "1. 在插件市场搜索并安装 koishi-plugin-gamedig" ++ [10%N]
        ++ utf16 "2. 启用该插件后重启"
      else if includesText (utf16 "无效的地址格式") msg then
        errorMessage ++ utf16 "地址格式应为: 地址:端口" ++ [10%N]
        ++ utf16 "示例: 127.0.0.1:27015 或 edgebug.cn:27015" ++ [10%N]
        ++ utf16 "如果不指定端口，默认使用 27015"
      else
        errorMessage ++ utf16 "请检查：" ++ [10%N]
        ++ utf16 "1. 服务器地址和端口是否正确" ++ [10%N]
        ++ utf16 "2. 服务器是否已开启并允许查询" ++ [10%N]
        ++ utf16 "3. 防火墙是否允许访问" ++ [10%N]
        ++ utf16 "4. 服务器是否为CS服务器"))
  end.

(** The action of [cs <address>]; a missing or empty address is falsy. *)
Definition csAction `{Locale} `{ServerInfoText} (config : Config)
    (options : CsOptions) (address : option jsstring) : Async CEff Content :=
  match address with
  | None | Some [] =>
    Ret (Text (utf16 "使用格式: cs [地址:端口]" ++ [10%N]
               ++ utf16 "示例: cs 127.0.0.1:27015 / cs edgebug.cn"))
  | Some address =>
    if cs_clear options then
      count <- trigger CacheSize ;;
      trigger CacheClear ;;;
      Ret (Text (utf16 "已清除 " ++ numberToString count ++ utf16 " 条缓存记录"))
    else
      tryCatch
        (hp <- ofCompletion (parseAddress address) ;;
         let host := hp.1 in
         let port := hp.2 in
         d <- await (QueryOne host port) ;;
         if shouldGenerateImage (cs_image options) (cs_text options) config then
           tryCatch
             (imageBuffer <- await (GenerateServerImage d host port) ;;
              Ret (ImageElement imageBuffer))
             (fun imageError =>
                trigger (ConsoleError (utf16 "生成图片失败:") imageError) ;;;
                Ret (Text (utf16 "生成图片失败: "
                           ++ renderOptional (message imageError))))
         else
           Ret (Text (formatServerInfo d ++ [10%N; 10%N]
                      ++ formatPlayers config
                           (Some (default [] (players (result d)))))))
        csErrorReply
  end.

(** Options of [csss]. *)
Record CsssOptions : Type := mkCsssOptions {
  csss_list : bool;
  csss_add : option jsstring;
  csss_remove : option Z;
  csss_clear : bool;
  csss_image : bool;
  csss_text : bool
}.

(** [list.splice(index, 1)] for an index inside the list. *)
Definition removeAt {A} (index0 : nat) (l : list A) : list A :=
  firstn index0 l ++ skipn (S index0) l.

(** The last block of the [csss] action: query, then image or table. *)
Definition csssQuery `{NumberFormat} (config : Config) (options : CsssOptions)
    (serversToQuery : list jsstring) : Async CEff (Content * list jsstring) :=
  let servers := serverList config in
  tryCatch
    (batch <- queryServers serversToQuery ;;
     let results := batch.1 in
     let queryTime := batch.2 in
     image <-
       (if shouldGenerateImage (csss_image options) (csss_text options) config then
          tryCatch
            (imageBuffer <- await (GenerateBatchImage results serversToQuery
                                                      queryTime) ;;
             Ret (Some (ImageElement imageBuffer)))
            (fun imageError =>
               trigger (ConsoleError (utf16 "生成批量查询图片失败:") imageError) ;;;
               Ret None)
        else Ret None) ;;
     match image with
     | Some element => Ret (element, servers)
     | None =>
       Ret (Text (generateTextTable results serversToQuery queryTime
                    (utf16 "批量查询结果")
                  ++ [10%N] ++ utf16 "📋 输入 `cs <服务器地址>` 查询单个服务器"),
            servers)
     end)
    (fun error =>
       Ret (Text (utf16 "❌ 批量查询失败: " ++ renderOptional (message error)),
            servers)).

(** The action of [csss]: the reply and [config.serverList] as the action
    leaves it. *)
Definition csssAction `{NumberFormat} (config : Config) (options : CsssOptions)
    (addresses : list jsstring) : Async CEff (Content * list jsstring) :=
  let servers := serverList config in
  let count := Z.of_nat (List.length servers) in
  if csss_list options then
    Ret (Text (utf16 "📋 配置的服务器列表:" ++ [10%N]
               ++ concat (imap (fun index0 srv =>
                                  numberToString (Z.of_nat index0 + 1) ++ utf16 ". "
                                  ++ srv ++ [10%N]) servers)),
         servers)
  else
  match csss_add options with
  | Some (c :: r) =>
    let added := c :: r in
    match parseAddress added with
    | Normal _ =>
      Ret (Text (utf16 "✅ 已添加服务器: " ++ added ++ [10%N] ++ utf16 "当前列表: "
                 ++ numberToString (count + 1) ++ utf16 " 个服务器"),
           servers ++ [added])
    | Thrown error =>
      Ret (Text (utf16 "❌ 添加失败: " ++ renderOptional (message error) ++ [10%N]
                 ++ utf16 "正确格式: 地址:端口 (例如: 127.0.0.1:27015)"),
           servers)
    end
  | _ =>
  match csss_remove options with
  | Some remove =>
    let index0 := remove - 1 in
    if (0 <=? index0) && (index0 <? count) then
      Ret (Text (utf16 "✅ 已移除服务器: "
                 ++ renderOptional (servers !! Z.to_nat index0) ++ [10%N]
                 ++ utf16 "当前列表: " ++ numberToString (count - 1)
                 ++ utf16 " 个服务器"),
           removeAt (Z.to_nat index0) servers)
    else
      Ret (Text (utf16 "❌ 索引无效，请输入 1-" ++ numberToString count
                 ++ utf16 " 之间的数字"),
           servers)
  | None =>
  if csss_clear options then
    Ret (Text (utf16 "✅ 已清空服务器列表，共移除 " ++ numberToString count
               ++ utf16 " 个服务器"),
         [])
  else
  match (match addresses with _ :: _ => Some addresses | [] =>
           match servers with _ :: _ => Some servers | [] => None end end) with
  | None =>
    Ret (Text (utf16 "❌ 没有可查询的服务器" ++ [10%N]
               ++ utf16 "请使用: csss -a <地址:端口> 添加服务器" ++ [10%N]
               ++ utf16 "或使用: csss <地址1> <地址2> ... 临时查询"),
         servers)
  | Some serversToQuery =>
    let maxServers := 10%nat in
    serversToQuery <-
      (if (maxServers <? List.length serversToQuery)%nat then
         trigger (SessionSend (utf16 "⚠️ 服务器数量超过限制，仅查询前 "
                               ++ numberToString (Z.of_nat maxServers) ++ utf16 " 个")) ;;;
         Ret (firstn maxServers serversToQuery)
       else Ret serversToQuery) ;;
    csssQuery config options serversToQuery
  end end end.

(** The armed timers are those the variable [scheduleTimer] accounts for. *)
Definition TimerTracked (s : Scheduler) : Prop :=
  armed s = ∅
  \/ exists handle intervalMs,
       scheduleTimer s = Some handle /\ armed s = {[handle := intervalMs]}.

(** The variable is set exactly when a timer is armed. *)
Definition TimerExact (s : Scheduler) : Prop :=
  (scheduleTimer s = None /\ armed s = ∅)
  \/ exists handle intervalMs,
       scheduleTimer s = Some handle /\ armed s = {[handle := intervalMs]}.

(* ===================================================================== *)
(** ** Sample data                                                        *)
(* ===================================================================== *)

Definition sampleConfig : Config :=
  {| timeout := 5000; cacheTime := 30000; maxPlayers := 20; retryCount := 2;
     generateImage := true;
     serverList := [utf16 "edgebug.cn:27015"; utf16 "edgebug.cn:27016"];
     scheduleEnabled := true; scheduleInterval := 5;
     scheduleStartTime := utf16 "08:00"; scheduleEndTime := utf16 "23:00";
     scheduleGroups := [utf16 "123456"; utf16 "654321"];
     scheduleUseImage := true |}.


Definition samplePlayers : list Player :=
  [mkPlayer (Some (utf16 "bob")); mkPlayer (Some (utf16 "^1Alice"));
   mkPlayer None].

(** A server whose cleaned name is 33 code units long. *)
Definition sampleResult : QueryResult :=
  {| name := Some (utf16 "Counter-Strike 2 Community Server");
     players := Some samplePlayers; maxplayers := Some 10 |}.

Definition sampleData : Data := {| game := utf16 "csgo"; result := sampleResult |}.

Definition timedOut : JsError := newError (utf16 "Failed all 1 attempts").

(** A world at time 100000 in which two attempts time out after 5 s each
    and the third answers in 40 ms. *)
Definition failTwiceThenAnswer : Script :=
  {| s_time := 100000;
     s_answers := [(Thrown timedOut, 5000); (Thrown timedOut, 5000);
                   (Normal sampleResult, 40)] |}.


(** A world at time 100000 in which every attempt times out. *)
Definition alwaysTimeOut : Script := {| s_time := 100000; s_answers := [] |}.

Definition emptyStore (w : Script) : @Store scriptWorld :=
  {| cache := ∅; world := w; trace := [] |}.

(** A store holding an entry for [edgebug.cn:27015] stamped [t]. *)
Definition cachedStore (t : Z) (w : Script) : @Store scriptWorld :=
  {| cache := {[ cacheKey (utf16 "edgebug.cn") 27015
                 := {| timestamp := t; data := sampleData |} ]};
     world := w; trace := [] |}.


(** A host whose state is the local hour and minute and whose
    collaborators all succeed. *)
Definition sampleAnswer {X} (e : CEff X) (hm : Z * Z) : X * (Z * Z) :=
  match e in CEff X return X * (Z * Z) with
  | LocalTime => (hm, hm)
  | Now => (0, hm)
  | LocaleTimeString => (utf16 "2025/1/1 08:00:00", hm)
  | QueryBatch servers =>
    (imap (fun i srv => Fulfilled {| index := Z.of_nat i + 1; server := srv;
                                     outcome := Succeeded sampleData |}) servers,
     hm)
  | QueryOne _ _ => (Normal sampleData, hm)
  | GenerateBatchImage _ _ _ => (Normal [], hm)
  | GenerateServerImage _ _ _ => (Normal [], hm)
  | Broadcast _ _ => (Normal tt, hm)
  | SessionSend _ => (tt, hm)
  | ConsoleError _ _ => (tt, hm)
  | CacheSize => (0, hm)
  | CacheClear => (tt, hm)
  end.

#[export] Instance sampleHost : Host :=
  {| HostState := Z * Z; answer := @sampleAnswer |}.

(** A single-server text for examples: the name of the server. *)
#[export] Instance nameOnly : ServerInfoText :=
  {| formatServerInfo := fun d => serverName (result d) |}.


(** Twenty-five players. *)
Definition fullServer : list Player :=
  repeat (mkPlayer (Some (utf16 "^2Bot"))) 25.

(** Settle comparisons of code units that the context decides. *)
Ltac eval_ch :=
  repeat match goal with
  | |- context [ch ?a] =>
    let v := eval vm_compute in (ch a) in change (ch a) with v
  | H : context [ch ?a] |- _ =>
    let v := eval vm_compute in (ch a) in change (ch a) with v in H
  end.

Ltac decide_units :=
  eval_ch;
  repeat match goal with
  | |- context [(?a <=? ?b)%N] =>
    first [ replace (a <=? b)%N with true by (symmetry; apply N.leb_le; lia)
          | replace (a <=? b)%N with false by (symmetry; apply N.leb_gt; lia) ]
  | |- context [(?a =? ?b)%N] =>
    first [ replace (a =? b)%N with true by (symmetry; apply N.eqb_eq; lia)
          | replace (a =? b)%N with false by (symmetry; apply N.eqb_neq; lia) ]
  end.

(* ===================================================================== *)
(** ** More sample data                                                   *)
(* ===================================================================== *)

(** The sample configuration with the cache switched off. *)
Definition noCacheConfig : Config :=
  {| timeout := 5000; cacheTime := 0; maxPlayers := 20; retryCount := 2;
     generateImage := true;
     serverList := [utf16 "edgebug.cn:27015"; utf16 "edgebug.cn:27016"];
     scheduleEnabled := true; scheduleInterval := 5;
     scheduleStartTime := utf16 "08:00"; scheduleEndTime := utf16 "23:00";
     scheduleGroups := [utf16 "123456"; utf16 "654321"];
     scheduleUseImage := true |}.

(** A batch that names the same server twice. *)
Definition twiceTheSame : list jsstring :=
  [utf16 "edgebug.cn:27015"; utf16 "edgebug.cn:27015"].

(* ===================================================================== *)
(** ** Ping labels and the height of the single-server image             *)
(* ===================================================================== *)

(** The entries of [COLORS] that the functions below return. *)
Module COLORS.
Definition pingGreen : jsstring := utf16 "#4CAF50".
Definition pingYellow : jsstring := utf16 "#FFC107".
Definition pingOrange : jsstring := utf16 "#FF9800".
Definition pingRed : jsstring := utf16 "#c03f36".
Definition playerOnline : jsstring := utf16 "#4CAF50".
Definition playerOffline : jsstring := utf16 "#c03f36".
End COLORS.

(** [utils.formatPing], for a ping that is a whole number of
    milliseconds; [!ping] holds of 0. *)
Definition formatPing (ping : Z) : jsstring :=
  if (ping =? 0) || (ping <? 0) then utf16 "未知"
  else if ping <? 50 then utf16 "🟢 " ++ numberToString ping ++ utf16 "ms"
  else if ping <? 100 then utf16 "🟡 " ++ numberToString ping ++ utf16 "ms"
  else if ping <? 200 then utf16 "🟠 " ++ numberToString ping ++ utf16 "ms"
  else utf16 "🔴 " ++ numberToString ping ++ utf16 "ms".

(** [utils.getPingColor] *)
Definition getPingColor (ping : Z) : jsstring :=
  if ping <? 50 then COLORS.pingGreen
  else if ping <? 100 then COLORS.pingYellow
  else if ping <? 200 then COLORS.pingOrange
  else COLORS.pingRed.

(** [utils.getPlayerColor] *)
Definition getPlayerColor (count : Z) : jsstring :=
  if 0 <? count then COLORS.playerOnline else COLORS.playerOffline.

(** The object [imageUtils.calculatePlayerListParams] returns.  The
    multiplier is one of the literals 1.2 and 0.9, kept in tenths. *)
Record PlayerListParams : Type := mkPlayerListParams {
  shouldEnlarge : bool;
  fontSizeMultiplierTenths : Z;
  rowHeight : Z;
  nameMaxLength : Z;
  needTwoColumns : bool
}.

Definition calculatePlayerListParams (playerCount : Z) : PlayerListParams :=
  let shouldEnlarge := (0 <? playerCount) && (playerCount <? 10) in
  {| shouldEnlarge := shouldEnlarge;
     fontSizeMultiplierTenths := if shouldEnlarge then 12 else 9;
     rowHeight := if shouldEnlarge then 40 else 30;
     nameMaxLength := if shouldEnlarge then 40 else 30;
     needTwoColumns := 10 <? playerCount |}.

(** The options that only the image functions read, and the two fields of
    the query result that [calculateImageHeight] tests for presence
    ([result.password !== undefined], [result.raw?.secure !== undefined]). *)
Record ImageOptions : Type := mkImageOptions {
  showVAC : bool;
  showPassword : bool;
  imageHeight : Z
}.

Record ResultFlags : Type := mkResultFlags {
  password : option bool;
  secure : option bool
}.

(** [Math.ceil(n / 2)] for an integer [n] *)
Definition ceilHalf (n : Z) : Z := (n + 1) / 2.

(** The value of [baseHeight] at the end of [calculateImageHeight]. *)
Definition contentHeight (config : Config) (image : ImageOptions)
    (d : Data) (flags : ResultFlags) : Z :=
  let playerCount := orZero (Z.of_nat <$> (List.length <$> players (result d))) in
  let playerParams := calculatePlayerListParams playerCount in
  let baseHeight := 280 in
  let baseHeight :=
    if playerCount =? 0 then baseHeight + 60
    else
      let baseHeight := baseHeight + 90 in
      let baseHeight :=
        if needTwoColumns playerParams then
          let rows := ceilHalf (Z.min playerCount (maxPlayers config)) in
          baseHeight + rows * rowHeight playerParams
        else
          let rows := Z.min playerCount (maxPlayers config) in
          baseHeight + rows * rowHeight playerParams in
      if maxPlayers config <? playerCount then baseHeight + 40 else baseHeight in
  let baseHeight :=
    if showPassword image && bool_decide (password flags <> None)
    then baseHeight + 35 else baseHeight in
  if showVAC image && bool_decide (secure flags <> None)
  then baseHeight + 35 else baseHeight.

(** [calculateImageHeight] *)
Definition calculateImageHeight (config : Config) (image : ImageOptions)
    (d : Data) (flags : ResultFlags) : Z :=
  let height := Z.max (contentHeight config image d flags) (imageHeight image) in
  Z.min height 2500.

Definition sampleImageOptions : ImageOptions :=
  {| showVAC := true; showPassword := true; imageHeight := 500 |}.

Definition sampleFlags : ResultFlags :=
  {| password := Some false; secure := Some true |}.

(* ===================================================================== *)
(** ** What the calls of a handler carry                                  *)
(* ===================================================================== *)

(** The content of a broadcast, the label of an error line, and the text
    of a message sent to the session. *)
Definition contentOf (c : Call) : option (option Content) :=
  match call_effect c with
  | Broadcast _ content => Some content
  | _ => None
  end.

Definition errorLogOf (c : Call) : option jsstring :=
  match call_effect c with
  | ConsoleError what _ => Some what
  | _ => None
  end.

Definition sentOf (c : Call) : option jsstring :=
  match call_effect c with
  | SessionSend msg => Some msg
  | _ => None
  end.

(** The calls of one turn of the delivery loop for a group: the broadcast,
    and the error line when it failed. *)
Definition deliveryCall (groupId : jsstring) (content : option Content) : Call :=
  mkCall _ (Broadcast [utf16 "onebot:" ++ groupId] content).

Definition deliveryFailureCall (groupId : jsstring) (error : JsError) : Call :=
  mkCall _ (ConsoleError (utf16 "定时任务发送消息到群组 " ++ groupId ++ utf16 " 失败:")
                         error).

(** The calls of the delivery loop over a list of groups, from one state
    of the host to another: a broadcast that is delivered stands alone, a
    broadcast that the host answers with an error is followed by the error
    line for its group with that error. *)
Inductive Deliveries `{Host} (content : option Content)
  : list jsstring -> HostState -> list Call -> HostState -> Prop :=
| deliveries_done h : Deliveries content [] h [] h
| deliveries_sent groupId rest h h1 calls h' :
    answer (Broadcast [utf16 "onebot:" ++ groupId] content) h = (Normal tt, h1) ->
    Deliveries content rest h1 calls h' ->
    Deliveries content (groupId :: rest) h (deliveryCall groupId content :: calls) h'
| deliveries_failed groupId rest h h1 error u h2 calls h' :
    answer (Broadcast [utf16 "onebot:" ++ groupId] content) h = (Thrown error, h1) ->
    answer (ConsoleError (utf16 "定时任务发送消息到群组 " ++ groupId ++ utf16 " 失败:")
                         error) h1 = (u, h2) ->
    Deliveries content rest h2 calls h' ->
    Deliveries content (groupId :: rest) h
      (deliveryCall groupId content :: deliveryFailureCall groupId error :: calls) h'.

(* ===================================================================== *)
(** ** The command [cs.schedule]                                          *)
(* ===================================================================== *)

(** [array.includes(x)] and [array.indexOf(x)] on an array of strings;
    [None] is [-1]. *)
Definition arrayIncludes (x : jsstring) (l : list jsstring) : bool :=
  existsb (fun y => bool_decide (y = x)) l.

Fixpoint indexOf (x : jsstring) (l : list jsstring) : option nat :=
  match l with
  | [] => None
  | y :: r => if bool_decide (y = x) then Some O else S <$> indexOf x r
  end.

(** The branches [if (options.addGroup)] and [if (options.removeGroup)]:
    the reply and [config.scheduleGroups] after it. *)
Definition addGroup (groupId : jsstring) (groups : list jsstring)
  : jsstring * list jsstring :=
  if negb (arrayIncludes groupId groups) then
    (utf16 "✅ 已添加群组 " ++ groupId ++ utf16 " 到定时任务", groups ++ [groupId])
  else (utf16 "❌ 群组 " ++ groupId ++ utf16 " 已在列表中", groups).

Definition removeGroup (groupId : jsstring) (groups : list jsstring)
  : jsstring * list jsstring :=
  match indexOf groupId groups with
  | Some index0 =>
    (utf16 "✅ 已从定时任务移除群组 " ++ groupId, removeAt index0 groups)
  | None => (utf16 "❌ 群组 " ++ groupId ++ utf16 " 不在列表中", groups)
  end.

Definition withGroups (groups : list jsstring) (config : Config) : Config :=
  {| timeout := timeout config; cacheTime := cacheTime config;
     maxPlayers := maxPlayers config; retryCount := retryCount config;
     generateImage := generateImage config; serverList := serverList config;
     scheduleEnabled := scheduleEnabled config;
     scheduleInterval := scheduleInterval config;
     scheduleStartTime := scheduleStartTime config;
     scheduleEndTime := scheduleEndTime config;
     scheduleGroups := groups;
     scheduleUseImage := scheduleUseImage config |}.

Record ScheduleOptions : Type := mkScheduleOptions {
  so_status : bool;
  so_start : bool;
  so_stop : bool;
  so_test : bool;
  so_addGroup : option jsstring;
  so_removeGroup : option jsstring;
  so_listGroups : bool;
  so_run : bool
}.

Definition scheduleStatus (config : Config) (s : Scheduler) : jsstring :=
  let status := if scheduleEnabled config then utf16 "✅ 已启用" else utf16 "❌ 已禁用" in
  let nextRun := match scheduleTimer s with
                 | Some _ => utf16 "运行中"
                 | None => utf16 "未运行"
                 end in
  let groups := Z.of_nat (List.length (scheduleGroups config)) in
  utf16 "📅 定时任务状态" ++ [10%N]
  ++ utf16 "状态: " ++ status ++ [10%N]
  ++ utf16 "定时器: " ++ nextRun ++ [10%N]
  ++ utf16 "间隔: " ++ numberToString (scheduleInterval config) ++ utf16 "分钟" ++ [10%N]
  ++ utf16 "时间范围: " ++ scheduleStartTime config ++ utf16 " - "
  ++ scheduleEndTime config ++ [10%N]
  ++ utf16 "输出格式: "
  ++ (if scheduleUseImage config then utf16 "图片" else utf16 "文本") ++ [10%N]
  ++ utf16 "监控服务器: "
  ++ numberToString (Z.of_nat (List.length (serverList config))) ++ utf16 "个" ++ [10%N]
  ++ utf16 "目标群组: " ++ numberToString groups ++ utf16 "个" ++ [10%N; 10%N]
  ++ utf16 "使用 cs.schedule -h 查看所有命令选项".

Definition scheduleGroupList (groups : list jsstring) : jsstring :=
  match groups with
  | [] =>
    utf16 "📋 定时任务群组列表为空" ++ [10%N]
    ++ utf16 "使用 cs.schedule -a <群组ID> 添加群组"
  | _ =>
    utf16 "📋 定时任务群组列表:" ++ [10%N]
    ++ concat (imap (fun index0 groupId =>
                       numberToString (Z.of_nat index0 + 1) ++ utf16 ". "
                       ++ groupId ++ [10%N]) groups)
  end.

Definition scheduleHelp : jsstring :=
  utf16 "📅 定时任务管理命令" ++ [10%N; 10%N]
  ++ utf16 "选项:" ++ [10%N]
  ++ utf16 "-s, -status      查看定时任务状态" ++ [10%N]
  ++ utf16 "-S, -start       启动定时任务" ++ [10%N]
  ++ utf16 "-T, -stop        停止定时任务" ++ [10%N]
  ++ utf16 "-t, -test        测试定时任务" ++ [10%N]
  ++ utf16 "-R, -run         立即执行一次定时任务" ++ [10%N]
  ++ utf16 "-a, -addGroup    添加群组到定时任务" ++ [10%N]
  ++ utf16 "-r, -removeGroup 从定时任务移除群组" ++ [10%N]
  ++ utf16 "-l, -listGroups  列出定时任务群组" ++ [10%N; 10%N]
  ++ utf16 "示例:" ++ [10%N]
  ++ utf16 "cs.schedule -s          # 查看状态" ++ [10%N]
  ++ utf16 "cs.schedule -S          # 启动定时任务" ++ [10%N]
  ++ utf16 "cs.schedule -a 123456   # 添加群组123456" ++ [10%N]
  ++ utf16 "cs.schedule -t          # 测试执行".

(** The action of [cs.schedule]: the reply, the configuration and the
    scheduler as the action leaves them.  An option of type string is
    tested for truth, so the empty string counts as not given.  The task
    that [startScheduleTask] launches is not awaited; the scheduler counts
    it. *)
Definition scheduleAction `{NumberFormat} (config : Config) (s : Scheduler)
    (options : ScheduleOptions) : Async CEff (jsstring * Config * Scheduler) :=
  if so_status options then Ret (scheduleStatus config s, config, s)
  else if so_start options then
    let config := withEnabled true config in
    Ret (utf16 "✅ 定时任务已启动", config, startScheduleTask config s)
  else if so_stop options then
    Ret (utf16 "✅ 定时任务已停止", withEnabled false config, stopScheduleTask s)
  else if so_test options then
    executeScheduleTask config ;;;
    Ret (utf16 "✅ 定时任务测试执行完成", config, s)
  else if so_run options then
    executeScheduleTask config ;;;
    Ret (utf16 "✅ 已立即执行一次定时任务", config, s)
  else
  match so_addGroup options with
  | Some (c :: r) =>
    let '(reply, groups) := addGroup (c :: r) (scheduleGroups config) in
    Ret (reply, withGroups groups config, s)
  | _ =>
  match so_removeGroup options with
  | Some (c :: r) =>
    let '(reply, groups) := removeGroup (c :: r) (scheduleGroups config) in
    Ret (reply, withGroups groups config, s)
  | _ =>
  if so_listGroups options then
    Ret (scheduleGroupList (scheduleGroups config), config, s)
  else Ret (scheduleHelp, config, s)
  end end.

Definition noScheduleOptions : ScheduleOptions :=
  {| so_status := false; so_start := false; so_stop := false; so_test := false;
     so_addGroup := None; so_removeGroup := None; so_listGroups := false;
     so_run := false |}.

(** A host without a working canvas and without a reachable chat: drawing
    and delivery fail, everything else answers as [sampleHost] does. *)
Definition offlineAnswer {X} (e : CEff X) (hm : Z * Z) : X * (Z * Z) :=
  match e in CEff X return X * (Z * Z) with
  | GenerateBatchImage _ _ _ => (Thrown (newError (utf16 "canvas is not available")), hm)
  | GenerateServerImage _ _ _ => (Thrown (newError (utf16 "canvas is not available")), hm)
  | Broadcast _ _ => (Thrown (newError (utf16 "bot is offline")), hm)
  | e => sampleAnswer e hm
  end.

Definition offlineHost : Host :=
  {| HostState := Z * Z; answer := @offlineAnswer |}.

Definition overnightConfig : Config :=
  {| timeout := 5000; cacheTime := 30000; maxPlayers := 20; retryCount := 2;
     generateImage := true; serverList := [utf16 "edgebug.cn:27015"];
     scheduleEnabled := true; scheduleInterval := 5;
     scheduleStartTime := utf16 "22:00"; scheduleEndTime := utf16 "06:00";
     scheduleGroups := [utf16 "123456"]; scheduleUseImage := false |}.

Definition twelveServers : list jsstring :=
  List.map (fun n => utf16 "edgebug.cn:" ++ numberToString n)
    [27015; 27016; 27017; 27018; 27019; 27020; 27021; 27022; 27023; 27024;
     27025; 27026].

(** A configuration whose start time lacks the colon. *)
Definition colonlessConfig : Config :=
  {| timeout := 5000; cacheTime := 30000; maxPlayers := 20; retryCount := 2;
     generateImage := true; serverList := [utf16 "edgebug.cn:27015"];
     scheduleEnabled := true; scheduleInterval := 5;
     scheduleStartTime := utf16 "8"; scheduleEndTime := utf16 "23:00";
     scheduleGroups := [utf16 "123456"]; scheduleUseImage := false |}.

Definition withServers (servers : list jsstring) (config : Config) : Config :=
  {| timeout := timeout config; cacheTime := cacheTime config;
     maxPlayers := maxPlayers config; retryCount := retryCount config;
     generateImage := generateImage config; serverList := servers;
     scheduleEnabled := scheduleEnabled config;
     scheduleInterval := scheduleInterval config;
     scheduleStartTime := scheduleStartTime config;
     scheduleEndTime := scheduleEndTime config;
     scheduleGroups := scheduleGroups config;
     scheduleUseImage := scheduleUseImage config |}.

(** The servers a [csss] without list options asks for, before the limit:
    the addresses of the command line, or the configured list when none is
    given. *)
Definition requestedServers (config : Config) (addresses : list jsstring)
  : list jsstring :=
  match addresses with
  | _ :: _ => addresses
  | [] => serverList config
  end.

Definition noCsssOptions : CsssOptions :=
  {| csss_list := false; csss_add := None; csss_remove := None;
     csss_clear := false; csss_image := false; csss_text := false |}.

Definition noCsOptions : CsOptions :=
  {| cs_noPlayers := false; cs_image := false; cs_text := false;
     cs_clear := false |}.


(* ===================================================================== *)
(** ** Properties of the string primitives                                *)
(* ===================================================================== *)

Lemma split_length sep s : List.length (split sep s) = S (occurrences sep s).
Proof.
  induction s as [|c r IH]; [reflexivity|]. cbn.
  destruct (c =? sep)%N; cbn; [now rewrite IH|].
  destruct (split sep r) as [|p ps]; cbn in *; lia.
Qed.

Lemma split_none sep s : occurrences sep s = O -> split sep s = [s].
Proof.
  induction s as [|c r IH]; [reflexivity|]. cbn.
  destruct (c =? sep)%N; [discriminate|]. intros Hr. now rewrite (IH Hr).
Qed.

Lemma split_app sep h r :
  occurrences sep h = O -> split sep (h ++ sep :: r) = h :: split sep r.
Proof.
  induction h as [|c h IH]; cbn.
  - now rewrite N.eqb_refl.
  - destruct (c =? sep)%N; [discriminate|]. intros Hh. now rewrite (IH Hh).
Qed.

Lemma occurrences_app c s t :
  occurrences c (s ++ t) = (occurrences c s + occurrences c t)%nat.
Proof.
  induction s as [|x s IH]; [reflexivity|]. cbn.
  destruct (x =? c)%N; cbn; now rewrite IH.
Qed.

Lemma includes_app c s t : includes c (s ++ t) = includes c s || includes c t.
Proof. unfold includes. apply existsb_app. Qed.

Lemma startsWith_app p s : startsWith p s = true -> s = p ++ skipn (List.length p) s.
Proof.
  revert s. induction p as [|a p IH]; intros s; [reflexivity|].
  destruct s as [|b s]; cbn; [discriminate|].
  destruct (N.eqb_spec a b) as [->|]; [|discriminate]. cbn.
  intros Hp. now rewrite <- (IH s Hp).
Qed.

Lemma digits_no c ds :
  isDigit c = false -> forallb isDigit ds = true -> occurrences c ds = O.
Proof.
  intros Hc. induction ds as [|d ds IH]; [reflexivity|]. cbn.
  destruct (isDigit d) eqn:Hd; [|discriminate]. cbn. intros Hds.
  destruct (N.eqb_spec d c) as [->|]; [congruence|]. now apply IH.
Qed.

Lemma digits_not_included c ds :
  isDigit c = false -> forallb isDigit ds = true -> includes c ds = false.
Proof.
  intros Hc. induction ds as [|d ds IH]; [reflexivity|]. cbn.
  destruct (isDigit d) eqn:Hd; [|discriminate]. cbn. intros Hds.
  destruct (N.eqb_spec c d) as [->|]; [congruence|]. now apply IH.
Qed.

Lemma takeWhile_all p s : forallb p s = true -> takeWhile p s = s.
Proof.
  induction s as [|c r IH]; [reflexivity|]. cbn.
  destruct (p c); [|discriminate]. cbn. intros Hr. now rewrite (IH Hr).
Qed.

Lemma isDigit_range c : isDigit c = true -> (48 <= c <= 57)%N.
Proof. unfold isDigit. rewrite andb_true_iff, !N.leb_le. tauto. Qed.

Lemma isRadixDigit_10 c : isRadixDigit 10 c = isDigit c.
Proof. unfold isRadixDigit, digitValue. destruct (isDigit c); reflexivity. Qed.

Lemma forallb_isRadixDigit_10 s : forallb (isRadixDigit 10) s = forallb isDigit s.
Proof.
  induction s as [|c r IH]; [reflexivity|]. cbn. now rewrite IH, isRadixDigit_10.
Qed.

(** A numeral made of decimal digits only is read in full, in radix 10. *)
Lemma parseInt_digits ds :
  ds <> [] -> forallb isDigit ds = true -> parseInt ds = Some (digitsValue 10 ds).
Proof.
  intros Hne Hds. destruct ds as [|d ds]; [congruence|].
  assert (Htake : takeWhile (isRadixDigit 10) (d :: ds) = d :: ds)
    by (apply takeWhile_all; now rewrite forallb_isRadixDigit_10).
  cbn in Hds. destruct (isDigit d) eqn:Hd; [|discriminate]. cbn in Hds.
  pose proof (isDigit_range _ Hd) as Hr.
  unfold parseInt, trimStart. cbn [dropWhile].
  replace (isWhiteSpace d) with false by (unfold isWhiteSpace; now decide_units).
  replace (d =? ch "-")%N with false by now decide_units.
  replace (d =? ch "+")%N with false by now decide_units.
  destruct ds as [|x r].
  - rewrite Htake. f_equal. lia.
  - cbn in Hds. destruct (isDigit x) eqn:Hx; [|discriminate].
    pose proof (isDigit_range _ Hx).
    replace (x =? ch "x")%N with false by now decide_units.
    replace (x =? ch "X")%N with false by now decide_units.
    rewrite orb_false_r, andb_false_r. rewrite Htake. f_equal. lia.
Qed.

(** A text that is empty, or begins with something that is neither white
    space nor a sign nor a digit, holds no number. *)
Lemma parseInt_no_number s :
  match s with
  | [] => True
  | c :: _ => isWhiteSpace c = false /\ isDigit c = false
              /\ c <> ch "+" /\ c <> ch "-"
  end ->
  parseInt s = None.
Proof.
  destruct s as [|c r]; [reflexivity|]. intros (Hw & Hd & Hp & Hm).
  unfold parseInt, trimStart. cbn [dropWhile]. rewrite Hw.
  destruct (N.eqb_spec c (ch "-")) as [|_]; [congruence|].
  destruct (N.eqb_spec c (ch "+")) as [|_]; [congruence|].
  assert (H0 : (c =? ch "0")%N = false).
  { destruct (N.eqb_spec c (ch "0")) as [->|]; [discriminate Hd|reflexivity]. }
  destruct r as [|x r]; rewrite ?H0; cbn [andb takeWhile];
    rewrite isRadixDigit_10, Hd; reflexivity.
Qed.


(* ===================================================================== *)
(** ** Properties of parseAddress                                         *)
(* ===================================================================== *)

Lemma startsWith_first_sep sep p1 p2 h r :
  occurrences sep p1 = O -> occurrences sep h = O ->
  startsWith (p1 ++ sep :: p2) (h ++ sep :: r) = true ->
  h = p1 /\ startsWith p2 r = true.
Proof.
  revert h. induction p1 as [|a p1 IH]; intros h Hp Hh.
  - destruct h as [|b h]; cbn.
    + intros Hs. split; [reflexivity|]. now rewrite N.eqb_refl in Hs.
    + cbn in Hh. destruct (N.eqb_spec b sep) as [|Hb]; [discriminate|].
      destruct (N.eqb_spec sep b) as [E|_]; [now symmetry in E|discriminate].
  - cbn in Hp. destruct (N.eqb_spec a sep) as [|Ha]; [discriminate|].
    destruct h as [|b h]; cbn.
    + destruct (N.eqb_spec a sep) as [|_]; [contradiction|discriminate].
    + cbn in Hh. destruct (N.eqb_spec b sep) as [|Hb]; [discriminate|].
      destruct (N.eqb_spec a b) as [->|]; [|discriminate]. cbn.
      intros Hs. destruct (IH h Hp Hh Hs) as [-> Hr]. now split.
Qed.

Lemma startsWith_has_sep sep p1 p2 s :
  startsWith (p1 ++ sep :: p2) s = true -> occurrences sep s <> O.
Proof.
  intros Hs. rewrite (startsWith_app _ _ Hs), !occurrences_app. cbn.
  rewrite N.eqb_refl. lia.
Qed.

(** The four scheme prefixes, cut at their colon. *)
Lemma schemes_cut :
  utf16 "http://" = utf16 "http" ++ ch ":" :: utf16 "//"
  /\ utf16 "https://" = utf16 "https" ++ ch ":" :: utf16 "//"
  /\ utf16 "udp://" = utf16 "udp" ++ ch ":" :: utf16 "//"
  /\ utf16 "tcp://" = utf16 "tcp" ++ ch ":" :: utf16 "//".
Proof. repeat split; reflexivity. Qed.

Lemma stripScheme_no_colon input :
  occurrences (ch ":") input = O -> stripScheme input = input.
Proof.
  intros Hc. unfold stripScheme.
  destruct schemes_cut as (-> & -> & -> & ->).
  repeat match goal with
  | |- context [startsWith ?p input] =>
    let E := fresh "E" in
    destruct (startsWith p input) eqn:E;
      [exfalso; exact (startsWith_has_sep _ _ _ _ E Hc)|]
  end.
  reflexivity.
Qed.

Lemma not_scheme p1 host portText :
  occurrences (ch ":") p1 = O ->
  occurrences (ch ":") host = O ->
  match portText with c :: _ => c <> ch "/" | [] => True end ->
  startsWith (p1 ++ ch ":" :: utf16 "//") (host ++ ch ":" :: portText) = false.
Proof.
  intros Hp1 Hh Hp.
  destruct (startsWith _ _) eqn:E; [exfalso|reflexivity].
  apply startsWith_first_sep in E as [_ E]; [|exact Hp1|exact Hh].
  change (utf16 "//") with [ch "/"; ch "/"] in E.
  destruct portText as [|c r]; [discriminate E|]. cbn in E.
  destruct (N.eqb_spec (ch "/") c) as [<-|]; [now apply Hp|discriminate E].
Qed.

Lemma stripScheme_host_port host portText :
  occurrences (ch ":") host = O ->
  match portText with c :: _ => c <> ch "/" | [] => True end ->
  stripScheme (host ++ ch ":" :: portText) = host ++ ch ":" :: portText.
Proof.
  intros Hh Hp. unfold stripScheme.
  destruct schemes_cut as (-> & -> & -> & ->).
  now rewrite !not_scheme.
Qed.

Lemma parseAddress_unbracketed input :
  includes (ch "[") (stripScheme input) = false ->
  parseAddress input = splitBranch input (stripScheme input).
Proof. unfold parseAddress. now intros ->. Qed.

Lemma splitBranch_many input address :
  (2 <= occurrences (ch ":") address)%nat ->
  splitBranch input address = Thrown (newError (invalidAddressMessage input)).
Proof.
  intros Hc. unfold splitBranch.
  pose proof (split_length (ch ":") address) as Hl.
  destruct (split (ch ":") address) as [|a [|b [|c l]]]; cbn in Hl; try lia.
  reflexivity.
Qed.

Lemma splitBranch_host_port input host portText :
  occurrences (ch ":") host = O -> occurrences (ch ":") portText = O ->
  splitBranch input (host ++ ch ":" :: portText)
  = match parseInt portText with
    | Some port =>
      if portInRange port then Normal (host, port)
      else Thrown (newError (invalidAddressMessage input))
    | None => Thrown (newError (invalidAddressMessage input))
    end.
Proof.
  intros Hh Hp. unfold splitBranch.
  now rewrite (split_app _ _ _ Hh), (split_none _ _ Hp).
Qed.

Lemma digits_first_not c ds x :
  isDigit x = false -> forallb isDigit (c :: ds) = true -> c <> x.
Proof.
  intros Hx Hd <-. cbn in Hd. rewrite Hx in Hd. discriminate.
Qed.

(** What the parser keeps of the address grammar: an input [host:port]
    whose host holds neither a colon nor an opening bracket and whose port
    is a decimal numeral of value 1 to 65535 parses to that host and port;
    an input with neither a colon nor an opening bracket parses to itself
    with port 27015; and an input with no scheme prefix and no opening
    bracket fails, with the message that names it, when it holds more than
    one colon, when its port is a decimal numeral of value 0 or above
    65535, and whenever [parseInt] finds no number in its port text or
    finds one below 1 or above 65535. *)
Theorem parseAddress_spec :
  (forall host ds,
      occurrences (ch ":") host = O -> includes (ch "[") host = false ->
      ds <> [] -> forallb isDigit ds = true ->
      1 <= digitsValue 10 ds <= 65535 ->
      parseAddress (host ++ ch ":" :: ds) = Normal (host, digitsValue 10 ds))
  /\ (forall input,
         occurrences (ch ":") input = O -> includes (ch "[") input = false ->
         parseAddress input = Normal (input, 27015))
  /\ (forall input,
         stripScheme input = input -> includes (ch "[") input = false ->
         (2 <= occurrences (ch ":") input)%nat ->
         parseAddress input = Thrown (newError (invalidAddressMessage input)))
  /\ (forall host ds,
         occurrences (ch ":") host = O -> includes (ch "[") host = false ->
         ds <> [] -> forallb isDigit ds = true ->
         digitsValue 10 ds = 0 \/ 65535 < digitsValue 10 ds ->
         parseAddress (host ++ ch ":" :: ds)
         = Thrown (newError (invalidAddressMessage (host ++ ch ":" :: ds))))
  /\ (forall host portText,
         stripScheme (host ++ ch ":" :: portText) = host ++ ch ":" :: portText ->
         includes (ch "[") (host ++ ch ":" :: portText) = false ->
         occurrences (ch ":") host = O -> occurrences (ch ":") portText = O ->
         parseInt portText = None
         \/ (exists port, parseInt portText = Some port /\ (port < 1 \/ 65535 < port)) ->
         parseAddress (host ++ ch ":" :: portText)
         = Thrown (newError (invalidAddressMessage (host ++ ch ":" :: portText)))).
Proof.
  assert (Hdigits : forall host ds,
    occurrences (ch ":") host = O -> includes (ch "[") host = false ->
    ds <> [] -> forallb isDigit ds = true ->
    parseAddress (host ++ ch ":" :: ds)
    = if portInRange (digitsValue 10 ds) then Normal (host, digitsValue 10 ds)
      else Thrown (newError (invalidAddressMessage (host ++ ch ":" :: ds)))).
  { intros host ds Hh Hb Hne Hds.
    assert (Hs : stripScheme (host ++ ch ":" :: ds) = host ++ ch ":" :: ds).
    { apply stripScheme_host_port; [exact Hh|].
      destruct ds as [|c r]; [exact I|]. now apply (digits_first_not c r). }
    rewrite parseAddress_unbracketed; rewrite Hs.
    - rewrite splitBranch_host_port;
        [|exact Hh|now apply digits_no].
      now rewrite (parseInt_digits _ Hne Hds).
    - rewrite includes_app, Hb. cbn.
      now apply digits_not_included. }
  repeat split.
  - intros host ds Hh Hb Hne Hds Hr. rewrite (Hdigits _ _ Hh Hb Hne Hds).
    unfold portInRange. now replace (1 <=? digitsValue 10 ds) with true by lia;
      replace (digitsValue 10 ds <=? 65535) with true by lia.
  - intros input Hc Hb.
    rewrite parseAddress_unbracketed; rewrite (stripScheme_no_colon _ Hc); [|exact Hb].
    unfold splitBranch. now rewrite (split_none _ _ Hc).
  - intros input Hs Hb Hc.
    rewrite parseAddress_unbracketed; rewrite Hs; [|exact Hb].
    now apply splitBranch_many.
  - intros host ds Hh Hb Hne Hds Hr. rewrite (Hdigits _ _ Hh Hb Hne Hds).
    unfold portInRange. destruct Hr as [-> | Hr]; [reflexivity|].
    replace (digitsValue 10 ds <=? 65535) with false by lia.
    now rewrite andb_false_r.
  - intros host portText Hs Hb Hh Hp Hno.
    rewrite parseAddress_unbracketed; rewrite Hs; [|exact Hb].
    rewrite (splitBranch_host_port _ _ _ Hh Hp).
    destruct Hno as [-> | (port & -> & Hout)]; [reflexivity|].
    unfold portInRange. destruct Hout.
    + now replace (1 <=? port) with false by lia.
    + replace (port <=? 65535) with false by lia. now rewrite andb_false_r.
Qed.

Lemma parseAddress_spec_witness :
  parseAddress (utf16 "edgebug.cn:27016") = Normal (utf16 "edgebug.cn", 27016)
  /\ parseAddress (utf16 "edgebug.cn") = Normal (utf16 "edgebug.cn", 27015)
  /\ parseAddress (utf16 "a:b:c")
     = Thrown (newError (invalidAddressMessage (utf16 "a:b:c")))
  /\ parseAddress (utf16 "edgebug.cn:65536")
     = Thrown (newError (invalidAddressMessage (utf16 "edgebug.cn:65536")))
  /\ parseAddress (utf16 "edgebug.cn:port")
     = Thrown (newError (invalidAddressMessage (utf16 "edgebug.cn:port"))).
Proof.
  destruct parseAddress_spec as (Hvalid & Hbare & Hmany & Hrange & Hnone).
  split; [|split; [|split; [|split]]].
  - apply (Hvalid (utf16 "edgebug.cn") (utf16 "27016"));
      [reflexivity|reflexivity|discriminate|reflexivity|].
    split; vm_compute; discriminate.
  - apply (Hbare (utf16 "edgebug.cn")); reflexivity.
  - apply (Hmany (utf16 "a:b:c")); [reflexivity|reflexivity|].
    vm_compute. apply le_n.
  - apply (Hrange (utf16 "edgebug.cn") (utf16 "65536"));
      [reflexivity|reflexivity|discriminate|reflexivity|].
    right. vm_compute. reflexivity.
  - apply (Hnone (utf16 "edgebug.cn") (utf16 "port"));
      [reflexivity|reflexivity|reflexivity|reflexivity|].
    left. reflexivity.
Defined.

Lemma takeWhile_app_stop p h c r :
  forallb p h = true -> p c = false -> takeWhile p (h ++ c :: r) = h.
Proof.
  intros Hh Hc. induction h as [|x h IH]; cbn in *; [now rewrite Hc|].
  destruct (p x); [|discriminate]. now rewrite IH.
Qed.

(** A numeral of decimal digits followed by anything that does not begin
    with a digit is read as the numeral alone: [parseInt] ignores what
    follows the digits. *)
Lemma parseInt_prefix ds c rest :
  ds <> [] -> forallb isDigit ds = true -> 1 <= digitsValue 10 ds ->
  isDigit c = false ->
  parseInt (ds ++ c :: rest) = Some (digitsValue 10 ds).
Proof.
  intros Hne Hds Hv Hc. destruct ds as [|d ds]; [congruence|].
  assert (Htake : takeWhile (isRadixDigit 10) ((d :: ds) ++ c :: rest) = d :: ds).
  { apply takeWhile_app_stop; [now rewrite forallb_isRadixDigit_10|].
    now rewrite isRadixDigit_10. }
  cbn in Hds. destruct (isDigit d) eqn:Hd; [|discriminate]. cbn in Hds.
  pose proof (isDigit_range _ Hd) as Hr.
  unfold parseInt, trimStart. cbn [dropWhile app].
  replace (isWhiteSpace d) with false by (unfold isWhiteSpace; now decide_units).
  replace (d =? ch "-")%N with false by now decide_units.
  replace (d =? ch "+")%N with false by now decide_units.
  destruct ds as [|x r].
  - assert (H0 : (d =? ch "0")%N = false).
    { destruct (N.eqb_spec d (ch "0")) as [->|]; [|reflexivity].
      exfalso. revert Hv. vm_compute. congruence. }
    cbn [app]. rewrite H0. cbn [andb]. cbn [app] in Htake. rewrite Htake. f_equal. lia.
  - cbn in Hds. destruct (isDigit x) eqn:Hx; [|discriminate].
    pose proof (isDigit_range _ Hx).
    cbn [app].
    replace (x =? ch "x")%N with false by now decide_units.
    replace (x =? ch "X")%N with false by now decide_units.
    rewrite orb_false_r, andb_false_r. cbn [app] in Htake. rewrite Htake. f_equal. lia.
Qed.

(** C1: the parser does not reject every non-numeric port.  After
    [host:], a port text that begins with a decimal numeral of value 1 to
    65535 and goes on with anything else (no colon, no opening bracket) is
    accepted, with the numeral as port: [parseInt] reads the leading digits
    and the guard [!isNaN(port)] only catches a text without any, although
    the bracketed form asks for digits up to the end ([\d+$]).  So
    [example.com:12abc] parses to port 12, where the claim has it fail. *)
Theorem parseAddress_port_prefix_accepted :
  (forall host ds c rest,
      occurrences (ch ":") host = O -> includes (ch "[") host = false ->
      ds <> [] -> forallb isDigit ds = true ->
      1 <= digitsValue 10 ds <= 65535 ->
      isDigit c = false -> c <> ch ":" -> c <> ch "[" ->
      occurrences (ch ":") rest = O -> includes (ch "[") rest = false ->
      forallb isDigit (ds ++ c :: rest) = false
      /\ parseAddress (host ++ ch ":" :: ds ++ c :: rest)
         = Normal (host, digitsValue 10 ds))
  /\ parseAddress (utf16 "example.com:12abc") = Normal (utf16 "example.com", 12)
  /\ matchBracketed (utf16 "[example.com]:12abc") = None
  /\ matchBracketed (utf16 "[example.com]:12") = Some (utf16 "example.com", Some (utf16 "12")).
Proof.
  split; [|repeat split; reflexivity].
  intros host ds c rest Hh Hb Hne Hds Hv Hc Hcolon Hbracket Hrest Hrb.
  split.
  - rewrite forallb_app. cbn. rewrite Hc. cbn. apply andb_false_r.
  - assert (Hport : occurrences (ch ":") (ds ++ c :: rest) = O).
    { rewrite occurrences_app, (digits_no (ch ":") ds eq_refl Hds). cbn.
      destruct (N.eqb_spec c (ch ":")); [contradiction|exact Hrest]. }
    assert (Hs : stripScheme (host ++ ch ":" :: ds ++ c :: rest)
                 = host ++ ch ":" :: ds ++ c :: rest).
    { apply stripScheme_host_port; [exact Hh|].
      destruct ds as [|d r]; [congruence|]. cbn [app].
      now apply (digits_first_not d r). }
    rewrite parseAddress_unbracketed; rewrite Hs.
    + rewrite (splitBranch_host_port _ _ _ Hh Hport).
      rewrite (parseInt_prefix ds c rest Hne Hds ltac:(lia) Hc).
      unfold portInRange.
      replace (1 <=? digitsValue 10 ds) with true by lia.
      now replace (digitsValue 10 ds <=? 65535) with true by lia.
    + rewrite includes_app, Hb. cbn [orb includes existsb].
      change (existsb (N.eqb (ch "[")) (ds ++ c :: rest))
        with (includes (ch "[") (ds ++ c :: rest)).
      rewrite includes_app, (digits_not_included (ch "[") ds eq_refl Hds). cbn.
      destruct (N.eqb_spec (ch "[") c) as [E|_]; [now symmetry in E|exact Hrb].
Qed.

Lemma parseAddress_port_prefix_accepted_witness :
  forallb isDigit (utf16 "12" ++ ch "a" :: utf16 "bc") = false
  /\ parseAddress (utf16 "example.com" ++ ch ":" :: utf16 "12" ++ ch "a" :: utf16 "bc")
     = Normal (utf16 "example.com", digitsValue 10 (utf16 "12"))
  /\ utf16 "example.com" ++ ch ":" :: utf16 "12" ++ ch "a" :: utf16 "bc"
     = utf16 "example.com:12abc"
  /\ digitsValue 10 (utf16 "12") = 12.
Proof.
  destruct parseAddress_port_prefix_accepted as [Hgeneral _].
  destruct (Hgeneral (utf16 "example.com") (utf16 "12") (ch "a") (utf16 "bc"))
    as [Hnot Hparse]; try reflexivity; try discriminate;
    [split; vm_compute; discriminate|].
  split; [exact Hnot|]. split; [exact Hparse|]. split; reflexivity.
Defined.

(* ===================================================================== *)
(** ** Properties of queryServer                                          *)
(* ===================================================================== *)

Section QueryServer.
Context `{World}.

(** One iteration of the loop. *)
Lemma run_attemptLoop_step config host port now n i lastError (s : Store) :
  run (attemptLoop config host port now (S n) i lastError) s
  = let o := queryOptions config host port in
    let '(c, w') := gamedig o (world s) in
    let s1 := {| cache := cache s; world := w'; trace := trace s ++ [EvQuery o c] |} in
    match c with
    | Normal res =>
      let d := {| game := utf16 "csgo"; result := res |} in
      (Normal d,
       if 0 <? cacheTime config
       then {| cache := <[cacheKey host port := {| timestamp := now; data := d |}]> (cache s);
               world := w'; trace := trace s ++ [EvQuery o c] |}
       else s1)
    | Thrown e =>
      run (attemptLoop config host port now n (i + 1) (Some e))
          (if i <? retryCount config
           then {| cache := cache s; world := elapse 1000 w';
                   trace := (trace s ++ [EvQuery o c]) ++ [EvDelay 1000] |}
           else s1)
    end.
Proof.
  cbn -[queryOptions Z.ltb].
  destruct (gamedig (queryOptions config host port) (world s)) as [[res|e] w'].
  - destruct (0 <? cacheTime config); reflexivity.
  - destruct (i <? retryCount config); reflexivity.
Qed.

Lemma attemptLoop_shape remaining :
  forall config host port now i lastError (s : Store),
    Z.of_nat (S remaining) = retryCount config + 1 - i ->
    exists errs last,
      let '(out, s') := run (attemptLoop config host port now (S remaining) i lastError) s in
      let o := queryOptions config host port in
      trace s' = trace s ++ failedAttempts o errs ++ [EvQuery o last]
      /\ (List.length errs <= remaining)%nat
      /\ match last with
         | Normal res =>
           let d := {| game := utf16 "csgo"; result := res |} in
           out = Normal d
           /\ cache s' = (if 0 <? cacheTime config
                          then <[cacheKey host port := {| timestamp := now; data := d |}]> (cache s)
                          else cache s)
         | Thrown e =>
           List.length errs = remaining
           /\ out = Thrown (newError (queryFailedMessage (Some e)))
           /\ cache s' = cache s
         end.
Proof.
  induction remaining as [|remaining IH]; intros config host port now i lastError s Hi;
    rewrite run_attemptLoop_step; cbv zeta;
    destruct (gamedig (queryOptions config host port) (world s)) as [[res|e] w'].
  - exists [], (Normal res).
    destruct (0 <? cacheTime config); cbn -[queryOptions]; auto.
  - exists [], (Thrown e).
    replace (i <? retryCount config) with false by lia.
    cbn -[queryOptions]. auto.
  - exists [], (Normal res).
    destruct (0 <? cacheTime config); cbn -[queryOptions];
      (split; [reflexivity|split; [lia|auto]]).
  - replace (i <? retryCount config) with true by lia.
    match goal with |- context [run (attemptLoop _ _ _ _ _ ?i' ?le) ?s1] =>
      destruct (IH config host port now i' le s1) as (errs & last & IH'); [lia|];
      destruct (run (attemptLoop config host port now (S remaining) i' le) s1) as [out s']
    end.
    exists (e :: errs), last.
    cbn -[queryOptions Z.ltb] in *.
    destruct IH' as (Htr & Hlen & Hlast).
    split; [|split; [lia|]].
    + rewrite Htr. rewrite <- !app_assoc. reflexivity.
    + destruct last; intuition lia.
Qed.


Lemma queryServer_hit config host port (s : Store) d :
  cachedData config host port s = Some d ->
  run (queryServer config host port) s = (Normal d, s).
Proof.
  unfold cachedData, queryServer. cbn -[Z.ltb freshEntry attemptLoop].
  destruct (0 <? cacheTime config); [|discriminate].
  cbn -[Z.ltb freshEntry attemptLoop]. intros ->. reflexivity.
Qed.

Lemma queryServer_miss config host port (s : Store) :
  cachedData config host port s = None ->
  run (queryServer config host port) s
  = run (attemptLoop config host port (clock (world s))
           (Z.to_nat (retryCount config + 1)) 0 None) s.
Proof.
  unfold cachedData, queryServer. cbn -[Z.ltb freshEntry attemptLoop].
  destruct (0 <? cacheTime config); cbn -[Z.ltb freshEntry attemptLoop].
  - intros ->. reflexivity.
  - reflexivity.
Qed.

Lemma cachedData_fresh config host port (s : Store) entry :
  0 < cacheTime config ->
  cache s !! cacheKey host port = Some entry ->
  clock (world s) - timestamp entry < cacheTime config ->
  cachedData config host port s = Some (data entry).
Proof.
  intros Hc Hl Hf. unfold cachedData, freshEntry. rewrite Hl.
  replace (0 <? cacheTime config) with true by lia.
  replace (clock (world s) - timestamp entry <? cacheTime config) with true by lia.
  reflexivity.
Qed.

Lemma cachedData_stale config host port (s : Store) :
  (cache s !! cacheKey host port = None
   \/ exists entry, cache s !! cacheKey host port = Some entry
                    /\ cacheTime config <= clock (world s) - timestamp entry) ->
  cachedData config host port s = None.
Proof.
  unfold cachedData, freshEntry. intros [Hl | (entry & Hl & Hs)]; rewrite Hl.
  - destruct (0 <? cacheTime config); reflexivity.
  - replace (clock (world s) - timestamp entry <? cacheTime config) with false by lia.
    destruct (0 <? cacheTime config); reflexivity.
Qed.

(** C3: on a cache miss the external query is attempted at most
    [retryCount + 1] times; every failed attempt but the last is followed by
    one wait of exactly 1000 ms; the first successful attempt ends the call
    with its data; and when all [retryCount + 1] attempts fail the call
    throws the error whose message is the fixed prefix followed by the
    message of the last underlying error. *)
Theorem queryServer_retry config host port (s : Store) :
  0 <= retryCount config ->
  cachedData config host port s = None ->
  exists errs last,
    let '(out, s') := run (queryServer config host port) s in
    let o := queryOptions config host port in
    trace s' = trace s ++ failedAttempts o errs ++ [EvQuery o last]
    /\ Z.of_nat (List.length errs) <= retryCount config
    /\ match last with
       | Normal res => out = Normal {| game := utf16 "csgo"; result := res |}
       | Thrown e =>
         Z.of_nat (List.length errs) = retryCount config
         /\ out = Thrown (newError (utf16 "无法连接到服务器: "
                                     ++ lastErrorMessage (Some e)))
         /\ (forall c m, message e = Some (c :: m) ->
               out = Thrown (newError (utf16 "无法连接到服务器: " ++ c :: m)))
       end.
Proof.
  intros Hr Hmiss. rewrite (queryServer_miss _ _ _ _ Hmiss).
  destruct (Z.to_nat (retryCount config + 1)) as [|remaining] eqn:Hn; [lia|].
  destruct (attemptLoop_shape remaining config host port (clock (world s)) 0 None s)
    as (errs & last & Hshape); [lia|].
  exists errs, last.
  destruct (run _ s) as [out s'].
  destruct Hshape as (Htr & Hlen & Hlast).
  split; [exact Htr|]. split; [lia|].
  destruct last as [res|e].
  - apply Hlast.
  - destruct Hlast as (Hl & Hout & _). split; [lia|]. split; [exact Hout|].
    intros c m Hm. rewrite Hout. unfold queryFailedMessage, lastErrorMessage.
    destruct e as [msg]. cbn in Hm. subst msg. reflexivity.
Qed.

Lemma queryServer_fresh config host port (s : Store) entry :
  0 < cacheTime config ->
  cache s !! cacheKey host port = Some entry ->
  clock (world s) - timestamp entry < cacheTime config ->
  run (queryServer config host port) s = (Normal (data entry), s).
Proof. intros Hc Hl Hf. apply queryServer_hit. now apply cachedData_fresh. Qed.

Lemma queryServer_stale config host port (s : Store) :
  0 < cacheTime config ->
  (cache s !! cacheKey host port = None
   \/ exists entry, cache s !! cacheKey host port = Some entry
                    /\ cacheTime config <= clock (world s) - timestamp entry) ->
  0 <= retryCount config ->
  let '(out, s') := run (queryServer config host port) s in
  (exists answer rest,
      trace s' = trace s ++ EvQuery (queryOptions config host port) answer :: rest)
  /\ forall d, out = Normal d ->
       cache s' !! cacheKey host port
       = Some {| timestamp := clock (world s); data := d |}.
Proof.
  intros Hc Hstale Hr. apply cachedData_stale in Hstale.
  rewrite (queryServer_miss _ _ _ _ Hstale).
  destruct (Z.to_nat (retryCount config + 1)) as [|remaining] eqn:Hn; [lia|].
  destruct (attemptLoop_shape remaining config host port (clock (world s)) 0 None s)
    as (errs & last & Hshape); [lia|].
  destruct (run _ s) as [out s'].
  destruct Hshape as (Htr & Hlen & Hlast). split.
  - destruct errs as [|e errs].
    + exists last, []. exact Htr.
    + exists (Thrown e). eexists. rewrite Htr. cbn. reflexivity.
  - intros d Hd. destruct last as [res|e].
    + destruct Hlast as (Hout & Hcache). rewrite Hout in Hd. inversion Hd; subst d.
      rewrite Hcache. replace (0 <? cacheTime config) with true by lia.
      apply lookup_insert_eq.
    + destruct Hlast as (_ & Hout & _). rewrite Hout in Hd. discriminate.
Qed.




(** C9: the time stored in a cache entry is the one read at the entry of
    the call, whatever the clock shows when the successful attempt returns;
    so, counted from that return, a later call for the same address finds
    the entry fresh only for [cacheTime] minus the time the call spent on
    its attempts and waits. *)
Theorem queryServer_timestamp config host port (s s' : Store) d :
  0 < cacheTime config ->
  0 <= retryCount config ->
  cachedData config host port s = None ->
  run (queryServer config host port) s = (Normal d, s') ->
  cache s' !! cacheKey host port
  = Some {| timestamp := clock (world s); data := d |}
  /\ forall (s2 : Store) delta,
       cache s2 !! cacheKey host port = cache s' !! cacheKey host port ->
       clock (world s2) = clock (world s') + delta ->
       let spent := clock (world s') - clock (world s) in
       (delta < cacheTime config - spent ->
        run (queryServer config host port) s2 = (Normal d, s2))
       /\ (cacheTime config - spent <= delta ->
           exists answer rest,
             trace (run (queryServer config host port) s2).2
             = trace s2 ++ EvQuery (queryOptions config host port) answer :: rest).
Proof.
  intros Hc Hr Hmiss Hrun.
  assert (Hentry : cache s' !! cacheKey host port
                   = Some {| timestamp := clock (world s); data := d |}).
  { pose proof (queryServer_stale config host port s Hc) as Hm.
    assert (Hst : cache s !! cacheKey host port = None
                  \/ exists entry, cache s !! cacheKey host port = Some entry
                       /\ cacheTime config <= clock (world s) - timestamp entry).
    { unfold cachedData, freshEntry in Hmiss.
      replace (0 <? cacheTime config) with true in Hmiss by lia.
      destruct (cache s !! cacheKey host port) as [entry|]; [|now left].
      right. exists entry. split; [reflexivity|].
      destruct (clock (world s) - timestamp entry <? cacheTime config) eqn:E;
        [discriminate|lia]. }
    specialize (Hm Hst Hr). rewrite Hrun in Hm. now apply Hm. }
  split; [exact Hentry|].
  intros s2 delta Hsame Hclock spent. rewrite Hentry in Hsame. split.
  - intros Hd.
    apply (queryServer_fresh config host port s2 _ Hc Hsame). cbn. subst spent. lia.
  - intros Hd.
    pose proof (queryServer_stale config host port s2 Hc) as Hm.
    assert (Hst : cache s2 !! cacheKey host port = None
                  \/ exists entry, cache s2 !! cacheKey host port = Some entry
                       /\ cacheTime config <= clock (world s2) - timestamp entry).
    { right. eexists. split; [exact Hsame|]. cbn. subst spent. lia. }
    specialize (Hm Hst Hr).
    destruct (run (queryServer config host port) s2) as [out2 s2']. apply Hm.
Qed.

End QueryServer.

Lemma queryServer_retry_witness :
  0 <= retryCount sampleConfig
  /\ cachedData sampleConfig (utf16 "edgebug.cn") 27015 (emptyStore alwaysTimeOut) = None
  /\ exists errs last,
       let '(out, s') := run (queryServer sampleConfig (utf16 "edgebug.cn") 27015)
                             (emptyStore alwaysTimeOut) in
       let o := queryOptions sampleConfig (utf16 "edgebug.cn") 27015 in
       trace s' = trace (emptyStore alwaysTimeOut) ++ failedAttempts o errs
                  ++ [EvQuery o last]
       /\ Z.of_nat (List.length errs) <= retryCount sampleConfig
       /\ match last with
          | Normal res => out = Normal {| game := utf16 "csgo"; result := res |}
          | Thrown e =>
            Z.of_nat (List.length errs) = retryCount sampleConfig
            /\ out = Thrown (newError (utf16 "无法连接到服务器: "
                                        ++ lastErrorMessage (Some e)))
            /\ (forall c m, message e = Some (c :: m) ->
                  out = Thrown (newError (utf16 "无法连接到服务器: " ++ c :: m)))
          end.
Proof.
  split; [vm_compute; discriminate|]. split; [reflexivity|].
  apply (queryServer_retry sampleConfig (utf16 "edgebug.cn") 27015
           (emptyStore alwaysTimeOut)).
  - vm_compute. discriminate.
  - reflexivity.
Defined.


Lemma queryServer_timestamp_witness :
  let s := emptyStore failTwiceThenAnswer in
  let s' := (run (queryServer sampleConfig (utf16 "edgebug.cn") 27015) s).2 in
  let d := {| game := utf16 "csgo"; result := sampleResult |} in
  0 < cacheTime sampleConfig
  /\ 0 <= retryCount sampleConfig
  /\ cachedData sampleConfig (utf16 "edgebug.cn") 27015 s = None
  /\ run (queryServer sampleConfig (utf16 "edgebug.cn") 27015) s = (Normal d, s')
  /\ clock (world s) = 100000 /\ clock (world s') = 112040
  /\ cache s' !! cacheKey (utf16 "edgebug.cn") 27015
     = Some {| timestamp := 100000; data := d |}
  /\ forall (s2 : @Store scriptWorld) delta,
       cache s2 !! cacheKey (utf16 "edgebug.cn") 27015
       = cache s' !! cacheKey (utf16 "edgebug.cn") 27015 ->
       clock (world s2) = clock (world s') + delta ->
       (delta < 30000 - 12040 ->
        run (queryServer sampleConfig (utf16 "edgebug.cn") 27015) s2 = (Normal d, s2))
       /\ (30000 - 12040 <= delta ->
           exists answer rest,
             trace (run (queryServer sampleConfig (utf16 "edgebug.cn") 27015) s2).2
             = trace s2 ++ EvQuery (queryOptions sampleConfig (utf16 "edgebug.cn") 27015)
                                   answer :: rest).
Proof.
  intros s s' d.
  assert (Hrun : run (queryServer sampleConfig (utf16 "edgebug.cn") 27015) s
                 = (Normal d, s')) by (vm_compute; reflexivity).
  destruct (queryServer_timestamp sampleConfig (utf16 "edgebug.cn") 27015 s s' d)
    as [Hentry Hlater];
    [reflexivity|vm_compute; discriminate|reflexivity|exact Hrun|].
  split; [reflexivity|]. split; [vm_compute; discriminate|]. split; [reflexivity|].
  split; [exact Hrun|]. split; [reflexivity|]. split; [reflexivity|].
  split; [exact Hentry|exact Hlater].
Defined.

(* ===================================================================== *)
(** ** Properties of the batch fan-out                                    *)
(* ===================================================================== *)

Lemma AwaitsWithin_mono {A} (p : Async QEff A) n m :
  (n <= m)%nat -> AwaitsWithin n p -> AwaitsWithin m p.
Proof.
  revert n m. induction p as [| |X e k IH]; cbn; auto.
  intros n m Hnm. destruct (awaited e).
  - destruct n as [|n]; [tauto|]. destruct m as [|m]; [lia|].
    intros Hk x. apply (IH x n m); [lia|auto].
  - intros Hk x. apply (IH x n m); auto.
Qed.

Lemma AwaitsWithin_bind {A B} (p : Async QEff A) (f : A -> Async QEff B) n m :
  AwaitsWithin n p -> (forall a, AwaitsWithin m (f a)) ->
  AwaitsWithin (n + m) (bind p f).
Proof.
  revert n. induction p as [a|e|X e k IH]; cbn; intros n Hp Hf.
  - apply (AwaitsWithin_mono _ m); [lia|auto].
  - exact I.
  - destruct (awaited e).
    + destruct n as [|n]; [tauto|]. cbn. intros x. now apply IH.
    + intros x. now apply IH.
Qed.

Lemma AwaitsWithin_tryCatch {A} (body : Async QEff A) handler n m :
  AwaitsWithin n body -> (forall e, AwaitsWithin m (handler e)) ->
  AwaitsWithin (n + m) (tryCatch body handler).
Proof.
  revert n. induction body as [a|e|X e k IH]; cbn; intros n Hp Hf.
  - exact I.
  - apply (AwaitsWithin_mono _ m); [lia|auto].
  - destruct (awaited e).
    + destruct n as [|n]; [tauto|]. cbn. intros x. now apply IH.
    + intros x. now apply IH.
Qed.

Lemma attemptLoop_awaits config host port now remaining :
  forall i lastError,
    AwaitsWithin (2 * remaining) (attemptLoop config host port now remaining i lastError).
Proof.
  induction remaining as [|n IH]; intros i lastError; [exact I|].
  replace (2 * S n)%nat with (S (S (2 * n))) by lia.
  cbn -[Nat.mul]. intros [res|e]; cbn -[Nat.mul].
  - destruct (0 <? cacheTime config); cbn; auto.
  - destruct (i <? retryCount config); cbn -[Nat.mul].
    + intros _. apply IH.
    + apply (AwaitsWithin_mono _ (2 * n)); [lia|apply IH].
Qed.

Lemma queryServer_awaits config host port :
  AwaitsWithin (2 * Z.to_nat (retryCount config + 1)) (queryServer config host port).
Proof.
  unfold queryServer. cbn -[Nat.mul attemptLoop Z.ltb freshEntry]. intros now.
  destruct (0 <? cacheTime config); cbn -[Nat.mul attemptLoop Z.ltb freshEntry].
  - intros cached. destruct (freshEntry config now cached); [exact I|].
    apply attemptLoop_awaits.
  - apply attemptLoop_awaits.
Qed.

Lemma queryTask_awaits config i srv :
  AwaitsWithin (2 * Z.to_nat (retryCount config + 1)) (queryTask config i srv).
Proof.
  unfold queryTask.
  rewrite <- (Nat.add_0_r (2 * _)). apply AwaitsWithin_tryCatch; [|intros; exact I].
  destruct (parseAddress srv) as [hp|e]; cbn -[Nat.mul queryServer]; [|exact I].
  rewrite <- (Nat.add_0_r (2 * _)). apply AwaitsWithin_bind; [|intros; exact I].
  apply queryServer_awaits.
Qed.

Section Pool.
Context `{World}.

Lemma advance_awaits {A} n (p : Async QEff A) (s : Store) :
  AwaitsWithin n p -> AwaitsWithin n (advance p s).1.
Proof.
  revert s. induction p as [| |X e k IH]; cbn; auto.
  intros s Hk. destruct (awaited e) eqn:He.
  - cbn. now rewrite He.
  - destruct (handle e s) as [x s']. now apply IH.
Qed.

Lemma advance_parked {A} (p : Async QEff A) (s : Store) :
  parked (advance p s).1 = true.
Proof.
  revert s. induction p as [| |X e k IH]; cbn; auto.
  intros s. destruct (awaited e) eqn:He; [exact He|].
  destruct (handle e s) as [x s']. apply IH.
Qed.


Lemma spawn_lookup {A} (ps : list (Async QEff A)) (s : Store) i t :
  (spawn ps s).1 !! i = Some t ->
  exists p s1, ps !! i = Some p /\ t = (advance p s1).1.
Proof.
  revert s i. induction ps as [|p ps IH]; intros s i; [discriminate|]. cbn.
  destruct (advance p s) as [p1 s1] eqn:Ha. specialize (IH s1).
  destruct (spawn ps s1) as [rest s2]. cbn in *.
  destruct i as [|i]; cbn.
  - intros [= <-]. exists p, s. now rewrite Ha.
  - intros Hi. apply IH in Hi. exact Hi.
Qed.

Lemma resume_length {A} (ts ts' : list (Async QEff A)) (s s' : Store) :
  resume (ts, s) (ts', s') -> List.length ts' = List.length ts.
Proof. inversion 1; subst. apply length_insert. Qed.

Lemma sum_list_insert (ns : list nat) j n m :
  ns !! j = Some n -> (sum_list (<[j := m]> ns) + n = sum_list ns + m)%nat.
Proof.
  revert j. induction ns as [|a ns IH]; intros j; [discriminate|].
  destruct j as [|j]; cbn.
  - intros [= ->]. lia.
  - intros Hj. rewrite <- !Nat.add_assoc. f_equal. now apply IH.
Qed.



Lemma spawn_awaits {A} n (ps : list (Async QEff A)) (s : Store) :
  Forall (AwaitsWithin n) ps ->
  Forall2 AwaitsWithin (replicate (List.length ps) n) (spawn ps s).1
  /\ Forall (fun t => parked t = true) (spawn ps s).1.
Proof.
  revert s. induction ps as [|p ps IH]; intros s Hps; cbn.
  - split; constructor.
  - inversion Hps as [|? ? Hp Hps']; subst.
    pose proof (advance_awaits n p s Hp) as Hw.
    pose proof (advance_parked p s) as Hk.
    destruct (advance p s) as [p1 s1]. destruct (IH s1 Hps') as [IH1 IH2].
    destruct (spawn ps s1) as [rest s2]. cbn in *.
    split; constructor; auto.
Qed.






Lemma advance_bind {A B} (p : Async QEff A) (f : A -> Async QEff B) (s : Store) :
  advance (bind p f) s
  = let '(p1, s1) := advance p s in
    match p1 with
    | Ret a => advance (f a) s1
    | Throw e => (Throw e, s1)
    | Vis e k => (bind (Vis e k) f, s1)
    end.
Proof.
  revert s. induction p as [a|e|X e k IH]; intros s; cbn.
  - reflexivity.
  - reflexivity.
  - destruct (awaited e) eqn:He; [reflexivity|].
    destruct (handle e s) as [x s1]. apply IH.
Qed.

Lemma advance_tryCatch {A} (p : Async QEff A) handler (s : Store) :
  advance (tryCatch p handler) s
  = let '(p1, s1) := advance p s in
    match p1 with
    | Ret a => (Ret a, s1)
    | Throw e => advance (handler e) s1
    | Vis e k => (tryCatch (Vis e k) handler, s1)
    end.
Proof.
  revert s. induction p as [a|e|X e k IH]; intros s; cbn.
  - reflexivity.
  - reflexivity.
  - destruct (awaited e) eqn:He; [reflexivity|].
    destruct (handle e s) as [x s1]. apply IH.
Qed.











End Pool.


(* ===================================================================== *)
(** ** Properties of the text reports                                     *)
(* ===================================================================== *)

Lemma insertSorted_perm {A} (compare : A -> A -> Z) x l :
  Permutation (insertSorted compare x l) (x :: l).
Proof.
  induction l as [|y l IH]; cbn; [reflexivity|].
  destruct (compare x y <=? 0); [reflexivity|].
  rewrite IH. apply perm_swap.
Qed.

Lemma sort_perm {A} (compare : A -> A -> Z) l : Permutation (sort compare l) l.
Proof.
  induction l as [|x l IH]; cbn; [reflexivity|].
  rewrite insertSorted_perm. now constructor.
Qed.

Lemma sort_length {A} (compare : A -> A -> Z) l :
  List.length (sort compare l) = List.length l.
Proof. apply Permutation_length, sort_perm. Qed.

Lemma insertSorted_sorted {A} (compare : A -> A -> Z) x l :
  (forall a b, compare a b <= 0 \/ compare b a <= 0) ->
  Sorted (fun a b => compare a b <= 0) l ->
  Sorted (fun a b => compare a b <= 0) (insertSorted compare x l).
Proof.
  intros Htot. induction l as [|y l IH]; cbn; intros Hs.
  - repeat constructor.
  - destruct (Z.leb_spec (compare x y) 0) as [Hxy|Hxy].
    + constructor; [exact Hs|]. now constructor.
    + inversion Hs as [|? ? Hl Hhd]; subst. constructor; [now apply IH|].
      assert (Hyx : compare y x <= 0) by (destruct (Htot x y); [lia|assumption]).
      destruct l as [|z l]; cbn; [now constructor|].
      destruct (compare x z <=? 0); constructor; [exact Hyx|].
      now inversion Hhd.
Qed.

Lemma sort_sorted {A} (compare : A -> A -> Z) l :
  (forall a b, compare a b <= 0 \/ compare b a <= 0) ->
  Sorted (fun a b => compare a b <= 0) (sort compare l).
Proof.
  intros Htot. induction l as [|x l IH]; cbn; [constructor|].
  now apply insertSorted_sorted.
Qed.

Lemma trim_keep a mid z :
  isWhiteSpace a = false -> isWhiteSpace z = false ->
  trim (a :: mid ++ [z]) = a :: mid ++ [z].
Proof.
  intros Ha Hz. unfold trim, trimStart, trimEnd. cbn [dropWhile]. rewrite Ha.
  change (a :: mid ++ [z]) with ((a :: mid) ++ [z]).
  rewrite rev_app_distr. cbn [rev app dropWhile]. rewrite Hz.
  cbn [rev]. now rewrite rev_app_distr, rev_involutive.
Qed.

Lemma header_head : exists h, utf16 "👤 在线玩家 (" = 55357%N :: h.
Proof. eexists. reflexivity. Qed.

Lemma more_last : exists m, utf16 " 位玩家未显示" = m ++ [31034%N].
Proof. exists (removelast (utf16 " 位玩家未显示")). reflexivity. Qed.

Section FormatPlayers.
Context `{Locale}.

(** C6: an empty or missing player list gives the fixed line; otherwise the
    players are arranged by the comparison of their cleaned, lower-cased
    names, the first [maxPlayers] of them are listed one per line, numbered
    from 1, and when there are more players than [maxPlayers] one last line
    tells how many are not shown.  With 25 players and [maxPlayers = 20]
    that is 20 numbered lines and the line for 5 more. *)
Theorem formatPlayers_spec config :
  formatPlayers config None = noPlayersLine
  /\ formatPlayers config (Some []) = noPlayersLine
  /\ (forall players,
        players <> [] ->
        0 <= maxPlayers config ->
        (forall a b, localeCompare a b <= 0 \/ localeCompare b a <= 0) ->
        let sorted := sort comparePlayers players in
        let shown := firstn (Z.to_nat (maxPlayers config)) sorted in
        let count := Z.of_nat (List.length players) in
        let numbered :=
          imap (fun i p => numberToString (Z.of_nat i + 1) ++ utf16 ". "
                           ++ cleanName (player_name p) ++ [10%N]) shown in
        let head :=
          utf16 "👤 在线玩家 (" ++ numberToString count ++ utf16 "人):" ++ [10%N] in
        Permutation sorted players
        /\ Sorted (fun a b =>
                     localeCompare (toLowerCase (cleanName (player_name a)))
                                   (toLowerCase (cleanName (player_name b))) <= 0)
                  sorted
        /\ Z.of_nat (List.length numbered) = Z.min (maxPlayers config) count
        /\ (count <= maxPlayers config ->
            formatPlayers config (Some players) = trim (head ++ concat numbered))
        /\ (maxPlayers config < count ->
            formatPlayers config (Some players)
            = head ++ concat numbered
              ++ utf16 "... 还有 " ++ numberToString (count - maxPlayers config)
              ++ utf16 " 位玩家未显示"))
  /\ (forall players,
        List.length players = 25%nat ->
        maxPlayers config = 20 ->
        exists shown,
          List.length shown = 20%nat
          /\ formatPlayers config (Some players)
             = utf16 "👤 在线玩家 (25人):" ++ [10%N]
               ++ concat (imap (fun i p => numberToString (Z.of_nat i + 1) ++ utf16 ". "
                                           ++ cleanName (player_name p) ++ [10%N]) shown)
               ++ utf16 "... 还有 5 位玩家未显示").
Proof.
  assert (Hmore : forall players,
    players <> [] -> 0 <= maxPlayers config ->
    maxPlayers config < Z.of_nat (List.length players) ->
    formatPlayers config (Some players)
    = (utf16 "👤 在线玩家 (" ++ numberToString (Z.of_nat (List.length players))
       ++ utf16 "人):" ++ [10%N])
      ++ concat (imap playerLine
                   (firstn (Z.to_nat (maxPlayers config)) (sort comparePlayers players)))
      ++ moreLine (Z.of_nat (List.length players) - maxPlayers config)).
  { intros players Hne Hmax Hlt. destruct players as [|p ps]; [congruence|].
    unfold formatPlayers, slice0.
    replace (maxPlayers config <? 0) with false by lia.
    replace (maxPlayers config <? Z.of_nat (List.length (p :: ps))) with true by lia.
    unfold moreLine. destruct header_head as [h ->]. destruct more_last as [m ->].
    rewrite <- !app_assoc. cbn [app].
    rewrite !app_assoc.
    match goal with
    | |- trim (?a :: ?A ++ ?x :: ?B ++ [?z]) = _ =>
      replace (a :: A ++ x :: B ++ [z]) with (a :: (A ++ x :: B) ++ [z])
        by (now rewrite <- app_assoc)
    end.
    apply trim_keep; reflexivity. }
  split; [reflexivity|]. split; [reflexivity|]. split.
  - intros players Hne Hmax Htot sorted shown count numbered head.
    split; [apply sort_perm|].
    split; [apply (sort_sorted comparePlayers); intros a b; apply Htot|].
    split.
    { subst numbered shown sorted count.
      rewrite length_imap, length_firstn, sort_length. lia. }
    split.
    + intros Hle. destruct players as [|p ps]; [congruence|].
      unfold formatPlayers, slice0.
      replace (maxPlayers config <? 0) with false by lia.
      replace (maxPlayers config <? Z.of_nat (List.length (p :: ps))) with false
        by (subst count; lia).
      subst head numbered shown sorted count. now rewrite <- !app_assoc.
    + intros Hlt. rewrite (Hmore players Hne Hmax Hlt).
      subst head numbered shown sorted count. unfold moreLine.
      now rewrite <- !app_assoc.
  - intros players Hlen Hmax.
    exists (firstn 20 (sort comparePlayers players)). split.
    + rewrite length_firstn, sort_length, Hlen. reflexivity.
    + rewrite (Hmore players); rewrite ?Hmax, ?Hlen; [|now destruct players|lia|lia].
      change (Z.to_nat 20) with 20%nat. reflexivity.
Qed.

End FormatPlayers.

Lemma compareUnits_total a b : compareUnits a b <= 0 \/ compareUnits b a <= 0.
Proof.
  revert b. induction a as [|x a IH]; intros [|y b]; cbn; try (left; lia); try (right; lia).
  destruct (N.ltb_spec x y); [left; lia|].
  destruct (N.ltb_spec y x); [right; lia|]. apply IH.
Qed.

Lemma formatPlayers_spec_witness :
  (samplePlayers <> []
   /\ 0 <= maxPlayers sampleConfig
   /\ Permutation (sort comparePlayers samplePlayers) samplePlayers
   /\ formatPlayers sampleConfig (Some samplePlayers)
      = trim (utf16 "👤 在线玩家 (3人):" ++ [10%N]
              ++ utf16 "1. Alice" ++ [10%N] ++ utf16 "2. bob" ++ [10%N]
              ++ utf16 "3. 未知" ++ [10%N]))
  /\ (List.length fullServer = 25%nat
      /\ maxPlayers sampleConfig = 20
      /\ exists shown,
           List.length shown = 20%nat
           /\ formatPlayers sampleConfig (Some fullServer)
              = utf16 "👤 在线玩家 (25人):" ++ [10%N]
                ++ concat (imap (fun i p => numberToString (Z.of_nat i + 1) ++ utf16 ". "
                                            ++ cleanName (player_name p) ++ [10%N]) shown)
                ++ utf16 "... 还有 5 位玩家未显示").
Proof.
  destruct (formatPlayers_spec (H := asciiLocale) sampleConfig)
    as (_ & _ & Hmany & Hfull).
  split.
  - split; [discriminate|]. split; [vm_compute; discriminate|].
    destruct (Hmany samplePlayers) as (Hperm & _ & _ & Hfew & _);
      [discriminate|vm_compute; discriminate|exact compareUnits_total|].
    split; [exact Hperm|].
    rewrite Hfew; [reflexivity|vm_compute; discriminate].
  - split; [reflexivity|]. split; [reflexivity|].
    apply (Hfull fullServer); reflexivity.
Defined.

(** The width of the name field of a row: 20 code units for a cleaned name
    of at most 20, and 23 for any longer one. *)
Lemma paddedName_length serverData :
  List.length (paddedName serverData)
  = if (List.length (serverName serverData) <=? 20)%nat then 20%nat else 23%nat.
Proof.
  unfold paddedName, truncateText, padEnd, substring0.
  destruct (Nat.leb_spec (List.length (serverName serverData)) 20) as [Hle|Hgt].
  - replace (20 <? List.length (serverName serverData))%nat with false
      by (symmetry; apply Nat.ltb_ge; lia).
    rewrite length_app, repeat_length. lia.
  - replace (20 <? List.length (serverName serverData))%nat with true
      by (symmetry; apply Nat.ltb_lt; lia).
    rewrite !length_app, repeat_length, length_firstn.
    change (List.length (utf16 "...")) with 3%nat. lia.
Qed.

(* ===================================================================== *)
(** ** Properties of the schedule timer                                   *)
(* ===================================================================== *)

Lemma cleared_armed s :
  TimerTracked s ->
  armed (match scheduleTimer s with
         | Some handle => clearInterval handle s
         | None => s
         end) = ∅.
Proof.
  intros [He | (handle & ms & Hh & Ha)].
  - destruct (scheduleTimer s); cbn; rewrite He; [apply delete_empty|reflexivity].
  - rewrite Hh. cbn. rewrite Ha. apply delete_singleton_eq.
Qed.

Lemma start_armed config s :
  TimerTracked s ->
  scheduleEnabled config = true -> 0 < scheduleInterval config ->
  exists handle,
    scheduleTimer (startScheduleTask config s) = Some handle
    /\ armed (startScheduleTask config s)
       = {[handle := scheduleInterval config * 60 * 1000]}.
Proof.
  intros Ht He Hi. pose proof (cleared_armed s Ht) as Hc.
  unfold startScheduleTask. rewrite He.
  replace (0 <? scheduleInterval config) with true by lia. cbn.
  eexists. split; [reflexivity|]. rewrite Hc. apply insert_empty.
Qed.

Lemma start_tracked config s : TimerTracked s -> TimerTracked (startScheduleTask config s).
Proof.
  intros Ht. pose proof (cleared_armed s Ht) as Hc.
  unfold startScheduleTask.
  destruct (scheduleEnabled config && (0 <? scheduleInterval config)); cbn.
  - right. do 2 eexists. split; [reflexivity|]. rewrite Hc. apply insert_empty.
  - left. exact Hc.
Qed.

Lemma stop_armed s : TimerTracked s -> armed (stopScheduleTask s) = ∅.
Proof.
  intros Ht. pose proof (cleared_armed s Ht) as Hc.
  unfold stopScheduleTask. destruct (scheduleTimer s); exact Hc.
Qed.

Lemma stop_handle s : scheduleTimer (stopScheduleTask s) = None.
Proof. unfold stopScheduleTask. destruct (scheduleTimer s) eqn:E; [reflexivity|exact E]. Qed.

Lemma fire_same handle s s' :
  fire handle s = Some s' ->
  scheduleTimer s' = scheduleTimer s /\ armed s' = armed s
  /\ is_Some (armed s !! handle).
Proof.
  unfold fire. destruct (armed s !! handle) eqn:E; [|discriminate].
  intros [= <-]. cbn. eauto.
Qed.

Lemma schedulerStep_tracked s s' : schedulerStep s s' -> TimerTracked s -> TimerTracked s'.
Proof.
  intros [config s0 | s0 | handle s0 s1 Hf] Ht.
  - now apply start_tracked.
  - left. now apply stop_armed.
  - destruct (fire_same _ _ _ Hf) as (Hh & Ha & _).
    unfold TimerTracked. now rewrite Hh, Ha.
Qed.

Lemma rtc_tracked s s' : rtc schedulerStep s s' -> TimerTracked s -> TimerTracked s'.
Proof. induction 1; eauto using schedulerStep_tracked. Qed.

Lemma reachable_tracked s : rtc schedulerStep initialScheduler s -> TimerTracked s.
Proof. intros Hr. apply (rtc_tracked _ _ Hr). now left. Qed.

Lemma exact_tracked s : TimerExact s -> TimerTracked s.
Proof. intros [[_ He]|Hs]; [now left|now right]. Qed.

Lemma pluginStep_exact s s' : pluginStep s s' -> TimerExact s -> TimerExact s'.
Proof.
  intros Hstep Hx. pose proof (exact_tracked s Hx) as Ht.
  assert (Hstop : TimerExact (stopScheduleTask s))
    by (left; split; [apply stop_handle|now apply stop_armed]).
  assert (Hstart : forall config, scheduleEnabled config = true ->
            0 < scheduleInterval config -> TimerExact (startScheduleTask config s)).
  { intros config He Hi. destruct (start_armed config s Ht He Hi) as (handle & Hh & Ha).
    right. eauto. }
  destruct Hstep as [config s0 Hi | config s0 Hi | s0 | s0 | handle s0 s1 Hf]; auto.
  - destruct (scheduleEnabled config) eqn:He; auto.
  - destruct (fire_same _ _ _ Hf) as (Hh & Ha & _).
    unfold TimerExact. now rewrite Hh, Ha.
Qed.

Lemma rtc_exact s s' : rtc pluginStep s s' -> TimerExact s -> TimerExact s'.
Proof. induction 1; eauto using pluginStep_exact. Qed.

Lemma plugin_reachable_exact s : rtc pluginStep initialScheduler s -> TimerExact s.
Proof. intros Hr. apply (rtc_exact _ _ Hr). now left. Qed.

(** C7: however the scheduler is started, stopped and ticked, at most one
    interval timer is armed, and it is the one [scheduleTimer] holds;
    starting twice in a row (enabled, with a positive interval) leaves
    exactly one armed timer, the second one, so only that one can tick;
    stopping with no handle changes nothing, and in every state the plugin
    reaches through its own call sites no armed timer means no handle;
    after a stop the handle is null and its timer is not armed. *)
Theorem schedule_timer_unique :
  (forall s, rtc schedulerStep initialScheduler s ->
     size (armed s) <= 1
     /\ forall handle, is_Some (armed s !! handle) -> scheduleTimer s = Some handle)%nat
  /\ (forall config s,
        rtc schedulerStep initialScheduler s ->
        scheduleEnabled config = true -> 0 < scheduleInterval config ->
        let s2 := startScheduleTask config (startScheduleTask config s) in
        exists handle,
          scheduleTimer s2 = Some handle
          /\ armed s2 = {[handle := scheduleInterval config * 60 * 1000]}
          /\ size (armed s2) = 1%nat
          /\ forall other s', fire other s2 = Some s' -> other = handle)
  /\ (forall s, scheduleTimer s = None -> stopScheduleTask s = s)
  /\ (forall s, rtc pluginStep initialScheduler s -> armed s = ∅ ->
        stopScheduleTask s = s)
  /\ (forall s,
        scheduleTimer (stopScheduleTask s) = None
        /\ forall handle, scheduleTimer s = Some handle ->
             armed (stopScheduleTask s) !! handle = None).
Proof.
  repeat split.
  - apply reachable_tracked in H as [He | (handle & ms & Hh & Ha)].
    + rewrite He, map_size_empty. lia.
    + rewrite Ha, map_size_singleton. lia.
  - intros handle [v Hv].
    apply reachable_tracked in H as [He | (handle' & ms & Hh & Ha)].
    + rewrite He, lookup_empty in Hv. discriminate.
    + rewrite Ha in Hv. apply lookup_singleton_Some in Hv as [<- _]. exact Hh.
  - intros config s Hr He Hi s2.
    pose proof (start_tracked config s (reachable_tracked s Hr)) as Ht.
    destruct (start_armed config _ Ht He Hi) as (handle & Hh & Ha).
    exists handle. subst s2. split; [exact Hh|]. split; [exact Ha|].
    split; [rewrite Ha; apply map_size_singleton|].
    intros other s' Hf. destruct (fire_same _ _ _ Hf) as (_ & _ & [v Hv]).
    rewrite Ha in Hv. apply lookup_singleton_Some in Hv as [<- _]. reflexivity.
  - intros s Hn. unfold stopScheduleTask. now rewrite Hn.
  - intros s Hr He.
    destruct (plugin_reachable_exact s Hr) as [[Hn _] | (handle & ms & _ & Ha)].
    + unfold stopScheduleTask. now rewrite Hn.
    + rewrite Ha in He. exfalso.
      apply (f_equal (fun m => m !! handle)) in He.
      rewrite lookup_singleton_eq, lookup_empty in He. discriminate.
  - apply stop_handle.
  - intros handle Hh. unfold stopScheduleTask. rewrite Hh. cbn.
    apply lookup_delete_eq.
Qed.

(* ===================================================================== *)
(** ** Properties of the scheduled task                                   *)
(* ===================================================================== *)

Lemma dropWhile_head p c r : p c = false -> dropWhile p (c :: r) = c :: r.
Proof. intros Hc. cbn. now rewrite Hc. Qed.

Lemma digit_not_space c : isDigit c = true -> isWhiteSpace c = false.
Proof.
  intros Hd. apply isDigit_range in Hd. unfold isWhiteSpace. now decide_units.
Qed.

Lemma trim_digits ds : forallb isDigit ds = true -> trim ds = ds.
Proof.
  intros Hds. unfold trim, trimStart, trimEnd.
  assert (Hdrop : forall l, forallb isDigit l = true -> dropWhile isWhiteSpace l = l).
  { intros [|c r]; [reflexivity|]. cbn. destruct (isDigit c) eqn:Hc; [|discriminate].
    intros _. now rewrite (digit_not_space _ Hc). }
  rewrite (Hdrop _ Hds). rewrite Hdrop; [apply rev_involutive|].
  rewrite forallb_forall in *. intros x Hx. apply Hds. now apply in_rev.
Qed.

Lemma toNumber_digits ds :
  ds <> [] -> forallb isDigit ds = true -> toNumber ds = Some (digitsValue 10 ds).
Proof.
  intros Hne Hds. unfold toNumber. rewrite (trim_digits _ Hds).
  destruct ds as [|c r]; [congruence|].
  assert (Hc : isDigit c = true) by (cbn in Hds; now destruct (isDigit c)).
  apply isDigit_range in Hc.
  replace (c =? ch "-")%N with false by now decide_units.
  replace (c =? ch "+")%N with false by now decide_units.
  rewrite Hds. f_equal. lia.
Qed.

Lemma parseTime_split hs ms :
  hs <> [] -> ms <> [] ->
  forallb isDigit hs = true -> forallb isDigit ms = true ->
  parseTimeToMinutes (hs ++ ch ":" :: ms)
  = Some (digitsValue 10 hs * 60 + digitsValue 10 ms).
Proof.
  intros Hh Hm Hhd Hmd. unfold parseTimeToMinutes.
  rewrite split_app by (now apply digits_no).
  rewrite split_none by (now apply digits_no). cbn [List.map].
  now rewrite !toNumber_digits.
Qed.

Lemma digit_value c hi :
  (48 <=? c)%N = true /\ (c <=? hi)%N = true -> (hi <= 57)%N ->
  isDigit c = true /\ 0 <= Z.of_N c - 48 <= Z.of_N hi - 48.
Proof.
  rewrite !N.leb_le. intros [H1 H2] Hhi. split; [|lia].
  unfold isDigit. rewrite andb_true_iff, !N.leb_le. lia.
Qed.

(** A time of day that the schema admits is read as [hours * 60 + minutes]. *)
Lemma isTimeOfDay_parse s :
  isTimeOfDay s = true ->
  exists hours minutes,
    parseTimeToMinutes s = Some (hours * 60 + minutes)
    /\ 0 <= hours <= 23 /\ 0 <= minutes <= 59.
Proof.
  unfold isTimeOfDay.
  destruct s as [|a [|b [|c [|d [|e [|f s]]]]]]; try discriminate.
  - rewrite !andb_true_iff. intros [[[Ha Hb] Hc] Hd].
    apply N.eqb_eq in Hb. subst b.
    destruct (digit_value c 53 Hc) as [Hcd Hcv]; [lia|].
    pose proof (isDigit_range _ Ha). pose proof (isDigit_range _ Hd).
    exists (Z.of_N a - 48), ((Z.of_N c - 48) * 10 + (Z.of_N d - 48)).
    split; [|lia].
    change [a; ch ":"; c; d] with ([a] ++ ch ":" :: [c; d]).
    rewrite parseTime_split;
      [|discriminate|discriminate|cbn; now rewrite Ha|cbn; now rewrite Hcd, Hd].
    unfold digitsValue, digitValue. cbn. rewrite Ha, Hcd, Hd. f_equal; lia.
  - rewrite !andb_true_iff, orb_true_iff, !andb_true_iff.
    intros [[[Hh Hc] Hd] He]. apply N.eqb_eq in Hc. subst c.
    destruct (digit_value d 53 Hd) as [Hdd Hdv]; [lia|].
    pose proof (isDigit_range _ He).
    assert (Hab : isDigit a = true /\ isDigit b = true
                  /\ 0 <= (Z.of_N a - 48) * 10 + (Z.of_N b - 48) <= 23).
    { destruct Hh as [[Ha Hb] | [Ha Hb]].
      - destruct (digit_value a 49 Ha) as [Had Hav]; [lia|].
        pose proof (isDigit_range _ Hb). repeat split; auto; lia.
      - apply N.eqb_eq in Ha. subst a.
        destruct (digit_value b 51 Hb) as [Hbd Hbv]; [lia|].
        eval_ch. repeat split; auto; cbn; lia. }
    destruct Hab as (Ha & Hb & Hv).
    exists ((Z.of_N a - 48) * 10 + (Z.of_N b - 48)),
           ((Z.of_N d - 48) * 10 + (Z.of_N e - 48)).
    split; [|lia].
    change [a; b; ch ":"; d; e] with ([a; b] ++ ch ":" :: [d; e]).
    rewrite parseTime_split;
      [|discriminate|discriminate|cbn; now rewrite Ha, Hb|cbn; now rewrite Hdd, He].
    unfold digitsValue, digitValue. cbn. rewrite Ha, Hb, Hdd, He. f_equal; lia.
Qed.

Section Exec.
Context `{Host}.

Lemma exec_tryCatch_normal {A} (p : Async CEff A) handler (h h' : HostState) a calls :
  exec p h = (Normal a, h', calls) ->
  exec (tryCatch p handler) h = (Normal a, h', calls).
Proof.
  revert h h' calls. induction p as [b|e|X e k IH]; cbn; intros h h' calls Hp.
  - exact Hp.
  - discriminate.
  - destruct (answer e h) as [x h1].
    destruct (exec (k x) h1) as [[c h2] calls'] eqn:Hk.
    injection Hp as -> -> <-. now rewrite (IH _ _ _ _ Hk).
Qed.

Lemma exec_bind {A B} (p : Async CEff A) (f : A -> Async CEff B) (h : HostState) :
  exec (bind p f) h
  = let '(c, h1, calls1) := exec p h in
    match c with
    | Normal a => let '(c2, h2, calls2) := exec (f a) h1 in (c2, h2, calls1 ++ calls2)
    | Thrown e => (Thrown e, h1, calls1)
    end.
Proof.
  revert h. induction p as [b|e|X e k IH]; cbn; intros h.
  - now destruct (exec (f b) h) as [[c2 h2] calls2].
  - reflexivity.
  - destruct (answer e h) as [x h1]. rewrite IH.
    destruct (exec (k x) h1) as [[[a|err] h2] calls1]; [|reflexivity].
    now destruct (exec (f a) h2) as [[c2 h3] calls2].
Qed.

Lemma exec_tryCatch {A} (p : Async CEff A) handler (h : HostState) :
  exec (tryCatch p handler) h
  = let '(c, h1, calls1) := exec p h in
    match c with
    | Normal a => (Normal a, h1, calls1)
    | Thrown e => let '(c2, h2, calls2) := exec (handler e) h1 in (c2, h2, calls1 ++ calls2)
    end.
Proof.
  revert h. induction p as [b|e|X e k IH]; cbn; intros h.
  - reflexivity.
  - now destruct (exec (handler e) h) as [[c2 h2] calls2].
  - destruct (answer e h) as [x h1]. rewrite IH.
    destruct (exec (k x) h1) as [[[a|err] h2] calls1]; [reflexivity|].
    now destruct (exec (handler err) h2) as [[c2 h3] calls2].
Qed.

Lemma exec_trigger {X} (e : CEff X) (h : HostState) :
  exec (trigger e) h = let '(x, h1) := answer e h in (Normal x, h1, [mkCall _ e]).
Proof. cbn. now destruct (answer e h). Qed.

Lemma exec_await {A} (e : CEff (Completion A)) (h : HostState) :
  exec (await e) h = let '(c, h1) := answer e h in (c, h1, [mkCall _ e]).
Proof. cbn. now destruct (answer e h) as [[a|err] h1]. Qed.

(** The delivery loop sends once to every group, in order, whatever the
    deliveries answer, and asks for no query. *)
Lemma exec_broadcastAll groups content (h : HostState) :
  exists h' calls,
    exec (broadcastAll groups content) h = (Normal tt, h', calls)
    /\ omap batchOf calls = []
    /\ omap channelsOf calls = List.map (fun g => [utf16 "onebot:" ++ g]) groups
    /\ List.filter isQueryCall calls = [].
Proof.
  revert h. induction groups as [|g rest IH]; intros h; cbn.
  - exists h, []. repeat split.
  - destruct (answer (Broadcast [utf16 "onebot:" ++ g] content) h) as [[u|e] h1]; cbn.
    + destruct (IH h1) as (h' & calls & -> & Hb & Hc & Hq).
      do 2 eexists. split; [reflexivity|]. cbn. rewrite Hb, Hc, Hq. auto.
    + destruct (answer (ConsoleError _ e) h1) as [u h2]; cbn.
      destruct (IH h2) as (h' & calls & -> & Hb & Hc & Hq).
      do 2 eexists. split; [reflexivity|]. cbn. rewrite Hb, Hc, Hq. auto.
Qed.

Context `{NumberFormat}.

(** The report asks for one batch, over the configured servers, and sends
    once to every configured group; it does not throw. *)
Lemma exec_scheduleReport config (h : HostState) :
  exists h' calls,
    exec (scheduleReport config) h = (Normal tt, h', calls)
    /\ omap batchOf calls = [serverList config]
    /\ omap channelsOf calls
       = List.map (fun g => [utf16 "onebot:" ++ g]) (scheduleGroups config).
Proof.
  unfold scheduleReport.
  rewrite exec_bind, exec_trigger. destruct (answer Now h) as [startTime h1].
  rewrite exec_bind, exec_trigger.
  destruct (answer (QueryBatch (serverList config)) h1) as [results h2].
  rewrite exec_bind, exec_trigger. destruct (answer Now h2) as [endTime h3].
  rewrite exec_bind, exec_trigger. destruct (answer LocaleTimeString h3) as [timeStr h4].
  rewrite exec_bind.
  assert (Himg : exists oc h5 calls,
             exec (scheduleImage config results (endTime - startTime) timeStr) h4
             = (Normal oc, h5, calls)
             /\ omap batchOf calls = [] /\ omap channelsOf calls = []).
  { unfold scheduleImage. destruct (scheduleUseImage config).
    - rewrite exec_tryCatch, exec_bind, exec_await.
      destruct (answer (GenerateBatchImage _ _ _) h4) as [[buffer|err] h5].
      + cbn. do 3 eexists. repeat split.
      + rewrite exec_bind, exec_trigger.
        destruct (answer (ConsoleError _ err) h5) as [u h6].
        cbn. do 3 eexists. repeat split.
    - cbn. do 3 eexists. repeat split. }
  destruct Himg as (oc & h5 & calls & -> & Hb & Hc).
  match goal with |- context [exec (broadcastAll ?gs ?c) h5] =>
    destruct (exec_broadcastAll gs c h5) as (h' & calls' & -> & Hb' & Hc' & _)
  end.
  exists h', ([mkCall _ Now] ++ [mkCall _ (QueryBatch (serverList config))]
              ++ [mkCall _ Now] ++ [mkCall _ LocaleTimeString] ++ calls ++ calls').
  split; [reflexivity|].
  rewrite !omap_app, Hb, Hc, Hb', Hc'. split; reflexivity.
Qed.

(** C8 (amended): a tick is a no-op, without even reading the clock, unless
    the schedule is enabled and both the group list and the server list are
    non-empty; otherwise it reads the local hour and minute, and with
    [hours * 60 + minutes] before the start or after the end of the window
    it asks for no query and sends nothing, while from the start minute to
    the end minute, both included, it runs one batch over the configured
    servers and sends once to every configured group.  So the ticks at the
    two bounds run when the start is not after the end; with a start after
    the end the window is empty and no tick runs. *)
Theorem executeScheduleTask_window config (h h1 : HostState) hours minutes :
  isTimeOfDay (scheduleStartTime config) = true ->
  isTimeOfDay (scheduleEndTime config) = true ->
  answer LocalTime h = ((hours, minutes), h1) ->
  exists startMinutes endMinutes,
    parseTimeToMinutes (scheduleStartTime config) = Some startMinutes
    /\ parseTimeToMinutes (scheduleEndTime config) = Some endMinutes
    /\ let current := hours * 60 + minutes in
       let '(completion, h', calls) := exec (executeScheduleTask config) h in
       completion = Normal tt
       /\ (scheduleEnabled config = false \/ scheduleGroups config = []
           \/ serverList config = [] ->
           calls = [] /\ h' = h)
       /\ (scheduleEnabled config = true -> scheduleGroups config <> [] ->
           serverList config <> [] ->
           (current < startMinutes \/ endMinutes < current ->
            List.filter isQueryCall calls = []
            /\ List.filter isBroadcastCall calls = [])
           /\ (startMinutes <= current <= endMinutes ->
               omap batchOf calls = [serverList config]
               /\ omap channelsOf calls
                  = List.map (fun g => [utf16 "onebot:" ++ g]) (scheduleGroups config))
           /\ (endMinutes < startMinutes ->
               List.filter isQueryCall calls = []
               /\ List.filter isBroadcastCall calls = [])).
Proof.
  intros Hs He Hnow.
  destruct (isTimeOfDay_parse _ Hs) as (sh & sm & Hps & _).
  destruct (isTimeOfDay_parse _ He) as (eh & em & Hpe & _).
  exists (sh * 60 + sm), (eh * 60 + em). split; [exact Hps|]. split; [exact Hpe|].
  cbv zeta. unfold executeScheduleTask.
  destruct (scheduleEnabled config) eqn:Hen; cbn [negb orb];
    [|cbn; repeat split; auto; discriminate].
  destruct (scheduleGroups config) as [|g gs] eqn:Hg; cbn [List.length Nat.eqb orb];
    [cbn; repeat split; auto; congruence|].
  destruct (serverList config) as [|sv svs] eqn:Hsv; cbn [List.length Nat.eqb orb];
    [cbn; repeat split; auto; congruence|].
  unfold isWithinScheduleTime. cbn [bind trigger exec]. rewrite Hnow. cbn [fst snd].
  unfold withinWindow. rewrite Hps, Hpe.
  destruct ((sh * 60 + sm <=? hours * 60 + minutes)
            && (hours * 60 + minutes <=? eh * 60 + em)) eqn:Hw; cbn [negb].
  - (* inside the window *)
    destruct (exec_scheduleReport config h1) as (h' & calls & Hrun & Hb & Hc).
    rewrite (exec_tryCatch_normal _ _ _ _ _ _ Hrun). cbn.
    split; [reflexivity|]. split; [intros [?|[?|?]]; discriminate|].
    intros _ _ _. split; [intros Hout; exfalso; lia|].
    split; [|intros Hempty; exfalso; lia]. intros _.
    rewrite Hb, Hc, Hsv, Hg. split; reflexivity.
  - cbn. split; [reflexivity|]. split; [intros [?|[?|?]]; discriminate|].
    intros _ _ _. split; [auto|]. split; [|auto]. intros Hin. exfalso. lia.
Qed.

Lemma exec_csssQuery config options serversToQuery (h : HostState) :
  existsb isImageCall (exec (csssQuery config options serversToQuery) h).2
  = shouldGenerateImage (csss_image options) (csss_text options) config.
Proof.
  unfold csssQuery, queryServers.
  rewrite exec_tryCatch, !exec_bind, exec_trigger.
  destruct (answer Now h) as [startTime h1].
  rewrite exec_bind, exec_trigger.
  destruct (answer (QueryBatch serversToQuery) h1) as [results h2].
  rewrite exec_bind, exec_trigger. destruct (answer Now h2) as [endTime h3].
  cbn [exec app fst snd]. rewrite exec_bind.
  destruct (shouldGenerateImage (csss_image options) (csss_text options) config).
  - rewrite exec_tryCatch, exec_bind, exec_await.
    destruct (answer (GenerateBatchImage _ _ _) h3) as [[buffer|err] h4].
    + reflexivity.
    + rewrite exec_bind, exec_trigger.
      destruct (answer (ConsoleError _ err) h4) as [u h5]. reflexivity.
  - reflexivity.
Qed.

Context `{Locale} `{ServerInfoText}.

(** C10: in the [cs] action, once the address has parsed and the query has
    answered, and in the [csss] action, once it comes to querying, an image
    is asked for exactly when [options.image] is set or the configured
    default [generateImage] is on and [options.text] is not set; so
    [options.image] wins over [options.text], and [options.text] only
    switches the configured default off. *)
Theorem image_option_precedence config :
  (forall (options : CsOptions) address host port d (h h1 : HostState),
      address <> [] ->
      cs_clear options = false ->
      parseAddress address = Normal (host, port) ->
      answer (QueryOne host port) h = (Normal d, h1) ->
      let calls := (exec (csAction config options (Some address)) h).2 in
      existsb isImageCall calls
      = cs_image options || (generateImage config && negb (cs_text options))
      /\ (cs_image options = true -> existsb isImageCall calls = true)
      /\ (cs_image options = false -> cs_text options = true ->
          existsb isImageCall calls = false))
  /\ (forall (options : CsssOptions) addresses (h : HostState),
         csss_list options = false ->
         csss_add options = None \/ csss_add options = Some [] ->
         csss_remove options = None ->
         csss_clear options = false ->
         addresses <> [] \/ serverList config <> [] ->
         let calls := (exec (csssAction config options addresses) h).2 in
         existsb isImageCall calls
         = csss_image options || (generateImage config && negb (csss_text options))
         /\ (csss_image options = true -> existsb isImageCall calls = true)
         /\ (csss_image options = false -> csss_text options = true ->
             existsb isImageCall calls = false)).
Proof.
  split.
  - intros options address host port d h h1 Hne Hclear Hparse Hq calls.
    assert (Hcalls : existsb isImageCall calls
                     = shouldGenerateImage (cs_image options) (cs_text options) config).
    { subst calls. unfold csAction. destruct address as [|c r]; [congruence|].
      rewrite Hclear, Hparse. cbn [ofCompletion bind fst snd].
      rewrite exec_tryCatch, exec_bind, exec_await, Hq.
      destruct (shouldGenerateImage (cs_image options) (cs_text options) config).
      - rewrite exec_tryCatch, exec_bind, exec_await.
        destruct (answer (GenerateServerImage d host port) h1) as [[buffer|err] h2].
        + reflexivity.
        + rewrite exec_bind, exec_trigger.
          destruct (answer (ConsoleError _ err) h2) as [u h3]. reflexivity.
      - reflexivity. }
    rewrite Hcalls. unfold shouldGenerateImage.
    split; [reflexivity|]. split.
    + now intros ->.
    + intros -> ->. now rewrite andb_false_r.
  - intros options addresses h Hlist Hadd Hremove Hclear Hsome calls.
    assert (Hcalls : existsb isImageCall calls
                     = shouldGenerateImage (csss_image options) (csss_text options) config).
    { subst calls. unfold csssAction. rewrite Hlist, Hremove, Hclear.
      assert (Hservers : exists serversToQuery,
                 match addresses with
                 | _ :: _ => Some addresses
                 | [] => match serverList config with
                         | _ :: _ => Some (serverList config)
                         | [] => None
                         end
                 end = Some serversToQuery).
      { destruct addresses as [|a l]; [|eauto].
        destruct (serverList config) as [|sv l]; [|eauto].
        destruct Hsome; congruence. }
      destruct Hservers as (serversToQuery & ->).
      assert (Hrest :
        existsb isImageCall
          (exec (serversToQuery0 <-
                   (if (10 <? List.length serversToQuery)%nat
                    then trigger (SessionSend (utf16 "⚠️ 服务器数量超过限制，仅查询前 "
                                   ++ numberToString (Z.of_nat 10) ++ utf16 " 个")) ;;;
                         Ret (firstn 10 serversToQuery)
                    else Ret serversToQuery) ;;
                 csssQuery config options serversToQuery0) h).2
        = shouldGenerateImage (csss_image options) (csss_text options) config).
      { rewrite exec_bind. destruct (10 <? List.length serversToQuery)%nat.
        - rewrite exec_bind, exec_trigger.
          destruct (answer (SessionSend _) h) as [u h1]. cbn [exec app].
          pose proof (exec_csssQuery config options (firstn 10 serversToQuery) h1) as Hq.
          destruct (exec (csssQuery _ _ _) h1) as [[c2 h2] calls2]. cbn in *. exact Hq.
        - cbn [exec].
          pose proof (exec_csssQuery config options serversToQuery h) as Hq.
          destruct (exec (csssQuery _ _ _) h) as [[c2 h2] calls2]. cbn in *. exact Hq. }
      destruct Hadd as [-> | ->]; exact Hrest. }
    rewrite Hcalls. unfold shouldGenerateImage.
    split; [reflexivity|]. split.
    + now intros ->.
    + intros -> ->. now rewrite andb_false_r.
Qed.

End Exec.

(** C5: for a server whose cleaned name is longer than 20 code units the
    name field of its row is the first 20 code units followed by three
    dots, 23 code units in all, and not 20: here for the 33 units of
    "Counter-Strike 2 Community Server". *)
Theorem tableRow_name_field_overflow :
  List.length (serverName sampleResult) = 33%nat
  /\ paddedName sampleResult = utf16 "Counter-Strike 2 Com..."
  /\ List.length (paddedName sampleResult) = 23%nat
  /\ tableRow [utf16 "edgebug.cn:27015"] 0
       (Fulfilled {| index := 1; server := utf16 "edgebug.cn:27015";
                     outcome := Succeeded sampleData |})
     = utf16 " 1  Counter-Strike 2 Com... 3/10" ++ [10%N].
Proof. repeat split; vm_compute; reflexivity. Qed.

Lemma schedule_timer_unique_witness :
  let once := startScheduleTask sampleConfig initialScheduler in
  let twice := startScheduleTask sampleConfig once in
  (size (armed once) <= 1)%nat
  /\ (exists handle,
        scheduleTimer twice = Some handle
        /\ armed twice = {[handle := 300000]}
        /\ size (armed twice) = 1%nat
        /\ forall other s', fire other twice = Some s' -> other = handle)
  /\ stopScheduleTask initialScheduler = initialScheduler
  /\ stopScheduleTask (stopScheduleTask once) = stopScheduleTask once
  /\ scheduleTimer (stopScheduleTask twice) = None.
Proof.
  intros once twice.
  destruct schedule_timer_unique as (Hone & Htwice & Hnoop & Hplugin & Hnull).
  split; [|split; [|split; [|split]]].
  - apply Hone. apply rtc_once. apply step_start.
  - apply (Htwice sampleConfig initialScheduler);
      [apply rtc_refl|reflexivity|reflexivity].
  - apply Hnoop. reflexivity.
  - apply Hplugin; [|reflexivity].
    apply rtc_l with once.
    + apply (plugin_command_start sampleConfig initialScheduler). reflexivity.
    + apply rtc_once. apply plugin_command_stop.
  - apply Hnull.
Defined.

Lemma executeScheduleTask_window_witness :
  isTimeOfDay (scheduleStartTime sampleConfig) = true
  /\ isTimeOfDay (scheduleEndTime sampleConfig) = true
  /\ answer LocalTime ((8, 0) : @HostState sampleHost) = ((8, 0), (8, 0))
  /\ exists startMinutes endMinutes,
       parseTimeToMinutes (scheduleStartTime sampleConfig) = Some startMinutes
       /\ parseTimeToMinutes (scheduleEndTime sampleConfig) = Some endMinutes
       /\ let current := 8 * 60 + 0 in
          let '(completion, h', calls) :=
            exec (executeScheduleTask sampleConfig) ((8, 0) : @HostState sampleHost) in
          completion = Normal tt
          /\ (scheduleEnabled sampleConfig = false \/ scheduleGroups sampleConfig = []
              \/ serverList sampleConfig = [] ->
              calls = [] /\ h' = (8, 0))
          /\ (scheduleEnabled sampleConfig = true -> scheduleGroups sampleConfig <> [] ->
              serverList sampleConfig <> [] ->
              (current < startMinutes \/ endMinutes < current ->
               List.filter isQueryCall calls = []
               /\ List.filter isBroadcastCall calls = [])
              /\ (startMinutes <= current <= endMinutes ->
                  omap batchOf calls = [serverList sampleConfig]
                  /\ omap channelsOf calls
                     = List.map (fun g => [utf16 "onebot:" ++ g])
                                (scheduleGroups sampleConfig))
              /\ (endMinutes < startMinutes ->
                  List.filter isQueryCall calls = []
                  /\ List.filter isBroadcastCall calls = [])).
Proof.
  split; [reflexivity|]. split; [reflexivity|]. split; [reflexivity|].
  apply (executeScheduleTask_window (H := sampleHost) (H0 := wholeSeconds)
           sampleConfig (8, 0) (8, 0) 8 0); reflexivity.
Defined.

(** C8 as stated fails for a window that crosses midnight: at 22:00, the
    start minute of the window 22:00 to 06:00, and at 06:00, its end
    minute, an enabled schedule with a group and a server only reads the
    clock: no query, no message. *)
Lemma executeScheduleTask_window_counterexample :
  scheduleEnabled overnightConfig = true
  /\ scheduleGroups overnightConfig <> [] /\ serverList overnightConfig <> []
  /\ isTimeOfDay (scheduleStartTime overnightConfig) = true
  /\ isTimeOfDay (scheduleEndTime overnightConfig) = true
  /\ parseTimeToMinutes (scheduleStartTime overnightConfig) = Some (22 * 60 + 0)
  /\ parseTimeToMinutes (scheduleEndTime overnightConfig) = Some (6 * 60 + 0)
  /\ exec (H := sampleHost) (executeScheduleTask (H := wholeSeconds) overnightConfig)
          (22, 0)
     = (Normal tt, (22, 0), [mkCall _ LocalTime])
  /\ exec (H := sampleHost) (executeScheduleTask (H := wholeSeconds) overnightConfig)
          (6, 0)
     = (Normal tt, (6, 0), [mkCall _ LocalTime]).
Proof. repeat split; try reflexivity; discriminate. Qed.

Lemma image_option_precedence_witness :
  let both := {| cs_noPlayers := false; cs_image := true; cs_text := true;
                 cs_clear := false |} in
  let batchBoth := {| csss_list := false; csss_add := None; csss_remove := None;
                      csss_clear := false; csss_image := true; csss_text := true |} in
  existsb isImageCall
    (exec (H := sampleHost)
          (csAction (H := asciiLocale) (H0 := nameOnly) sampleConfig both
                    (Some (utf16 "edgebug.cn:27015"))) (8, 0)).2 = true
  /\ existsb isImageCall
       (exec (H := sampleHost)
             (csssAction (H := wholeSeconds) sampleConfig batchBoth []) (8, 0)).2 = true.
Proof.
  intros both batchBoth.
  destruct (image_option_precedence (H := sampleHost) (H0 := wholeSeconds)
              (H1 := asciiLocale) (H2 := nameOnly) sampleConfig) as [Hcs Hcsss].
  split.
  - destruct (Hcs both (utf16 "edgebug.cn:27015") (utf16 "edgebug.cn") 27015
                sampleData (8, 0) (8, 0)) as (_ & Himage & _);
      [discriminate|reflexivity|reflexivity|reflexivity|].
    apply Himage. reflexivity.
  - destruct (Hcsss batchBoth [] (8, 0)) as (_ & Himage & _);
      [reflexivity|left; reflexivity|reflexivity|reflexivity|right; discriminate|].
    apply Himage. reflexivity.
Defined.

(* ===================================================================== *)
(** ** Further properties of parseAddress and of the cache key            *)
(* ===================================================================== *)

Lemma splitBranch_port_range input address host port :
  splitBranch input address = Normal (host, port) -> portInRange port = true.
Proof.
  unfold splitBranch.
  destruct (split (ch ":") address) as [|a [|b [|c l]]]; cbn; try discriminate.
  - intros [= _ <-]. reflexivity.
  - destruct (parseInt b) as [p|]; [|discriminate].
    destruct (portInRange p) eqn:Hp; [|discriminate]. now intros [= _ <-].
Qed.

Lemma splitBranch_error input address e :
  splitBranch input address = Thrown e -> e = newError (invalidAddressMessage input).
Proof.
  unfold splitBranch.
  destruct (split (ch ":") address) as [|a [|b [|c l]]]; cbn; try (now intros [= <-]).
  destruct (parseInt b) as [p|]; [|now intros [= <-]].
  destruct (portInRange p); [discriminate|now intros [= <-]].
Qed.

(** X1: whatever the input, a host and port that [parseAddress] returns has its
    port between 1 and 65535. *)
Theorem parseAddress_port_range input host port :
  parseAddress input = Normal (host, port) -> 1 <= port <= 65535.
Proof.
  intros Hp. assert (Hr : portInRange port = true).
  { unfold parseAddress in Hp.
    destruct (includes (ch "[") (stripScheme input));
      [|now apply splitBranch_port_range in Hp].
    destruct (matchBracketed (stripScheme input)) as [[h g]|];
      [|now apply splitBranch_port_range in Hp].
    destruct (match g with Some ds => parseInt ds | None => Some defaultPort end)
      as [p|]; [|now apply splitBranch_port_range in Hp].
    destruct (portInRange p) eqn:Hpr; [|now apply splitBranch_port_range in Hp].
    now injection Hp as _ <-. }
  unfold portInRange in Hr. lia.
Qed.

Lemma parseAddress_port_range_witness :
  parseAddress (utf16 "udp://[2001:db8::1]:27016") = Normal (utf16 "2001:db8::1", 27016)
  /\ 1 <= 27016 <= 65535.
Proof.
  split; [reflexivity|].
  apply (parseAddress_port_range (utf16 "udp://[2001:db8::1]:27016") (utf16 "2001:db8::1")).
  reflexivity.
Defined.

Lemma parseAddress_thrown input e :
  parseAddress input = Thrown e -> e = newError (invalidAddressMessage input).
Proof.
  unfold parseAddress.
  destruct (includes (ch "[") (stripScheme input)); [|apply splitBranch_error].
  destruct (matchBracketed (stripScheme input)) as [[h g]|]; [|apply splitBranch_error].
  destruct (match g with Some ds => parseInt ds | None => Some defaultPort end)
    as [p|]; [|apply splitBranch_error].
  destruct (portInRange p); [discriminate|apply splitBranch_error].
Qed.

(** X2: the only error [parseAddress] throws is the one whose message quotes
    the input as it was given, scheme prefix included. *)
Theorem parseAddress_error_names_input input e :
  parseAddress input = Thrown e -> e = newError (invalidAddressMessage input).
Proof. apply parseAddress_thrown. Qed.

Lemma parseAddress_error_names_input_witness :
  parseAddress (utf16 "tcp://a:b:c")
  = Thrown (newError (invalidAddressMessage (utf16 "tcp://a:b:c")))
  /\ newError (invalidAddressMessage (utf16 "tcp://a:b:c"))
     = newError (invalidAddressMessage (utf16 "tcp://a:b:c")).
Proof.
  split; [reflexivity|].
  apply (parseAddress_error_names_input (utf16 "tcp://a:b:c")). reflexivity.
Defined.

Lemma dropWhile_app_stop p h c r :
  forallb p h = true -> p c = false -> dropWhile p (h ++ c :: r) = c :: r.
Proof.
  intros Hh Hc. induction h as [|x h IH]; cbn in *; [now rewrite Hc|].
  destruct (p x); [|discriminate]. now apply IH.
Qed.

Lemma no_occurrence_forallb c s :
  occurrences c s = O -> forallb (fun x => negb (x =? c)%N) s = true.
Proof.
  induction s as [|x s IH]; [reflexivity|]. cbn.
  destruct (x =? c)%N; [discriminate|]. exact IH.
Qed.

Lemma matchBracketed_form host tail :
  host <> [] -> occurrences (ch "]") host = O ->
  matchBracketed (ch "[" :: host ++ ch "]" :: tail)
  = match tail with
    | [] => Some (host, None)
    | c' :: ds =>
      if ((c' =? ch ":")%N && negb (Nat.eqb (List.length ds) 0)
          && forallb isDigit ds)%bool
      then Some (host, Some ds) else None
    end.
Proof.
  intros Hne Hc. unfold matchBracketed. rewrite N.eqb_refl.
  rewrite takeWhile_app_stop, dropWhile_app_stop;
    try (now apply no_occurrence_forallb); try (now rewrite N.eqb_refl).
  destruct host as [|h hs]; [congruence|reflexivity].
Qed.

Lemma stripScheme_bracket s : stripScheme (ch "[" :: s) = ch "[" :: s.
Proof. reflexivity. Qed.

(** X3: bracketed hosts: [[host]] parses to the text between the
    brackets with port 27015, [[host]:port] with a decimal port of value 1
    to 65535 to that host and port, whatever colons the host holds; with a
    port of value 0 or above 65535 the bracketed form fails. *)
Theorem parseAddress_bracketed host :
  host <> [] -> occurrences (ch "]") host = O ->
  parseAddress (ch "[" :: host ++ [ch "]"]) = Normal (host, 27015)
  /\ forall ds,
       ds <> [] -> forallb isDigit ds = true ->
       (1 <= digitsValue 10 ds <= 65535 ->
        parseAddress (ch "[" :: host ++ ch "]" :: ch ":" :: ds)
        = Normal (host, digitsValue 10 ds))
       /\ (digitsValue 10 ds = 0 \/ 65535 < digitsValue 10 ds ->
           parseAddress (ch "[" :: host ++ ch "]" :: ch ":" :: ds)
           = Thrown (newError (invalidAddressMessage
                                 (ch "[" :: host ++ ch "]" :: ch ":" :: ds)))).
Proof.
  intros Hne Hc. split.
  - unfold parseAddress. rewrite stripScheme_bracket.
    cbn [includes existsb]. rewrite N.eqb_refl. cbn [orb].
    now rewrite (matchBracketed_form host [] Hne Hc).
  - intros ds Hds Hdig.
    assert (Hm : matchBracketed (ch "[" :: host ++ ch "]" :: ch ":" :: ds)
                 = Some (host, Some ds)).
    { rewrite (matchBracketed_form host _ Hne Hc), N.eqb_refl, Hdig.
      destruct ds; [congruence|reflexivity]. }
    split.
    + intros Hr. unfold parseAddress. rewrite stripScheme_bracket.
      cbn [includes existsb]. rewrite N.eqb_refl. cbn [orb].
      rewrite Hm, (parseInt_digits _ Hds Hdig). unfold portInRange.
      replace (1 <=? digitsValue 10 ds) with true by lia.
      now replace (digitsValue 10 ds <=? 65535) with true by lia.
    + intros Hr.
      destruct (parseAddress (ch "[" :: host ++ ch "]" :: ch ":" :: ds))
        as [[h p]|e] eqn:Hp.
      * exfalso. unfold parseAddress in Hp. rewrite stripScheme_bracket in Hp.
        cbn [includes existsb] in Hp. rewrite N.eqb_refl in Hp. cbn [orb] in Hp.
        rewrite Hm, (parseInt_digits _ Hds Hdig) in Hp.
        assert (Hout : portInRange (digitsValue 10 ds) = false)
          by (unfold portInRange; lia).
        rewrite Hout in Hp. unfold splitBranch in Hp.
        change (ch "[" :: host ++ ch "]" :: ch ":" :: ds)
          with ((ch "[" :: host) ++ ch "]" :: ch ":" :: ds) in Hp.
        replace ((ch "[" :: host) ++ ch "]" :: ch ":" :: ds)
          with (((ch "[" :: host) ++ [ch "]"]) ++ ch ":" :: ds) in Hp
          by (now rewrite <- app_assoc).
        pose proof (split_none (ch ":") ds (digits_no (ch ":") ds eq_refl Hdig)) as Hl2.
        (* every way of splitting ends with the port text [ds] *)
        assert (Hlast : forall s, exists front,
                   split (ch ":") (s ++ ch ":" :: ds) = front ++ [ds]
                   /\ front <> []).
        { clear -Hl2. induction s as [|x s IH]; cbn.
          - rewrite N.eqb_refl, Hl2. now exists [[]].
          - destruct IH as (front & -> & Hf).
            destruct (x =? ch ":")%N.
            + exists ([] :: front). split; [reflexivity|discriminate].
            + destruct front as [|f front]; [congruence|].
              exists ((x :: f) :: front). split; [reflexivity|discriminate]. }
        destruct (Hlast ((ch "[" :: host) ++ [ch "]"])) as (front & Hs & Hf).
        rewrite Hs in Hp.
        destruct front as [|f1 [|f2 front]]; [congruence| |].
        -- cbn in Hp. rewrite (parseInt_digits _ Hds Hdig), Hout in Hp. discriminate.
        -- cbn in Hp. destruct front; discriminate.
      * now rewrite (parseAddress_thrown _ _ Hp).
Qed.

Lemma parseAddress_bracketed_witness :
  parseAddress (utf16 "[::1]") = Normal (utf16 "::1", 27015)
  /\ parseAddress (utf16 "[::1]:27016") = Normal (utf16 "::1", 27016)
  /\ parseAddress (utf16 "[::1]:65536")
     = Thrown (newError (invalidAddressMessage (utf16 "[::1]:65536"))).
Proof.
  destruct (parseAddress_bracketed (utf16 "::1")) as [Hbare Hport];
    [discriminate|reflexivity|].
  split; [exact Hbare|]. split.
  - destruct (Hport (utf16 "27016")) as [Hin _]; [discriminate|reflexivity|].
    apply Hin. split; vm_compute; discriminate.
  - destruct (Hport (utf16 "65536")) as [_ Hout]; [discriminate|reflexivity|].
    apply Hout. right. vm_compute. reflexivity.
Defined.

Lemma splitBranch_input input1 input2 address :
  splitBranch input1 address
  = match splitBranch input2 address with
    | Normal hp => Normal hp
    | Thrown _ => Thrown (newError (invalidAddressMessage input1))
    end.
Proof.
  unfold splitBranch.
  destruct (split (ch ":") address) as [|a [|b [|c l]]]; cbn; try reflexivity.
  destruct (parseInt b) as [p|]; [|reflexivity].
  destruct (portInRange p); reflexivity.
Qed.

Lemma parseAddress_same_address input1 input2 :
  stripScheme input1 = stripScheme input2 ->
  parseAddress input1
  = match parseAddress input2 with
    | Normal hp => Normal hp
    | Thrown _ => Thrown (newError (invalidAddressMessage input1))
    end.
Proof.
  intros Hs. unfold parseAddress. rewrite Hs.
  destruct (includes (ch "[") (stripScheme input2)); [|apply splitBranch_input].
  destruct (matchBracketed (stripScheme input2)) as [[h g]|]; [|apply splitBranch_input].
  destruct (match g with Some ds => parseInt ds | None => Some defaultPort end)
    as [p|]; [|apply splitBranch_input].
  destruct (portInRange p); [reflexivity|apply splitBranch_input].
Qed.

Lemma stripScheme_once scheme rest :
  In scheme [utf16 "http://"; utf16 "https://"; utf16 "udp://"; utf16 "tcp://"] ->
  stripScheme (scheme ++ rest) = rest.
Proof. intros [<-|[<-|[<-|[<-|[]]]]]; reflexivity. Qed.

(** An address that still begins with a scheme prefix is not an address. *)
Lemma splitBranch_scheme input scheme rest :
  In scheme [utf16 "http://"; utf16 "https://"; utf16 "udp://"; utf16 "tcp://"] ->
  matchBracketed (scheme ++ rest) = None
  /\ splitBranch input (scheme ++ rest)
     = Thrown (newError (invalidAddressMessage input)).
Proof.
  intros Hin.
  assert (Hcut : exists name, occurrences (ch ":") name = O
                   /\ scheme ++ rest = name ++ ch ":" :: utf16 "//" ++ rest
                   /\ matchBracketed (scheme ++ rest) = None).
  { destruct Hin as [<-|[<-|[<-|[<-|[]]]]];
      [exists (utf16 "http")|exists (utf16 "https")
       |exists (utf16 "udp")|exists (utf16 "tcp")]; repeat split. }
  destruct Hcut as (name & Hname & -> & Hm). split; [exact Hm|].
  destruct (occurrences (ch ":") rest) as [|n] eqn:Hrest.
  - rewrite splitBranch_host_port;
      [|exact Hname|rewrite occurrences_app, Hrest; reflexivity].
    now rewrite parseInt_no_number by (repeat split; discriminate).
  - apply splitBranch_many. rewrite occurrences_app. cbn [occurrences].
    rewrite N.eqb_refl, occurrences_app, Hrest. lia.
Qed.

(** X4: exactly one scheme prefix, [http://], [https://], [udp://] or
    [tcp://], is taken off before parsing.  When what follows has no scheme
    prefix of its own, the input parses to what the rest parses to, and
    when the rest does not parse the error quotes the whole input, prefix
    included.  A second prefix is not taken off, and an input with two
    never parses. *)
Theorem parseAddress_scheme scheme rest :
  In scheme [utf16 "http://"; utf16 "https://"; utf16 "udp://"; utf16 "tcp://"] ->
  stripScheme (scheme ++ rest) = rest
  /\ (stripScheme rest = rest ->
      parseAddress (scheme ++ rest)
      = match parseAddress rest with
        | Normal hp => Normal hp
        | Thrown _ => Thrown (newError (invalidAddressMessage (scheme ++ rest)))
        end)
  /\ (forall scheme2 rest2,
         In scheme2 [utf16 "http://"; utf16 "https://"; utf16 "udp://"; utf16 "tcp://"] ->
         rest = scheme2 ++ rest2 ->
         parseAddress (scheme ++ rest)
         = Thrown (newError (invalidAddressMessage (scheme ++ rest)))).
Proof.
  intros Hin. pose proof (stripScheme_once scheme rest Hin) as Hstrip.
  split; [exact Hstrip|]. split.
  - intros Hrest. apply parseAddress_same_address. now rewrite Hrest.
  - intros scheme2 rest2 Hin2 ->. unfold parseAddress. rewrite Hstrip.
    destruct (splitBranch_scheme (scheme ++ scheme2 ++ rest2) scheme2 rest2 Hin2)
      as [-> ->].
    now destruct (includes (ch "[") (scheme2 ++ rest2)).
Qed.

Lemma parseAddress_scheme_witness :
  parseAddress (utf16 "udp://edgebug.cn:27016") = Normal (utf16 "edgebug.cn", 27016)
  /\ parseAddress (utf16 "https://edgebug.cn:0")
     = Thrown (newError (invalidAddressMessage (utf16 "https://edgebug.cn:0")))
  /\ parseAddress (utf16 "http://" ++ utf16 "udp://" ++ utf16 "edgebug.cn")
     = Thrown (newError (invalidAddressMessage
                           (utf16 "http://" ++ utf16 "udp://" ++ utf16 "edgebug.cn")))
  /\ parseAddress (utf16 "udp://" ++ utf16 "edgebug.cn")
     = Normal (utf16 "edgebug.cn", 27015).
Proof.
  destruct (parseAddress_scheme (utf16 "udp://") (utf16 "edgebug.cn:27016"))
    as (_ & Hport & _); [right; right; left; reflexivity|].
  destruct (parseAddress_scheme (utf16 "https://") (utf16 "edgebug.cn:0"))
    as (_ & Hzero & _); [right; left; reflexivity|].
  destruct (parseAddress_scheme (utf16 "http://") (utf16 "udp://" ++ utf16 "edgebug.cn"))
    as (_ & _ & Htwice); [left; reflexivity|].
  destruct (parseAddress_scheme (utf16 "udp://") (utf16 "edgebug.cn"))
    as (_ & Hone & _); [right; right; left; reflexivity|].
  split; [exact (Hport eq_refl)|]. split; [exact (Hzero eq_refl)|].
  split; [|exact (Hone eq_refl)].
  apply (Htwice (utf16 "udp://") (utf16 "edgebug.cn"));
    [right; right; left; reflexivity|reflexivity].
Defined.

(** *** Numbers in decimal *)

Lemma units_of_uint_digits u : forallb isDigit (units_of_uint u) = true.
Proof. induction u; cbn; auto. Qed.

Lemma units_of_uint_inj u v : units_of_uint u = units_of_uint v -> u = v.
Proof.
  revert v. induction u; intros v; destruct v; cbn; intros Huv;
    try discriminate; try reflexivity;
    (injection Huv as Huv; f_equal; now apply IHu).
Qed.

Lemma digitsValue_acc u acc :
  fold_left (fun a c => a * 10 + default 0 (digitValue 10 c)) (units_of_uint u) (Z.pos acc)
  = Z.pos (Pos.of_uint_acc u acc).
Proof.
  revert acc. induction u; intros acc; cbn [units_of_uint fold_left Pos.of_uint_acc];
    [reflexivity|..];
    match goal with
    | |- context [digitValue 10 (digit_unit ?k)] =>
      let v := eval vm_compute in (digitValue 10 (digit_unit k)) in
      change (digitValue 10 (digit_unit k)) with v
    end; cbn [default from_option id];
    rewrite <- IHu; f_equal; lia.
Qed.

Lemma digitsValue_of_uint u :
  digitsValue 10 (units_of_uint u) = Z.of_N (Pos.of_uint u).
Proof.
  unfold digitsValue.
  induction u; cbn [units_of_uint fold_left Pos.of_uint]; [reflexivity|..];
    match goal with
    | |- context [digitValue 10 (digit_unit ?k)] =>
      let v := eval vm_compute in (digitValue 10 (digit_unit k)) in
      change (digitValue 10 (digit_unit k)) with v
    end; cbn [default from_option id];
    [exact IHu|..];
    match goal with
    | |- fold_left _ _ ?a = _ =>
      let v := eval vm_compute in a in change a with v
    end; apply digitsValue_acc.
Qed.

Lemma numberToString_pos p :
  numberToString (Z.pos p) <> []
  /\ forallb isDigit (numberToString (Z.pos p)) = true
  /\ digitsValue 10 (numberToString (Z.pos p)) = Z.pos p.
Proof.
  cbn [numberToString]. split; [|split].
  - intros Hn. apply (Unsigned.to_uint_nonnil p).
    destruct (Pos.to_uint p); try discriminate. reflexivity.
  - apply units_of_uint_digits.
  - now rewrite digitsValue_of_uint, Unsigned.of_to.
Qed.

Lemma numberToString_no_colon z : occurrences (ch ":") (numberToString z) = O.
Proof.
  destruct z as [|p|p]; cbn [numberToString]; [reflexivity| |].
  - apply digits_no; [reflexivity|apply units_of_uint_digits].
  - cbn [occurrences]. change (ch "-" =? ch ":")%N with false.
    apply digits_no; [reflexivity|apply units_of_uint_digits].
Qed.

Lemma numberToString_inj z1 z2 : numberToString z1 = numberToString z2 -> z1 = z2.
Proof.
  assert (Hpos : forall p, exists c r, units_of_uint (Pos.to_uint p) = c :: r
                                       /\ isDigit c = true).
  { intros p. pose proof (Unsigned.to_uint_nonnil p) as Hn.
    pose proof (units_of_uint_digits (Pos.to_uint p)) as Hd.
    destruct (Pos.to_uint p); try congruence; cbn in *; eauto. }
  assert (Hzero : forall p, units_of_uint (Pos.to_uint p) <> [digit_unit 0]).
  { intros p Hp. apply (Unsigned.to_uint_nonzero p).
    apply units_of_uint_inj. exact Hp. }
  destruct z1 as [|p|p], z2 as [|q|q]; cbn [numberToString]; intros Hz;
    try reflexivity.
  - symmetry in Hz. now apply Hzero in Hz.
  - discriminate.
  - now apply Hzero in Hz.
  - apply units_of_uint_inj, Unsigned.to_uint_inj in Hz. now subst.
  - destruct (Hpos p) as (c & r & Hp & Hc). rewrite Hp in Hz.
    injection Hz as -> _. discriminate.
  - discriminate.
  - destruct (Hpos q) as (c & r & Hq & Hc). rewrite Hq in Hz.
    injection Hz as <- _. discriminate.
  - injection Hz as Hz. apply units_of_uint_inj, Unsigned.to_uint_inj in Hz. now subst.
Qed.

Lemma app_sep_unique sep a b x y :
  occurrences sep x = O -> occurrences sep y = O ->
  a ++ sep :: x = b ++ sep :: y -> a = b /\ x = y.
Proof.
  intros Hx Hy. revert b. induction a as [|c a IH]; intros [|d b]; cbn.
  - now intros [= ->].
  - intros [= <- ->]. rewrite occurrences_app in Hx. cbn in Hx.
    rewrite N.eqb_refl in Hx. lia.
  - intros [= -> <-]. rewrite occurrences_app in Hy. cbn in Hy.
    rewrite N.eqb_refl in Hy. lia.
  - intros [= -> Hab]. destruct (IH _ Hab) as [-> ->]. now split.
Qed.

(** X5: two addresses share a cache entry only if they are the same host and
    the same port: the key [`${host}:${port}`] determines both, whatever
    colons the host holds. *)
Theorem cacheKey_injective host1 port1 host2 port2 :
  cacheKey host1 port1 = cacheKey host2 port2 -> host1 = host2 /\ port1 = port2.
Proof.
  unfold cacheKey. cbn [app]. intros Hk.
  apply app_sep_unique in Hk as [-> Hn]; try apply numberToString_no_colon.
  split; [reflexivity|now apply numberToString_inj].
Qed.

Lemma cacheKey_injective_witness :
  cacheKey (utf16 "::1") 27015 = cacheKey (utf16 "::1") 27015
  /\ utf16 "::1" = utf16 "::1" /\ 27015 = 27015.
Proof.
  split; [reflexivity|].
  apply (cacheKey_injective (utf16 "::1") 27015 (utf16 "::1") 27015). reflexivity.
Defined.

(** X6: the key under which a result is cached reads back as its address: for
    a host without colon or opening bracket and a port from 1 to 65535,
    [parseAddress] of [`${host}:${port}`] is that host and port. *)
Theorem parseAddress_cacheKey host port :
  occurrences (ch ":") host = O -> includes (ch "[") host = false ->
  1 <= port <= 65535 ->
  parseAddress (cacheKey host port) = Normal (host, port).
Proof.
  intros Hh Hb Hr. destruct port as [|p|p]; try lia.
  destruct (numberToString_pos p) as (Hne & Hdig & Hval).
  unfold cacheKey. cbn [app].
  rewrite parseAddress_unbracketed; rewrite stripScheme_host_port; try exact Hh.
  - rewrite splitBranch_host_port; [|exact Hh|now apply digits_no].
    rewrite (parseInt_digits _ Hne Hdig), Hval. unfold portInRange.
    replace (1 <=? Z.pos p) with true by lia.
    now replace (Z.pos p <=? 65535) with true by lia.
  - destruct (numberToString (Z.pos p)) as [|c r] eqn:Hn; [exact I|].
    now apply (digits_first_not c r).
  - rewrite includes_app, Hb. cbn [includes existsb orb].
    change (ch "[" =? ch ":")%N with false. cbn [orb].
    now apply digits_not_included.
  - destruct (numberToString (Z.pos p)) as [|c r] eqn:Hn; [exact I|].
    now apply (digits_first_not c r).
Qed.

Lemma parseAddress_cacheKey_witness :
  parseAddress (cacheKey (utf16 "edgebug.cn") 27015) = Normal (utf16 "edgebug.cn", 27015).
Proof.
  apply (parseAddress_cacheKey (utf16 "edgebug.cn") 27015);
    [reflexivity|reflexivity|split; vm_compute; discriminate].
Defined.

(* ===================================================================== *)
(** ** Further properties of queryServer                                  *)
(* ===================================================================== *)

Section QueryServerCache.
Context `{World}.

(** What a call can do to the cache: nothing, or, when it returns data it
    just queried with caching on, one write under its own key. *)
Lemma queryServer_cache_change config host port (s : Store) :
  let '(out, s') := run (queryServer config host port) s in
  cache s' = cache s
  \/ (exists d, out = Normal d
                /\ cache s' = <[cacheKey host port
                                := {| timestamp := clock (world s); data := d |}]> (cache s)).
Proof.
  destruct (cachedData config host port s) as [d|] eqn:Hc.
  - rewrite (queryServer_hit _ _ _ _ _ Hc). now left.
  - rewrite (queryServer_miss _ _ _ _ Hc).
    destruct (Z.to_nat (retryCount config + 1)) as [|remaining] eqn:Hn.
    + cbn. now left.
    + destruct (attemptLoop_shape remaining config host port (clock (world s)) 0 None s)
        as (errs & last & Hshape); [lia|].
      destruct (run _ s) as [out s']. destruct Hshape as (_ & _ & Hlast).
      destruct last as [res|e].
      * destruct Hlast as [-> Hcache]. destruct (0 <? cacheTime config); eauto.
      * destruct Hlast as (_ & _ & Hcache). now left.
Qed.

Lemma queryServer_thrown_cache config host port (s s' : Store) e :
  run (queryServer config host port) s = (Thrown e, s') -> cache s' = cache s.
Proof.
  intros Hrun. pose proof (queryServer_cache_change config host port s) as Hc.
  rewrite Hrun in Hc. destruct Hc as [Hc|(d & Hd & _)]; [exact Hc|discriminate].
Qed.

(** X7: a call for one address leaves the cache entries of every other
    address as they were. *)
Theorem queryServer_other_keys config host port (s : Store) key :
  key <> cacheKey host port ->
  cache (run (queryServer config host port) s).2 !! key = cache s !! key.
Proof.
  intros Hk. pose proof (queryServer_cache_change config host port s) as Hc.
  destruct (run (queryServer config host port) s) as [out s']. cbn.
  destruct Hc as [->|(d & _ & ->)]; [reflexivity|].
  now apply lookup_insert_ne.
Qed.

(** X8: a call that fails, every attempt having failed, leaves the whole cache
    as it was: an entry that had gone stale is neither removed nor
    refreshed. *)
Theorem queryServer_failure_keeps_cache config host port (s s' : Store) e :
  run (queryServer config host port) s = (Thrown e, s') -> cache s' = cache s.
Proof. apply queryServer_thrown_cache. Qed.

(** X9: with [cacheTime] at 0 (or below) the cache is neither read nor written:
    the collaborator is asked even when an entry for the address exists,
    and the cache is the same after the call. *)
Theorem queryServer_cache_disabled config host port (s : Store) :
  cacheTime config <= 0 ->
  0 <= retryCount config ->
  let '(out, s') := run (queryServer config host port) s in
  cache s' = cache s
  /\ exists answer rest,
       trace s' = trace s ++ EvQuery (queryOptions config host port) answer :: rest.
Proof.
  intros Hc Hr.
  assert (Hmiss : cachedData config host port s = None).
  { unfold cachedData. now replace (0 <? cacheTime config) with false by lia. }
  rewrite (queryServer_miss _ _ _ _ Hmiss).
  destruct (Z.to_nat (retryCount config + 1)) as [|remaining] eqn:Hn; [lia|].
  destruct (attemptLoop_shape remaining config host port (clock (world s)) 0 None s)
    as (errs & last & Hshape); [lia|].
  destruct (run _ s) as [out s']. destruct Hshape as (Htr & _ & Hlast). split.
  - destruct last as [res|e].
    + destruct Hlast as [_ ->]. now replace (0 <? cacheTime config) with false by lia.
    + now destruct Hlast as (_ & _ & ->).
  - destruct errs as [|e errs].
    + exists last, []. exact Htr.
    + exists (Thrown e). eexists. rewrite Htr. cbn. reflexivity.
Qed.

End QueryServerCache.

Lemma queryServer_other_keys_witness :
  utf16 "edgebug.cn:27016" <> cacheKey (utf16 "edgebug.cn") 27015
  /\ cache (run (queryServer sampleConfig (utf16 "edgebug.cn") 27015)
                (emptyStore failTwiceThenAnswer)).2 !! utf16 "edgebug.cn:27016"
     = cache (emptyStore failTwiceThenAnswer) !! utf16 "edgebug.cn:27016".
Proof.
  assert (Hne : utf16 "edgebug.cn:27016" <> cacheKey (utf16 "edgebug.cn") 27015)
    by (vm_compute; discriminate).
  split; [exact Hne|].
  apply (queryServer_other_keys sampleConfig (utf16 "edgebug.cn") 27015
           (emptyStore failTwiceThenAnswer) (utf16 "edgebug.cn:27016") Hne).
Defined.

Lemma queryServer_failure_keeps_cache_witness :
  let s := cachedStore 0 alwaysTimeOut in
  let r := run (queryServer sampleConfig (utf16 "edgebug.cn") 27015) s in
  r.1 = Thrown (newError (utf16 "无法连接到服务器: 未知错误"))
  /\ cache r.2 = cache s
  /\ cache r.2 !! cacheKey (utf16 "edgebug.cn") 27015
     = Some {| timestamp := 0; data := sampleData |}.
Proof.
  intros s r.
  assert (Hrun : run (queryServer sampleConfig (utf16 "edgebug.cn") 27015) s
                 = (Thrown (newError (utf16 "无法连接到服务器: 未知错误")), r.2))
    by (vm_compute; reflexivity).
  pose proof (queryServer_failure_keeps_cache sampleConfig (utf16 "edgebug.cn") 27015
                s r.2 _ Hrun) as Hkeep.
  split; [vm_compute; reflexivity|]. split; [exact Hkeep|].
  rewrite Hkeep. vm_compute. reflexivity.
Defined.

Lemma queryServer_cache_disabled_witness :
  let s := cachedStore 99999 failTwiceThenAnswer in
  cacheTime noCacheConfig <= 0
  /\ 0 <= retryCount noCacheConfig
  /\ let '(out, s') := run (queryServer noCacheConfig (utf16 "edgebug.cn") 27015) s in
     cache s' = cache s
     /\ exists answer rest,
          trace s' = trace s
                     ++ EvQuery (queryOptions noCacheConfig (utf16 "edgebug.cn") 27015)
                                answer :: rest.
Proof.
  intros s. split; [vm_compute; discriminate|]. split; [vm_compute; discriminate|].
  apply (queryServer_cache_disabled noCacheConfig (utf16 "edgebug.cn") 27015 s);
    vm_compute; discriminate.
Defined.

(* ===================================================================== *)
(** ** Further properties of the batch fan-out                            *)
(* ===================================================================== *)

Section PoolMore.
Context `{World}.

(** The first turn of [queryServer]: the cached data at once, or parked on
    the first attempt (for a non-negative [retryCount]); the store is not
    touched either way. *)
Lemma advance_queryServer config host port (s : Store) :
  0 <= retryCount config ->
  match cachedData config host port s with
  | Some d => advance (queryServer config host port) s = (Ret d, s)
  | None =>
    exists k, advance (queryServer config host port) s
              = (Vis (GamedigQuery (queryOptions config host port)) k, s)
  end.
Proof.
  intros Hr. unfold cachedData, queryServer.
  cbn -[Z.ltb freshEntry attemptLoop queryOptions].
  assert (Hloop : exists k,
    advance (attemptLoop config host port (clock (world s))
               (Z.to_nat (retryCount config + 1)) 0 None) s
    = (Vis (GamedigQuery (queryOptions config host port)) k, s)).
  { destruct (Z.to_nat (retryCount config + 1)) as [|n] eqn:Hn; [lia|].
    cbn -[queryOptions]. eauto. }
  destruct (0 <? cacheTime config); cbn -[Z.ltb freshEntry attemptLoop queryOptions].
  - destruct (freshEntry config (clock (world s)) (cache s !! cacheKey host port));
      [reflexivity|exact Hloop].
  - exact Hloop.
Qed.

Lemma advance_queryTask config i srv (s : Store) :
  0 <= retryCount config ->
  (advance (queryTask config i srv) s).2 = s
  /\ forall host port,
       parseAddress srv = Normal (host, port) ->
       cachedData config host port s = None ->
       exists k, (advance (queryTask config i srv) s).1
                 = Vis (GamedigQuery (queryOptions config host port)) k.
Proof.
  intros Hr. unfold queryTask. rewrite advance_tryCatch.
  destruct (parseAddress srv) as [[host port]|e] eqn:Hp; cbn [ofCompletion bind].
  - rewrite advance_bind. cbn [fst snd].
    pose proof (advance_queryServer config host port s Hr) as Hq.
    destruct (cachedData config host port s) as [d|] eqn:Hc.
    + rewrite Hq. cbn. split; [reflexivity|]. intros h' p' [= <- <-]. congruence.
    + destruct Hq as (k & ->). cbn. split; [reflexivity|].
      intros h' p' [= <- <-] _. eauto.
  - cbn. split; [reflexivity|]. discriminate.
Qed.

Lemma spawn_store config (s : Store) servers i0 :
  0 <= retryCount config ->
  (spawn (imap (fun i => queryTask config (i0 + i)) servers) s).2 = s
  /\ forall i srv, servers !! i = Some srv ->
       (spawn (imap (fun i => queryTask config (i0 + i)) servers) s).1 !! i
       = Some (advance (queryTask config (i0 + i) srv) s).1.
Proof.
  intros Hr. revert i0. induction servers as [|srv servers IH]; intros i0; cbn.
  - split; [reflexivity|]. discriminate.
  - destruct (advance_queryTask config (i0 + 0) srv s Hr) as [Hs _].
    destruct (advance (queryTask config (i0 + 0) srv) s) as [p1 s1] eqn:Ha.
    cbn in Hs. subst s1.
    assert (Hext : imap ((fun i => queryTask config (i0 + i)) ∘ S) servers
                   = imap (fun i => queryTask config (S i0 + i)) servers).
    { apply imap_ext. intros j x _. cbn. f_equal. lia. }
    rewrite Hext. destruct (IH (S i0)) as [Hstore Hat].
    destruct (spawn _ s) as [rest s2]. cbn in *. subst s2.
    split; [reflexivity|]. intros [|i] srv' Hi; cbn in *.
    + injection Hi as <-. now rewrite Ha.
    + specialize (Hat _ _ Hi).
      replace (i0 + S i)%nat with (S i0 + i)%nat by lia. exact Hat.
Qed.

(** X10: starting a batch asks nothing of the cache but reads: the store is as
    before, and every task whose address parses and has no fresh entry is
    left waiting on a query of its own.  Two tasks for the same address
    therefore both ask the collaborator. *)
Theorem queryServers_no_deduplication config servers (s : Store) :
  0 <= retryCount config ->
  (spawn (queryTasks config servers) s).2 = s
  /\ forall i srv host port,
       servers !! i = Some srv ->
       parseAddress srv = Normal (host, port) ->
       cachedData config host port s = None ->
       exists k, (spawn (queryTasks config servers) s).1 !! i
                 = Some (Vis (GamedigQuery (queryOptions config host port)) k).
Proof.
  intros Hr. destruct (spawn_store config s servers 0 Hr) as [Hstore Hat].
  unfold queryTasks.
  change (imap (queryTask config) servers)
    with (imap (fun i => queryTask config (0 + i)) servers).
  split; [exact Hstore|].
  intros i srv host port Hi Hp Hc.
  rewrite (Hat _ _ Hi). cbn [Nat.add].
  destruct (advance_queryTask config i srv s Hr) as [_ Hq].
  destruct (Hq host port Hp Hc) as (k & ->). eauto.
Qed.

Lemma resume_awaits {A} ns (ts ts' : list (Async QEff A)) (s s' : Store) :
  Forall2 AwaitsWithin ns ts -> resume (ts, s) (ts', s') ->
  exists ns', Forall2 AwaitsWithin ns' ts' /\ S (sum_list ns') = sum_list ns.
Proof.
  intros Hw Hr. inversion Hr as [ts0 s0 j X e k x s1 p' s2 Hj He Hh Ha]; subst.
  destruct (Forall2_lookup_r _ _ _ _ _ Hw Hj) as (n & Hn & Hwj).
  cbn in Hwj. rewrite He in Hwj. destruct n as [|m]; [contradiction|].
  exists (<[j := m]> ns). split.
  - apply Forall2_insert; [exact Hw|].
    replace p' with (advance (k x) s1).1 by now rewrite Ha.
    apply advance_awaits, Hwj.
  - pose proof (sum_list_insert ns j (S m) m Hn). lia.
Qed.

Lemma nsteps_resume_bound {A} k :
  forall ns (ts ts' : list (Async QEff A)) (s s' : Store),
    Forall2 AwaitsWithin ns ts -> nsteps resume k (ts, s) (ts', s') ->
    (k <= sum_list ns)%nat.
Proof.
  induction k as [|k IH]; intros ns ts ts' s s' Hw Hn; [lia|].
  inversion Hn as [|? ? [ts1 s1] ? Hstep Hrest]; subst.
  destruct (resume_awaits ns ts ts1 s s1 Hw Hstep) as (ns' & Hw' & Hsum).
  specialize (IH ns' ts1 ts' s1 s' Hw' Hrest). lia.
Qed.

(** X11: whatever order the event loop picks, a batch is resumed at most
    [2 * (retryCount + 1)] times per address before everything in it has
    settled: no schedule keeps it running for ever. *)
Theorem queryServers_bounded config servers (s0 : Store) k ts s :
  nsteps resume k (spawn (queryTasks config servers) s0) (ts, s) ->
  (k <= List.length servers * (2 * Z.to_nat (retryCount config + 1)))%nat.
Proof.
  intros Hn.
  destruct (spawn (queryTasks config servers) s0) as [ts0 s1] eqn:Hsp.
  destruct (spawn_awaits (2 * Z.to_nat (retryCount config + 1))
              (queryTasks config servers) s0) as [Hw _].
  { apply Forall_lookup. intros i t Hi. unfold queryTasks in Hi.
    rewrite list_lookup_imap in Hi.
    destruct (servers !! i) as [srv|]; [|discriminate].
    injection Hi as <-. apply queryTask_awaits. }
  rewrite Hsp in Hw. cbn in Hw.
  pose proof (nsteps_resume_bound k _ _ _ _ _ Hw Hn) as Hb.
  unfold queryTasks in Hb. rewrite length_imap in Hb.
  rewrite sum_list_replicate in Hb. lia.
Qed.

End PoolMore.

Lemma queryServers_no_deduplication_witness :
  let s := emptyStore failTwiceThenAnswer in
  let o := queryOptions sampleConfig (utf16 "edgebug.cn") 27015 in
  0 <= retryCount sampleConfig
  /\ (spawn (queryTasks sampleConfig twiceTheSame) s).2 = s
  /\ (exists k, (spawn (queryTasks sampleConfig twiceTheSame) s).1 !! 0%nat
                = Some (Vis (GamedigQuery o) k))
  /\ (exists k, (spawn (queryTasks sampleConfig twiceTheSame) s).1 !! 1%nat
                = Some (Vis (GamedigQuery o) k)).
Proof.
  intros s o.
  assert (Hr : 0 <= retryCount sampleConfig) by (vm_compute; discriminate).
  destruct (queryServers_no_deduplication sampleConfig twiceTheSame s Hr)
    as [Hstore Hat].
  split; [exact Hr|]. split; [exact Hstore|]. split.
  - apply (Hat 0%nat (utf16 "edgebug.cn:27015") (utf16 "edgebug.cn") 27015);
      reflexivity.
  - apply (Hat 1%nat (utf16 "edgebug.cn:27015") (utf16 "edgebug.cn") 27015);
      reflexivity.
Defined.

Lemma queryServers_bounded_witness :
  exists ts s,
    nsteps resume 1 (spawn (queryTasks sampleConfig twiceTheSame)
                           (emptyStore failTwiceThenAnswer)) (ts, s)
    /\ (1 <= List.length twiceTheSame * (2 * Z.to_nat (retryCount sampleConfig + 1)))%nat.
Proof.
  assert (Hstep : exists ts s,
             nsteps resume 1 (spawn (queryTasks sampleConfig twiceTheSame)
                                    (emptyStore failTwiceThenAnswer)) (ts, s)).
  { do 2 eexists. apply nsteps_once.
    eapply (resume_task _ _ 0%nat); [reflexivity|reflexivity|reflexivity|reflexivity]. }
  destruct Hstep as (ts & s & Hstep). exists ts, s. split; [exact Hstep|].
  apply (queryServers_bounded sampleConfig twiceTheSame
           (emptyStore failTwiceThenAnswer) 1 ts s Hstep).
Defined.

(* ===================================================================== *)
(** ** Further properties of the text helpers and of the image height     *)
(* ===================================================================== *)

Lemma dropWhile_suffix p s : exists pre, s = pre ++ dropWhile p s.
Proof.
  induction s as [|c r [pre IH]]; cbn; [now exists []|].
  destruct (p c); [|now exists []].
  exists (c :: pre). cbn. now f_equal.
Qed.

Lemma dropWhile_idem p s : dropWhile p (dropWhile p s) = dropWhile p s.
Proof.
  induction s as [|c r IH]; cbn; [reflexivity|].
  destruct (p c) eqn:Hc; [exact IH|]. cbn. now rewrite Hc.
Qed.

Lemma dropWhile_prefix p a b :
  dropWhile p (a ++ b) = a ++ b -> dropWhile p a = a.
Proof.
  destruct a as [|c a]; [reflexivity|]. cbn.
  destruct (p c); [|reflexivity].
  intros Hd. exfalso.
  destruct (dropWhile_suffix p (a ++ b)) as [pre Hpre].
  rewrite Hd in Hpre. apply (f_equal (@List.length N)) in Hpre.
  rewrite !length_app in Hpre. cbn [List.length] in Hpre.
  rewrite ?length_app in Hpre. lia.
Qed.

(** [trim] leaves nothing to trim. *)
Lemma trim_idem s : trim (trim s) = trim s.
Proof.
  unfold trim, trimEnd, trimStart.
  set (t := dropWhile isWhiteSpace s).
  set (u := dropWhile isWhiteSpace (rev t)).
  assert (Hfront : dropWhile isWhiteSpace (rev u) = rev u).
  { destruct (dropWhile_suffix isWhiteSpace (rev t)) as [pre Hpre]. fold u in Hpre.
    assert (Ht : t = rev u ++ rev pre)
      by (rewrite <- rev_app_distr, <- Hpre; symmetry; apply rev_involutive).
    apply (dropWhile_prefix _ _ (rev pre)). rewrite <- Ht. apply dropWhile_idem. }
  rewrite Hfront, rev_involutive. subst u. now rewrite dropWhile_idem.
Qed.

Lemma dropWhile_Forall (P : N -> Prop) p s : Forall P s -> Forall P (dropWhile p s).
Proof.
  induction 1 as [|c r Hc Hr IH]; cbn; [constructor|].
  destruct (p c); [exact IH|now constructor].
Qed.

Lemma trim_Forall (P : N -> Prop) s : Forall P s -> Forall P (trim s).
Proof.
  intros Hs. unfold trim, trimEnd, trimStart.
  apply Forall_rev, dropWhile_Forall, Forall_rev, dropWhile_Forall, Hs.
Qed.

Lemma stripControl_Forall s : Forall (fun c => isControl c = false) (stripControl s).
Proof.
  unfold stripControl. apply List.Forall_forall. intros c Hc.
  apply filter_In in Hc as [_ Hc]. now destruct (isControl c).
Qed.

Lemma cleanName_no_control name : Forall (fun c => isControl c = false) (cleanName name).
Proof.
  assert (Hdefault : Forall (fun c => isControl c = false) (utf16 "未知"))
    by (repeat constructor).
  destruct name as [[|c r]|]; cbn [cleanName]; try exact Hdefault.
  apply trim_Forall, stripControl_Forall.
Qed.

(** X12: a cleaned name holds no control character (no line break, no tab) and
    has no white space at either end; cleaning it again changes nothing
    there. *)
Theorem cleanName_clean name :
  Forall (fun c => isControl c = false) (cleanName name)
  /\ trim (cleanName name) = cleanName name.
Proof.
  split; [apply cleanName_no_control|].
  destruct name as [[|c r]|]; cbn [cleanName]; try reflexivity.
  apply trim_idem.
Qed.

Lemma occurrences_Forall c s :
  Forall (fun x => x <> c) s -> occurrences c s = O.
Proof.
  induction 1 as [|x r Hx Hr IH]; [reflexivity|]. cbn.
  destruct (N.eqb_spec x c); [contradiction|exact IH].
Qed.

Lemma numberToString_no_newline z : occurrences 10%N (numberToString z) = O.
Proof.
  destruct z as [|p|p]; cbn [numberToString]; [reflexivity| |].
  - apply digits_no; [reflexivity|apply units_of_uint_digits].
  - cbn [occurrences]. change (ch "-" =? 10)%N with false.
    apply digits_no; [reflexivity|apply units_of_uint_digits].
Qed.

Lemma occurrences_repeat c x n : x <> c -> occurrences c (repeat x n) = O.
Proof.
  intros Hx. induction n as [|n IH]; [reflexivity|]. cbn.
  destruct (N.eqb_spec x c); [contradiction|exact IH].
Qed.

Lemma occurrences_firstn c n s : occurrences c s = O -> occurrences c (firstn n s) = O.
Proof.
  revert n. induction s as [|x s IH]; intros [|n]; cbn; try reflexivity.
  destruct (x =? c)%N; [discriminate|]. apply IH.
Qed.

Lemma paddedName_no_newline serverData :
  occurrences 10%N (paddedName serverData) = O.
Proof.
  assert (Hname : occurrences 10%N (serverName serverData) = O).
  { unfold serverName. destruct (name serverData) as [[|c r]|]; try reflexivity.
    apply occurrences_Forall.
    eapply Forall_impl; [apply cleanName_no_control|].
    cbn. intros x Hx ->. discriminate. }
  unfold paddedName, padEnd, truncateText, substring0.
  rewrite occurrences_app, occurrences_repeat by discriminate.
  destruct (20 <? List.length (serverName serverData))%nat.
  - rewrite occurrences_app, occurrences_firstn by exact Hname. reflexivity.
  - now rewrite Hname.
Qed.

(** X13: the row of a server that answered is one line: whatever its name, the
    row holds a single line break, its last character. *)
Theorem tableRow_single_line serversToQuery index0 value d :
  outcome value = Succeeded d ->
  exists line,
    tableRow serversToQuery index0 (Fulfilled value) = line ++ [10%N]
    /\ occurrences 10%N line = O.
Proof.
  intros Ho. unfold tableRow. rewrite Ho.
  eexists. split.
  - rewrite !app_assoc. reflexivity.
  - rewrite !occurrences_app, !numberToString_no_newline, paddedName_no_newline.
    unfold padStart. rewrite occurrences_app, occurrences_repeat by discriminate.
    rewrite numberToString_no_newline. reflexivity.
Qed.

Lemma tableRow_single_line_witness :
  outcome {| index := 1; server := utf16 "edgebug.cn:27015";
             outcome := Succeeded sampleData |} = Succeeded sampleData
  /\ exists line,
       tableRow [utf16 "edgebug.cn:27015"] 0
         (Fulfilled {| index := 1; server := utf16 "edgebug.cn:27015";
                       outcome := Succeeded sampleData |}) = line ++ [10%N]
       /\ occurrences 10%N line = O.
Proof.
  split; [reflexivity|].
  apply (tableRow_single_line [utf16 "edgebug.cn:27015"] 0
           {| index := 1; server := utf16 "edgebug.cn:27015";
              outcome := Succeeded sampleData |} sampleData).
  reflexivity.
Defined.

(** X14: the text label and the colour of a positive ping change at the same
    values: below 50 green, below 100 yellow, below 200 orange, red from
    200 on; a ping of 0 or less is labelled unknown. *)
Theorem ping_bands_agree ping :
  (ping <= 0 -> formatPing ping = utf16 "未知")
  /\ (0 < ping ->
      exists mark,
        formatPing ping = mark ++ utf16 " " ++ numberToString ping ++ utf16 "ms"
        /\ ((ping < 50 /\ mark = utf16 "🟢" /\ getPingColor ping = COLORS.pingGreen)
            \/ (50 <= ping < 100 /\ mark = utf16 "🟡"
                /\ getPingColor ping = COLORS.pingYellow)
            \/ (100 <= ping < 200 /\ mark = utf16 "🟠"
                /\ getPingColor ping = COLORS.pingOrange)
            \/ (200 <= ping /\ mark = utf16 "🔴"
                /\ getPingColor ping = COLORS.pingRed))).
Proof.
  unfold formatPing, getPingColor. split.
  - intros Hp. destruct (Z.eqb_spec ping 0) as [->|]; [reflexivity|].
    now replace (ping <? 0) with true by lia.
  - intros Hp.
    replace (ping =? 0) with false by lia. replace (ping <? 0) with false by lia.
    cbn [orb].
    destruct (Z.ltb_spec ping 50); [exists (utf16 "🟢"); split; [reflexivity|]; left; auto|].
    destruct (Z.ltb_spec ping 100);
      [exists (utf16 "🟡"); split; [reflexivity|]; right; left; auto|].
    destruct (Z.ltb_spec ping 200);
      [exists (utf16 "🟠"); split; [reflexivity|]; right; right; left; auto|].
    exists (utf16 "🔴"). split; [reflexivity|]. right; right; right; auto.
Qed.

Lemma ping_bands_agree_witness :
  formatPing 0 = utf16 "未知"
  /\ exists mark,
       formatPing 120 = mark ++ utf16 " " ++ numberToString 120 ++ utf16 "ms"
       /\ ((120 < 50 /\ mark = utf16 "🟢" /\ getPingColor 120 = COLORS.pingGreen)
           \/ (50 <= 120 < 100 /\ mark = utf16 "🟡"
               /\ getPingColor 120 = COLORS.pingYellow)
           \/ (100 <= 120 < 200 /\ mark = utf16 "🟠"
               /\ getPingColor 120 = COLORS.pingOrange)
           \/ (200 <= 120 /\ mark = utf16 "🔴"
               /\ getPingColor 120 = COLORS.pingRed)).
Proof.
  split.
  - apply (proj1 (ping_bands_agree 0)). vm_compute. discriminate.
  - apply (proj2 (ping_bands_agree 120)). reflexivity.
Defined.

Lemma ceilHalf_bounds n : 0 <= n -> 0 <= ceilHalf n /\ 2 * ceilHalf n <= n + 1.
Proof.
  intros Hn. unfold ceilHalf.
  pose proof (Z.div_mod (n + 1) 2 ltac:(lia)) as Hd.
  pose proof (Z.mod_pos_bound (n + 1) 2 ltac:(lia)) as Hm. lia.
Qed.

(** X15: the image of one server is always tall enough for what is drawn: with
    [maxPlayers] from 0 to 100, as the schema has it, the content needs
    between 340 and 1980 pixels, so the cap of 2500 never cuts it, and the
    height is the larger of the content and the configured minimum, capped
    at 2500. *)
Theorem calculateImageHeight_bounds config image d flags :
  0 <= maxPlayers config <= 100 ->
  340 <= contentHeight config image d flags <= 1980
  /\ contentHeight config image d flags <= calculateImageHeight config image d flags
  /\ calculateImageHeight config image d flags <= 2500
  /\ (imageHeight image <= 2500 ->
      calculateImageHeight config image d flags
      = Z.max (contentHeight config image d flags) (imageHeight image)).
Proof.
  intros Hmax.
  assert (Hc : 340 <= contentHeight config image d flags <= 1980).
  { unfold contentHeight, calculatePlayerListParams.
    set (playerCount := orZero _).
    assert (Hcount : 0 <= playerCount).
    { subst playerCount. unfold orZero.
      destruct (players (result d)); cbn; lia. }
    cbn [needTwoColumns rowHeight].
    set (extra1 := showPassword image && _). set (extra2 := showVAC image && _).
    destruct (ceilHalf_bounds (Z.min playerCount (maxPlayers config))) as [Hr1 Hr2];
      [lia|].
    destruct (Z.eqb_spec playerCount 0) as [H0|H0].
    - destruct extra1, extra2; lia.
    - destruct (Z.ltb_spec 10 playerCount) as [H10|H10].
      + replace ((0 <? playerCount) && (playerCount <? 10)) with false by lia.
        destruct (maxPlayers config <? playerCount), extra1, extra2; lia.
      + destruct (Z.ltb_spec playerCount 10) as [H9|H9].
        * replace (0 <? playerCount) with true by lia. cbn [andb].
          destruct (maxPlayers config <? playerCount), extra1, extra2; lia.
        * replace ((0 <? playerCount) && false) with false by lia.
          destruct (maxPlayers config <? playerCount), extra1, extra2; lia. }
  unfold calculateImageHeight. split; [exact Hc|]. repeat split; lia.
Qed.

Lemma calculateImageHeight_bounds_witness :
  0 <= maxPlayers sampleConfig <= 100
  /\ contentHeight sampleConfig sampleImageOptions sampleData sampleFlags = 560
  /\ calculateImageHeight sampleConfig sampleImageOptions sampleData sampleFlags = 560
  /\ 340 <= contentHeight sampleConfig sampleImageOptions sampleData sampleFlags <= 1980.
Proof.
  assert (Hmax : 0 <= maxPlayers sampleConfig <= 100)
    by (split; vm_compute; discriminate).
  destruct (calculateImageHeight_bounds sampleConfig sampleImageOptions sampleData
              sampleFlags Hmax) as (Hc & _).
  split; [exact Hmax|]. split; [reflexivity|]. split; [reflexivity|exact Hc].
Defined.

(* ===================================================================== *)
(** ** Further properties of the scheduled task                           *)
(* ===================================================================== *)

Lemma includes_occurrences c s : includes c s = false -> occurrences c s = O.
Proof.
  unfold includes. induction s as [|x s IH]; [reflexivity|]. cbn.
  rewrite (N.eqb_sym c x). destruct (x =? c)%N; [discriminate|exact IH].
Qed.

Lemma parseTimeToMinutes_no_colon timeStr :
  includes (ch ":") timeStr = false -> parseTimeToMinutes timeStr = None.
Proof.
  intros Hc. unfold parseTimeToMinutes.
  rewrite split_none by (now apply includes_occurrences). cbn.
  now destruct (toNumber timeStr).
Qed.

Section Schedule.
Context `{Host} `{NumberFormat}.

(** With a window that no time of day falls into, a tick only reads the
    clock. *)
Lemma exec_task_closed config (h : HostState) :
  (forall hours minutes,
      withinWindow hours minutes (scheduleStartTime config) (scheduleEndTime config)
      = false) ->
  exists h' calls,
    exec (executeScheduleTask config) h = (Normal tt, h', calls)
    /\ List.filter isQueryCall calls = []
    /\ List.filter isBroadcastCall calls = []
    /\ List.filter isImageCall calls = [].
Proof.
  intros Hclosed. unfold executeScheduleTask.
  destruct (negb (scheduleEnabled config)
            || Nat.eqb (List.length (scheduleGroups config)) 0
            || Nat.eqb (List.length (serverList config)) 0).
  - exists h, []. repeat split.
  - unfold isWithinScheduleTime. cbn [bind trigger exec].
    destruct (answer LocalTime h) as [[hours minutes] h1]. cbn [fst snd].
    rewrite Hclosed. cbn. exists h1. eexists. repeat split.
Qed.

(** X16: a window whose start lies after its end, such as 22:00 to 06:00, is
    never open: at no time of day does a tick query a server or send a
    message. *)
Theorem executeScheduleTask_overnight_window config (h : HostState)
    startMinutes endMinutes :
  parseTimeToMinutes (scheduleStartTime config) = Some startMinutes ->
  parseTimeToMinutes (scheduleEndTime config) = Some endMinutes ->
  endMinutes < startMinutes ->
  let '(completion, _, calls) := exec (executeScheduleTask config) h in
  completion = Normal tt
  /\ List.filter isQueryCall calls = []
  /\ List.filter isBroadcastCall calls = []
  /\ List.filter isImageCall calls = [].
Proof.
  intros Hs He Hlt.
  destruct (exec_task_closed config h) as (h' & calls & -> & Hq & Hb & Hi).
  - intros hours minutes. unfold withinWindow. rewrite Hs, He.
    apply andb_false_iff.
    destruct (Z.leb_spec startMinutes (hours * 60 + minutes)); [right|left; reflexivity].
    apply Z.leb_gt. lia.
  - auto.
Qed.

(** X17: a start or end time without a colon is not a number of minutes: the
    window is never open, and no error is reported. *)
Theorem executeScheduleTask_malformed_time config (h : HostState) :
  includes (ch ":") (scheduleStartTime config) = false
  \/ includes (ch ":") (scheduleEndTime config) = false ->
  let '(completion, _, calls) := exec (executeScheduleTask config) h in
  completion = Normal tt
  /\ List.filter isQueryCall calls = []
  /\ List.filter isBroadcastCall calls = []
  /\ omap errorLogOf calls = [].
Proof.
  intros Hbad.
  assert (Hclosed : forall hours minutes,
             withinWindow hours minutes (scheduleStartTime config)
               (scheduleEndTime config) = false).
  { intros hours minutes. unfold withinWindow.
    destruct Hbad as [Hs|He].
    - now rewrite (parseTimeToMinutes_no_colon _ Hs).
    - rewrite (parseTimeToMinutes_no_colon _ He).
      now destruct (parseTimeToMinutes (scheduleStartTime config)). }
  unfold executeScheduleTask.
  destruct (negb (scheduleEnabled config)
            || Nat.eqb (List.length (scheduleGroups config)) 0
            || Nat.eqb (List.length (serverList config)) 0).
  - cbn. repeat split.
  - unfold isWithinScheduleTime. cbn [bind trigger exec].
    destruct (answer LocalTime h) as [[hours minutes] h1]. cbn [fst snd].
    rewrite Hclosed. cbn. repeat split.
Qed.

(** One turn of the delivery loop per group, in the order of the list: a
    broadcast to the channel of the group and, only after a broadcast, one
    error line that names the group.  Whatever the deliveries answer, the
    loop goes through every group and completes normally. *)
Lemma exec_broadcastAll_turns groups content (h : HostState) :
  exists h' turns,
    exec (broadcastAll groups content) h = (Normal tt, h', concat turns)
    /\ Forall2 (fun groupId turn =>
                  turn = [deliveryCall groupId content]
                  \/ exists error,
                       turn = [deliveryCall groupId content;
                               deliveryFailureCall groupId error])
               groups turns.
Proof.
  revert h. induction groups as [|g rest IH]; intros h; cbn.
  - exists h, []. split; [reflexivity|constructor].
  - destruct (answer (Broadcast [utf16 "onebot:" ++ g] content) h) as [[u|e] h1]; cbn.
    + destruct (IH h1) as (h' & turns & -> & Hturns).
      exists h', ([deliveryCall g content] :: turns).
      split; [reflexivity|]. constructor; [now left|exact Hturns].
    + destruct (answer (ConsoleError _ e) h1) as [u h2]; cbn.
      destruct (IH h2) as (h' & turns & -> & Hturns).
      exists h', ([deliveryCall g content; deliveryFailureCall g e] :: turns).
      split; [reflexivity|]. constructor; [right; now exists e|exact Hturns].
Qed.

Lemma turns_content groups content turns :
  Forall2 (fun groupId turn =>
             turn = [deliveryCall groupId content]
             \/ exists error,
                  turn = [deliveryCall groupId content;
                          deliveryFailureCall groupId error])
          groups turns ->
  omap contentOf (concat turns) = List.map (fun _ => content) groups
  /\ List.filter isImageCall (concat turns) = []
  /\ List.filter isQueryCall (concat turns) = [].
Proof.
  induction 1 as [|g turn groups turns Hturn Hrest IH]; [repeat split|].
  destruct IH as (Hc & Hi & Hq). cbn [concat List.map].
  rewrite omap_app, !List.filter_app, Hc, Hi, Hq.
  destruct Hturn as [->|[e ->]]; repeat split.
Qed.

Lemma exec_broadcastAll_deliveries groups content (h : HostState) :
  exists h' calls,
    exec (broadcastAll groups content) h = (Normal tt, h', calls)
    /\ Deliveries content groups h calls h'.
Proof.
  revert h. induction groups as [|g rest IH]; intros h; cbn.
  - exists h, []. split; [reflexivity|constructor].
  - destruct (answer (Broadcast [utf16 "onebot:" ++ g] content) h) as [[[]|e] h1] eqn:Hb;
      cbn.
    + destruct (IH h1) as (h' & calls & -> & Hrest).
      exists h', (deliveryCall g content :: calls).
      split; [reflexivity|]. now apply (deliveries_sent content g rest h h1).
    + destruct (answer (ConsoleError _ e) h1) as [u h2] eqn:Hlog; cbn.
      destruct (IH h2) as (h' & calls & -> & Hrest).
      exists h', (deliveryCall g content :: deliveryFailureCall g e :: calls).
      split; [reflexivity|].
      now apply (deliveries_failed content g rest h h1 e u h2).
Qed.

Lemma deliveries_content content groups (h h' : HostState) calls :
  Deliveries content groups h calls h' ->
  omap contentOf calls = List.map (fun _ => content) groups
  /\ omap channelsOf calls = List.map (fun g => [utf16 "onebot:" ++ g]) groups.
Proof.
  induction 1 as [h|g rest h h1 calls h' Hb Hrest [IHc IHg]
                 |g rest h h1 e u h2 calls h' Hb Hlog Hrest [IHc IHg]];
    [split; reflexivity| |]; cbn; rewrite IHc, IHg; split; reflexivity.
Qed.

(** X18: the failure of a delivery does not stop the loop.  Every group of
    the list gets exactly one broadcast, in order and with the same
    content; a broadcast that the host answers with an error is followed by
    one error line that names its group and carries that error, a broadcast
    that is delivered is followed by none; and the loop completes
    normally. *)
Theorem broadcastAll_every_group groups content (h : HostState) :
  exists h' calls,
    exec (broadcastAll groups content) h = (Normal tt, h', calls)
    /\ Deliveries content groups h calls h'
    /\ omap contentOf calls = List.map (fun _ => content) groups
    /\ omap channelsOf calls = List.map (fun g => [utf16 "onebot:" ++ g]) groups.
Proof.
  destruct (exec_broadcastAll_deliveries groups content h) as (h' & calls & He & Hd).
  exists h', calls. split; [exact He|]. split; [exact Hd|].
  apply (deliveries_content _ _ _ _ _ Hd).
Qed.

(** X19: what a report sends: in text mode no image is drawn and every group
    gets the text table; in image mode every group gets the image, and
    when drawing fails the failure is logged and every group gets the
    text table under a line that says so. *)
Theorem scheduleReport_content config (h h1 h2 h3 h4 : HostState)
    startTime results endTime timeStr :
  answer Now h = (startTime, h1) ->
  answer (QueryBatch (serverList config)) h1 = (results, h2) ->
  answer Now h2 = (endTime, h3) ->
  answer LocaleTimeString h3 = (timeStr, h4) ->
  let queryTime := endTime - startTime in
  let textMessage := scheduleTextMessage config results queryTime timeStr in
  let calls := (exec (scheduleReport config) h).2 in
  let sent content :=
    omap contentOf calls = List.map (fun _ => Some content) (scheduleGroups config) in
  (scheduleUseImage config = false ->
   sent (Text textMessage) /\ List.filter isImageCall calls = [])
  /\ (scheduleUseImage config = true ->
      forall drawn h5,
        answer (GenerateBatchImage results (serverList config) queryTime) h4
        = (drawn, h5) ->
        match drawn with
        | Normal imageBuffer => sent (ImageElement imageBuffer)
        | Thrown imageError =>
          sent (Text ((utf16 "🕒 " ++ timeStr ++ utf16 " 服务器状态更新" ++ [10%N]
                       ++ utf16 "生成图片失败，使用文本格式：" ++ [10%N; 10%N])
                      ++ textMessage))
          /\ head (omap errorLogOf calls) = Some (utf16 "定时任务生成图片失败:")
        end).
Proof.
  intros Ht0 Hres Ht1 Hts. cbv zeta. unfold scheduleReport.
  rewrite exec_bind, exec_trigger, Ht0.
  rewrite exec_bind, exec_trigger, Hres.
  rewrite exec_bind, exec_trigger, Ht1.
  rewrite exec_bind, exec_trigger, Hts.
  rewrite exec_bind. unfold scheduleImage.
  destruct (scheduleUseImage config); (split; [intros [=]|intros [=]]).
  - intros drawn h5 Hdraw.
    rewrite exec_tryCatch, exec_bind, exec_await, Hdraw.
    destruct drawn as [imageBuffer|imageError].
    + cbn [exec app negb].
      match goal with |- context [exec (broadcastAll ?gs ?c) h5] =>
        destruct (exec_broadcastAll_turns gs c h5) as (h' & turns & -> & Hturns)
      end.
      cbn [snd app omap]. apply (turns_content _ _ _ Hturns).
    + rewrite exec_bind, exec_trigger.
      destruct (answer (ConsoleError _ imageError) h5) as [u h6].
      cbn [exec app negb].
      match goal with |- context [exec (broadcastAll ?gs ?c) h6] =>
        destruct (exec_broadcastAll_turns gs c h6) as (h' & turns & -> & Hturns)
      end.
      cbn [snd app omap]. split; [|reflexivity].
      cbn. apply (turns_content _ _ _ Hturns).
  - cbn [exec app negb].
    match goal with |- context [exec (broadcastAll ?gs ?c) h4] =>
      destruct (exec_broadcastAll_turns gs c h4) as (h' & turns & -> & Hturns)
    end.
    cbn [snd app omap List.filter].
    destruct (turns_content _ _ _ Hturns) as (Hc & Hi & _).
    split; [exact Hc|]. cbn. exact Hi.
Qed.

End Schedule.

Lemma executeScheduleTask_overnight_window_witness :
  parseTimeToMinutes (scheduleStartTime overnightConfig) = Some 1320
  /\ parseTimeToMinutes (scheduleEndTime overnightConfig) = Some 360
  /\ 360 < 1320
  /\ let '(completion, _, calls) :=
       exec (H := sampleHost) (executeScheduleTask (H := wholeSeconds) overnightConfig)
            (23, 30) in
     completion = Normal tt
     /\ List.filter isQueryCall calls = []
     /\ List.filter isBroadcastCall calls = []
     /\ List.filter isImageCall calls = [].
Proof.
  split; [reflexivity|]. split; [reflexivity|]. split; [reflexivity|].
  apply (executeScheduleTask_overnight_window (H := sampleHost) (H0 := wholeSeconds)
           overnightConfig (23, 30) 1320 360); reflexivity.
Defined.

Lemma executeScheduleTask_malformed_time_witness :
  includes (ch ":") (scheduleStartTime colonlessConfig) = false
  /\ let '(completion, _, calls) :=
       exec (H := sampleHost) (executeScheduleTask (H := wholeSeconds) colonlessConfig)
            (9, 0) in
     completion = Normal tt
     /\ List.filter isQueryCall calls = []
     /\ List.filter isBroadcastCall calls = []
     /\ omap errorLogOf calls = [].
Proof.
  split; [reflexivity|].
  apply (executeScheduleTask_malformed_time (H := sampleHost) (H0 := wholeSeconds)
           colonlessConfig (9, 0)).
  left. reflexivity.
Defined.

Lemma scheduleReport_content_witness :
  scheduleUseImage sampleConfig = true
  /\ head (omap errorLogOf
             (exec (H := offlineHost) (scheduleReport (H := wholeSeconds) sampleConfig)
                   (9, 0)).2)
     = Some (utf16 "定时任务生成图片失败:")
  /\ scheduleUseImage overnightConfig = false
  /\ List.filter isImageCall
       (exec (H := sampleHost) (scheduleReport (H := wholeSeconds) overnightConfig)
             (23, 30)).2 = [].
Proof.
  split; [reflexivity|]. split.
  - destruct (scheduleReport_content (H := offlineHost) (H0 := wholeSeconds)
                sampleConfig (9, 0) (9, 0) (9, 0) (9, 0) (9, 0) 0
                (fst (answer (Host := offlineHost)
                        (QueryBatch (serverList sampleConfig)) (9, 0)))
                0 (utf16 "2025/1/1 08:00:00") eq_refl eq_refl eq_refl eq_refl)
      as [_ Himage].
    exact (proj2 (Himage eq_refl (Thrown (newError (utf16 "canvas is not available")))
                         (9, 0) eq_refl)).
  - split; [reflexivity|].
    destruct (scheduleReport_content (H := sampleHost) (H0 := wholeSeconds)
                overnightConfig (23, 30) (23, 30) (23, 30) (23, 30) (23, 30) 0
                (fst (answer (Host := sampleHost)
                        (QueryBatch (serverList overnightConfig)) (23, 30)))
                0 (utf16 "2025/1/1 08:00:00") eq_refl eq_refl eq_refl eq_refl)
      as [Htext _].
    exact (proj2 (Htext eq_refl)).
Defined.

(* ===================================================================== *)
(** ** The command [cs.schedule]                                          *)
(* ===================================================================== *)

Lemma arrayIncludes_elem_of x l : arrayIncludes x l = true <-> x ∈ l.
Proof.
  unfold arrayIncludes. induction l as [|y l IH]; cbn.
  - split; [discriminate|]. intros Hin. inversion Hin.
  - rewrite orb_true_iff, IH, elem_of_cons, bool_decide_eq_true. intuition congruence.
Qed.

Lemma indexOf_None x l : indexOf x l = None <-> x ∉ l.
Proof.
  induction l as [|y l IH]; cbn.
  - split; [|reflexivity]. intros _ Hin. inversion Hin.
  - rewrite not_elem_of_cons. destruct (bool_decide_reflect (y = x)) as [->|Hne].
    + split; [discriminate|]. intros [Hx _]. now destruct Hx.
    + destruct (indexOf x l); cbn.
      * split; [discriminate|]. intros [_ Hx]. now apply IH in Hx.
      * split; [|reflexivity]. intros _. split; [congruence|]. now apply IH.
Qed.


Lemma indexOf_last x l : x ∉ l -> indexOf x (l ++ [x]) = Some (List.length l).
Proof.
  induction l as [|y l IH]; cbn.
  - intros _. now rewrite bool_decide_eq_true_2.
  - rewrite not_elem_of_cons. intros [Hne Hx].
    rewrite bool_decide_eq_false_2 by congruence. now rewrite (IH Hx).
Qed.

Lemma removeAt_last {A} (l : list A) x : removeAt (List.length l) (l ++ [x]) = l.
Proof.
  unfold removeAt.
  rewrite firstn_app, firstn_all, Nat.sub_diag. cbn [firstn].
  rewrite skipn_all2 by (rewrite length_app; cbn; lia).
  now rewrite !app_nil_r.
Qed.



(** X20: adding a group that is not in the list and removing it again gives the
    list back; a group that is in the list is not added a second time. *)
Theorem schedule_groups_round_trip groupId groups :
  ((groupId ∉ groups) ->
   (addGroup groupId groups).2 = groups ++ [groupId]
   /\ (removeGroup groupId (addGroup groupId groups).2).2 = groups)
  /\ ((groupId ∈ groups) -> (addGroup groupId groups).2 = groups).
Proof.
  unfold addGroup. split.
  - intros Hx.
    assert (Hin : arrayIncludes groupId groups = false).
    { destruct (arrayIncludes groupId groups) eqn:Hin; [|reflexivity].
      now apply arrayIncludes_elem_of in Hin. }
    rewrite Hin. cbn. split; [reflexivity|].
    unfold removeGroup. rewrite (indexOf_last _ _ Hx). cbn. apply removeAt_last.
  - intros Hx. apply arrayIncludes_elem_of in Hx. now rewrite Hx.
Qed.

Lemma schedule_groups_round_trip_witness :
  (utf16 "777777" ∉ scheduleGroups sampleConfig)
  /\ (addGroup (utf16 "777777") (scheduleGroups sampleConfig)).2
     = scheduleGroups sampleConfig ++ [utf16 "777777"]
  /\ (removeGroup (utf16 "777777")
        (addGroup (utf16 "777777") (scheduleGroups sampleConfig)).2).2
     = scheduleGroups sampleConfig
  /\ utf16 "123456" ∈ scheduleGroups sampleConfig
  /\ (addGroup (utf16 "123456") (scheduleGroups sampleConfig)).2
     = scheduleGroups sampleConfig.
Proof.
  assert (Hout : utf16 "777777" ∉ scheduleGroups sampleConfig).
  { apply indexOf_None. reflexivity. }
  assert (Hin : utf16 "123456" ∈ scheduleGroups sampleConfig).
  { apply arrayIncludes_elem_of. reflexivity. }
  destruct (schedule_groups_round_trip (utf16 "777777") (scheduleGroups sampleConfig))
    as [Hfresh _].
  destruct (schedule_groups_round_trip (utf16 "123456") (scheduleGroups sampleConfig))
    as [_ Hold].
  split; [exact Hout|]. split; [exact (proj1 (Hfresh Hout))|].
  split; [exact (proj2 (Hfresh Hout))|]. split; [exact Hin|exact (Hold Hin)].
Defined.

Section ScheduleCommand.
Context `{Host} `{NumberFormat}.



(** X22: with the schedule disabled, or without groups or servers, [-t] and
    [-R] report that the task was run although nothing was queried and
    nothing was sent. *)
Theorem scheduleAction_test_idle config s options (h : HostState) :
  so_status options = false -> so_start options = false -> so_stop options = false ->
  so_test options = true \/ so_run options = true ->
  scheduleEnabled config = false \/ scheduleGroups config = []
  \/ serverList config = [] ->
  exists reply,
    exec (scheduleAction config s options) h = (Normal (reply, config, s), h, [])
    /\ (so_test options = true -> reply = utf16 "✅ 定时任务测试执行完成")
    /\ (so_test options = false -> reply = utf16 "✅ 已立即执行一次定时任务").
Proof.
  intros Hstatus Hstart Hstop Hrun Hidle. unfold scheduleAction.
  rewrite Hstatus, Hstart, Hstop.
  assert (Htask : executeScheduleTask config = Ret tt).
  { unfold executeScheduleTask.
    destruct Hidle as [->|[->| ->]]; [reflexivity| |].
    - now rewrite orb_true_r.
    - now rewrite orb_true_r. }
  rewrite Htask.
  destruct (so_test options).
  - eexists. split; [reflexivity|]. split; [reflexivity|discriminate].
  - destruct Hrun as [[=]| ->].
    eexists. split; [reflexivity|]. split; [discriminate|reflexivity].
Qed.


End ScheduleCommand.


Lemma scheduleAction_test_idle_witness :
  scheduleEnabled (withEnabled false sampleConfig) = false
  /\ exec (H := sampleHost)
          (scheduleAction (H := wholeSeconds) (withEnabled false sampleConfig)
             initialScheduler
             {| so_status := false; so_start := false; so_stop := false;
                so_test := true; so_addGroup := None; so_removeGroup := None;
                so_listGroups := false; so_run := false |})
          (9, 0)
     = (Normal (utf16 "✅ 定时任务测试执行完成", withEnabled false sampleConfig,
                initialScheduler), (9, 0), []).
Proof.
  split; [reflexivity|].
  destruct (scheduleAction_test_idle (H := sampleHost) (H0 := wholeSeconds)
              (withEnabled false sampleConfig) initialScheduler
              {| so_status := false; so_start := false; so_stop := false;
                 so_test := true; so_addGroup := None; so_removeGroup := None;
                 so_listGroups := false; so_run := false |} (9, 0)
              eq_refl eq_refl eq_refl (or_introl eq_refl) (or_introl eq_refl))
    as (reply & He & Htest & _).
  rewrite <- (Htest eq_refl). exact He.
Defined.


(* ===================================================================== *)
(** ** The commands [csss] and [cs]                                       *)
(* ===================================================================== *)

Section Commands.
Context `{Host} `{NumberFormat} `{Locale} `{ServerInfoText}.

(** X24: with [-l], [-a], [-r] or [-c] the command only reads or edits the
    server list: it queries nothing, draws nothing, sends nothing, and
    replies with a text. *)
Theorem csssAction_list_options_silent config options addresses (h : HostState) :
  csss_list options = true
  \/ (exists c r, csss_add options = Some (c :: r))
  \/ is_Some (csss_remove options)
  \/ csss_clear options = true ->
  exists reply servers,
    exec (csssAction config options addresses) h = (Normal (Text reply, servers), h, []).
Proof.
  intros Hopt. unfold csssAction.
  destruct (csss_list options); [do 2 eexists; reflexivity|].
  destruct (csss_add options) as [[|c r]|] eqn:Hadd.
  2:{ destruct (parseAddress (c :: r)); do 2 eexists; reflexivity. }
  all: destruct (csss_remove options) as [remove|] eqn:Hremove;
    [destruct ((0 <=? remove - 1)
               && (remove - 1 <? Z.of_nat (List.length (serverList config))));
     do 2 eexists; reflexivity|].
  all: destruct (csss_clear options); [do 2 eexists; reflexivity|].
  all: exfalso; destruct Hopt as [?|[(c & r & ?)|[[x ?]|?]]]; discriminate.
Qed.

(** X25: [-a] appends a well-formed address to the server list, whether or not
    the list already holds it, and leaves the list alone when the address
    is malformed; [-r] with the new last index then gives the old list
    back. *)
Theorem csssAction_add_then_remove config options address addresses (h : HostState) :
  csss_list options = false -> csss_add options = Some address -> address <> [] ->
  (forall host port, parseAddress address = Normal (host, port) ->
     exists reply,
       exec (csssAction config options addresses) h
       = (Normal (Text reply, serverList config ++ [address]), h, [])
       /\ forall options' addresses',
            csss_list options' = false -> csss_add options' = None ->
            csss_remove options'
            = Some (Z.of_nat (List.length (serverList config)) + 1) ->
            exists reply',
              exec (csssAction (withServers (serverList config ++ [address]) config)
                               options' addresses') h
              = (Normal (Text reply', serverList config), h, []))
  /\ (forall e, parseAddress address = Thrown e ->
        exists reply,
          exec (csssAction config options addresses) h
          = (Normal (Text reply, serverList config), h, [])).
Proof.
  intros Hlist Hadd Hne. unfold csssAction. rewrite Hlist, Hadd.
  destruct address as [|c r]; [congruence|]. split.
  - intros host port ->. eexists. split; [reflexivity|].
    intros options' addresses' -> -> ->.
    cbn [withServers serverList].
    replace (Z.of_nat (List.length (serverList config)) + 1 - 1)
      with (Z.of_nat (List.length (serverList config))) by lia.
    rewrite length_app. cbn [List.length].
    assert (Hin : (0 <=? Z.of_nat (List.length (serverList config)))
                  && (Z.of_nat (List.length (serverList config))
                      <? Z.of_nat (List.length (serverList config) + 1)) = true).
    { apply andb_true_iff. split; [apply Z.leb_le|apply Z.ltb_lt]; lia. }
    rewrite Hin.
    rewrite Nat2Z.id, removeAt_last. eexists. reflexivity.
  - intros e ->. eexists. reflexivity.
Qed.

Lemma exec_csssQuery_calls config options serversToQuery (h : HostState) :
  let calls := (exec (csssQuery config options serversToQuery) h).2 in
  omap batchOf calls = [serversToQuery] /\ omap sentOf calls = []
  /\ omap channelsOf calls = [].
Proof.
  cbv zeta. unfold csssQuery, queryServers.
  rewrite exec_tryCatch, !exec_bind, exec_trigger.
  destruct (answer Now h) as [startTime h1].
  rewrite exec_bind, exec_trigger.
  destruct (answer (QueryBatch serversToQuery) h1) as [results h2].
  rewrite exec_bind, exec_trigger. destruct (answer Now h2) as [endTime h3].
  cbn [exec app fst snd]. rewrite exec_bind.
  destruct (shouldGenerateImage (csss_image options) (csss_text options) config).
  - rewrite exec_tryCatch, exec_bind, exec_await.
    destruct (answer (GenerateBatchImage _ _ _) h3) as [[buffer|err] h4].
    + cbn. repeat split.
    + rewrite exec_bind, exec_trigger.
      destruct (answer (ConsoleError _ err) h4) as [u h5]. cbn. repeat split.
  - cbn. repeat split.
Qed.

(** X26: a query asks for one batch: the addresses of the command line, or the
    configured list when none is given, cut to the first ten; the warning
    is sent exactly when there were more than ten.  Nothing is
    broadcast. *)
Theorem csssAction_batch_limit config options addresses (h : HostState) :
  csss_list options = false ->
  csss_add options = None \/ csss_add options = Some [] ->
  csss_remove options = None ->
  csss_clear options = false ->
  requestedServers config addresses <> [] ->
  let calls := (exec (csssAction config options addresses) h).2 in
  omap batchOf calls = [firstn 10 (requestedServers config addresses)]
  /\ omap sentOf calls
     = (if (10 <? List.length (requestedServers config addresses))%nat
        then [utf16 "⚠️ 服务器数量超过限制，仅查询前 10 个"] else [])
  /\ omap channelsOf calls = [].
Proof.
  intros Hlist Hadd Hremove Hclear Hsome. cbv zeta. unfold csssAction.
  rewrite Hlist, Hremove, Hclear.
  assert (Hreq : match addresses with
                 | _ :: _ => Some addresses
                 | [] => match serverList config with
                         | _ :: _ => Some (serverList config)
                         | [] => None
                         end
                 end = Some (requestedServers config addresses)).
  { unfold requestedServers in *. destruct addresses; [|reflexivity].
    destruct (serverList config); [congruence|reflexivity]. }
  set (requested := requestedServers config addresses) in *.
  assert (Hgoal :
    let calls :=
      (exec (serversToQuery <-
               (if (10 <? List.length requested)%nat then
                  trigger (SessionSend
                             (utf16 "⚠️ 服务器数量超过限制，仅查询前 "
                              ++ numberToString (Z.of_nat 10) ++ utf16 " 个")) ;;;
                  Ret (firstn 10 requested)
                else Ret requested) ;;
             csssQuery config options serversToQuery) h).2 in
    omap batchOf calls = [firstn 10 requested]
    /\ omap sentOf calls
       = (if (10 <? List.length requested)%nat
          then [utf16 "⚠️ 服务器数量超过限制，仅查询前 10 个"] else [])
    /\ omap channelsOf calls = []).
  { cbv zeta. rewrite exec_bind.
    destruct (Nat.ltb_spec 10 (List.length requested)) as [Hmany|Hfew].
    - rewrite exec_bind, exec_trigger.
      destruct (answer (SessionSend _) h) as [u h1]. cbn [exec app].
      pose proof (exec_csssQuery_calls config options (firstn 10 requested) h1) as Hq.
      cbv zeta in Hq.
      destruct (exec (csssQuery config options (firstn 10 requested)) h1)
        as [[c2 h2] calls2].
      cbn [snd] in *. destruct Hq as (Hb & Hs & Hc).
      split; [cbn; exact Hb|]. split; [|cbn; exact Hc].
      cbn -[numberToString]. rewrite Hs. f_equal.
    - cbn [exec app].
      pose proof (exec_csssQuery_calls config options requested h) as Hq.
      cbv zeta in Hq.
      destruct (exec (csssQuery config options requested) h) as [[c2 h2] calls2].
      cbn [snd app] in *. destruct Hq as (Hb & Hs & Hc).
      rewrite firstn_all2 by exact Hfew. auto. }
  destruct Hadd as [-> | ->]; rewrite Hreq; exact Hgoal.
Qed.

(** X27: when the image of a batch cannot be drawn, the failure is logged and
    the reply is the text table of the same results, whether the batch is
    over the addresses of the command line or over the configured list, and
    whether or not it was cut to ten. *)
Theorem csssAction_image_fallback config options addresses
    (h h0 h1 h2 h3 h4 : HostState) startTime results endTime imageError :
  csss_list options = false ->
  csss_add options = None \/ csss_add options = Some [] ->
  csss_remove options = None -> csss_clear options = false ->
  requestedServers config addresses <> [] ->
  let serversToQuery := firstn 10 (requestedServers config addresses) in
  h0 = (if (10 <? List.length (requestedServers config addresses))%nat
        then (answer (SessionSend (utf16 "⚠️ 服务器数量超过限制，仅查询前 "
                                   ++ numberToString (Z.of_nat 10) ++ utf16 " 个")) h).2
        else h) ->
  shouldGenerateImage (csss_image options) (csss_text options) config = true ->
  answer Now h0 = (startTime, h1) ->
  answer (QueryBatch serversToQuery) h1 = (results, h2) ->
  answer Now h2 = (endTime, h3) ->
  answer (GenerateBatchImage results serversToQuery (endTime - startTime)) h3
  = (Thrown imageError, h4) ->
  exists reply calls,
    (exec (csssAction config options addresses) h).1.1
    = Normal (Text reply, serverList config)
    /\ (exec (csssAction config options addresses) h).2 = calls
    /\ reply = generateTextTable results serversToQuery (endTime - startTime)
                 (utf16 "批量查询结果")
               ++ [10%N] ++ utf16 "📋 输入 `cs <服务器地址>` 查询单个服务器"
    /\ omap errorLogOf calls = [utf16 "生成批量查询图片失败:"]
    /\ omap batchOf calls = [serversToQuery].
Proof.
  intros Hlist Hadd Hremove Hclear Hsome serversToQuery Hh0 Himage Ht0 Hres Ht1 Hdraw.
  unfold csssAction. rewrite Hlist, Hremove, Hclear.
  assert (Hreq : match addresses with
                 | _ :: _ => Some addresses
                 | [] => match serverList config with
                         | _ :: _ => Some (serverList config)
                         | [] => None
                         end
                 end = Some (requestedServers config addresses)).
  { unfold requestedServers in *. destruct addresses; [|reflexivity].
    destruct (serverList config); [congruence|reflexivity]. }
  set (requested := requestedServers config addresses) in *.
  assert (Hq : forall hq,
    hq = h0 ->
    exists reply hend calls,
      exec (csssQuery config options serversToQuery) hq
      = (Normal (Text reply, serverList config), hend, calls)
      /\ reply = generateTextTable results serversToQuery (endTime - startTime)
                   (utf16 "批量查询结果")
                 ++ [10%N] ++ utf16 "📋 输入 `cs <服务器地址>` 查询单个服务器"
      /\ omap errorLogOf calls = [utf16 "生成批量查询图片失败:"]
      /\ omap batchOf calls = [serversToQuery]).
  { intros hq ->. unfold csssQuery, queryServers.
    rewrite exec_tryCatch, !exec_bind, exec_trigger, Ht0.
    rewrite exec_bind, exec_trigger, Hres.
    rewrite exec_bind, exec_trigger, Ht1.
    cbn [exec app fst snd]. rewrite exec_bind, Himage.
    rewrite exec_tryCatch, exec_bind, exec_await, Hdraw.
    rewrite exec_bind, exec_trigger.
    destruct (answer (ConsoleError _ imageError) h4) as [u h5].
    cbn [exec app fst snd]. do 3 eexists.
    split; [reflexivity|]. split; [reflexivity|]. split; reflexivity. }
  assert (Hgoal :
    exists reply calls,
      (exec (serversToQuery0 <-
               (if (10 <? List.length requested)%nat then
                  trigger (SessionSend
                             (utf16 "⚠️ 服务器数量超过限制，仅查询前 "
                              ++ numberToString (Z.of_nat 10) ++ utf16 " 个")) ;;;
                  Ret (firstn 10 requested)
                else Ret requested) ;;
             csssQuery config options serversToQuery0) h).1.1
      = Normal (Text reply, serverList config)
      /\ (exec (serversToQuery0 <-
                  (if (10 <? List.length requested)%nat then
                     trigger (SessionSend
                                (utf16 "⚠️ 服务器数量超过限制，仅查询前 "
                                 ++ numberToString (Z.of_nat 10) ++ utf16 " 个")) ;;;
                     Ret (firstn 10 requested)
                   else Ret requested) ;;
                csssQuery config options serversToQuery0) h).2 = calls
      /\ reply = generateTextTable results serversToQuery (endTime - startTime)
                   (utf16 "批量查询结果")
                 ++ [10%N] ++ utf16 "📋 输入 `cs <服务器地址>` 查询单个服务器"
      /\ omap errorLogOf calls = [utf16 "生成批量查询图片失败:"]
      /\ omap batchOf calls = [serversToQuery]).
  { rewrite exec_bind.
    destruct (Nat.ltb_spec 10 (List.length requested)) as [Hmany|Hfew].
    - rewrite exec_bind, exec_trigger.
      destruct (answer (SessionSend _) h) as [u hs] eqn:Hsend. cbn [snd] in Hh0.
      cbn [exec app].
      destruct (Hq hs (eq_sym Hh0)) as (reply & hend & calls & He & Hr & Hlog & Hbatch).
      fold serversToQuery. rewrite He. cbn [fst snd app].
      exists reply. eexists. split; [reflexivity|]. split; [reflexivity|].
      split; [exact Hr|]. cbn. rewrite Hlog, Hbatch. split; reflexivity.
    - cbn [exec app].
      assert (Hall : serversToQuery = requested)
        by (subst serversToQuery; now apply firstn_all2).
      destruct (Hq h (eq_sym Hh0)) as (reply & hend & calls & He & Hr & Hlog & Hbatch).
      rewrite <- Hall. rewrite He. cbn [fst snd app].
      exists reply, calls. auto. }
  destruct Hadd as [-> | ->]; rewrite Hreq; exact Hgoal.
Qed.

(** X28: a malformed address is answered at once, with the message of the
    parse error: no server is queried and nothing is drawn. *)
Theorem csAction_invalid_address config options address e (h : HostState) :
  address <> [] -> cs_clear options = false ->
  parseAddress address = Thrown e ->
  exists hint,
    exec (csAction config options (Some address)) h
    = (Normal (Text ((utf16 "查询失败: " ++ invalidAddressMessage address
                      ++ [10%N; 10%N]) ++ hint)), h, []).
Proof.
  intros Hne Hclear Hparse.
  pose proof (parseAddress_thrown _ _ Hparse) as ->.
  unfold csAction. destruct address as [|c r]; [congruence|].
  rewrite Hclear, Hparse. cbn [ofCompletion bind tryCatch].
  unfold csErrorReply. cbn [message newError].
  destruct (includesText (utf16 "无法加载 gamedig") _);
    [eexists; reflexivity|].
  destruct (includesText (utf16 "无效的地址格式") _); eexists; reflexivity.
Qed.

(** X29: in text mode the reply is the server information followed by the
    player list, after exactly one query; the option [-n] changes
    nothing, the player list is part of the reply all the same. *)
Theorem csAction_text_reply config options address host port d (h h1 : HostState) :
  address <> [] -> cs_clear options = false ->
  parseAddress address = Normal (host, port) ->
  answer (QueryOne host port) h = (Normal d, h1) ->
  shouldGenerateImage (cs_image options) (cs_text options) config = false ->
  exec (csAction config options (Some address)) h
  = (Normal (Text (formatServerInfo d ++ [10%N; 10%N]
                   ++ formatPlayers config (Some (default [] (players (result d)))))),
     h1, [mkCall _ (QueryOne host port)]).
Proof.
  intros Hne Hclear Hparse Hquery Himage.
  unfold csAction. destruct address as [|c r]; [congruence|].
  rewrite Hclear, Hparse. cbn [ofCompletion].
  rewrite exec_tryCatch. cbn [bind fst snd]. rewrite exec_bind, exec_await, Hquery.
  rewrite Himage. reflexivity.
Qed.

(** X30: when the image of a server cannot be drawn, the failure is logged and
    the reply is the failure message alone: the text information is not
    sent in its place. *)
Theorem csAction_image_failure config options address host port d imageError
    (h h1 h2 : HostState) :
  address <> [] -> cs_clear options = false ->
  parseAddress address = Normal (host, port) ->
  answer (QueryOne host port) h = (Normal d, h1) ->
  shouldGenerateImage (cs_image options) (cs_text options) config = true ->
  answer (GenerateServerImage d host port) h1 = (Thrown imageError, h2) ->
  exists calls,
    (exec (csAction config options (Some address)) h).1.1
    = Normal (Text (utf16 "生成图片失败: " ++ renderOptional (message imageError)))
    /\ (exec (csAction config options (Some address)) h).2 = calls
    /\ omap errorLogOf calls = [utf16 "生成图片失败:"]
    /\ List.filter isQueryCall calls = [mkCall _ (QueryOne host port)].
Proof.
  intros Hne Hclear Hparse Hquery Himage Hdraw.
  unfold csAction. destruct address as [|c r]; [congruence|].
  rewrite Hclear, Hparse. cbn [ofCompletion].
  rewrite exec_tryCatch. cbn [bind fst snd]. rewrite exec_bind, exec_await, Hquery.
  rewrite Himage.
  rewrite exec_tryCatch, exec_bind, exec_await, Hdraw.
  rewrite exec_bind, exec_trigger.
  destruct (answer (ConsoleError _ imageError) h2) as [u h3].
  cbn [exec app fst snd]. eexists.
  split; [reflexivity|]. split; [reflexivity|]. split; reflexivity.
Qed.

End Commands.

Lemma csssAction_list_options_silent_witness :
  csss_clear {| csss_list := false; csss_add := None; csss_remove := None;
                csss_clear := true; csss_image := true; csss_text := false |} = true
  /\ exists reply servers,
       exec (H := sampleHost)
            (csssAction (H := wholeSeconds) sampleConfig
               {| csss_list := false; csss_add := None; csss_remove := None;
                  csss_clear := true; csss_image := true; csss_text := false |}
               [utf16 "edgebug.cn:27015"])
            (9, 0)
       = (Normal (Text reply, servers), (9, 0), []).
Proof.
  split; [reflexivity|].
  apply (csssAction_list_options_silent (H := sampleHost) (H0 := wholeSeconds)
           sampleConfig
           {| csss_list := false; csss_add := None; csss_remove := None;
              csss_clear := true; csss_image := true; csss_text := false |}
           [utf16 "edgebug.cn:27015"] (9, 0)).
  right. right. right. reflexivity.
Defined.

Lemma csssAction_add_then_remove_witness :
  parseAddress (utf16 "edgebug.cn:27015") = Normal (utf16 "edgebug.cn", 27015)
  /\ exists reply,
       exec (H := sampleHost)
            (csssAction (H := wholeSeconds) sampleConfig
               {| csss_list := false; csss_add := Some (utf16 "edgebug.cn:27015");
                  csss_remove := None; csss_clear := false; csss_image := false;
                  csss_text := false |} [])
            (9, 0)
       = (Normal (Text reply, serverList sampleConfig ++ [utf16 "edgebug.cn:27015"]),
          (9, 0), []).
Proof.
  split; [reflexivity|].
  destruct (csssAction_add_then_remove (H := sampleHost) (H0 := wholeSeconds)
              sampleConfig
              {| csss_list := false; csss_add := Some (utf16 "edgebug.cn:27015");
                 csss_remove := None; csss_clear := false; csss_image := false;
                 csss_text := false |}
              (utf16 "edgebug.cn:27015") [] (9, 0) eq_refl eq_refl)
    as [Hvalid _]; [discriminate|].
  destruct (Hvalid (utf16 "edgebug.cn") 27015 eq_refl) as (reply & He & _).
  exists reply. exact He.
Defined.

Lemma csssAction_batch_limit_witness :
  requestedServers sampleConfig twelveServers <> []
  /\ omap batchOf
       (exec (H := sampleHost)
             (csssAction (H := wholeSeconds) sampleConfig noCsssOptions twelveServers)
             (9, 0)).2
     = [firstn 10 (requestedServers sampleConfig twelveServers)]
  /\ omap sentOf
       (exec (H := sampleHost)
             (csssAction (H := wholeSeconds) sampleConfig noCsssOptions twelveServers)
             (9, 0)).2
     = (if (10 <? List.length (requestedServers sampleConfig twelveServers))%nat
        then [utf16 "⚠️ 服务器数量超过限制，仅查询前 10 个"] else []).
Proof.
  assert (Hsome : requestedServers sampleConfig twelveServers <> [])
    by discriminate.
  split; [exact Hsome|].
  destruct (csssAction_batch_limit (H := sampleHost) (H0 := wholeSeconds)
              sampleConfig noCsssOptions twelveServers (9, 0)
              eq_refl (or_introl eq_refl) eq_refl eq_refl Hsome)
    as (Hbatch & Hsent & _).
  split; [exact Hbatch|exact Hsent].
Defined.

Lemma csssAction_image_fallback_witness :
  shouldGenerateImage (csss_image noCsssOptions) (csss_text noCsssOptions) sampleConfig
  = true
  /\ requestedServers sampleConfig twelveServers <> []
  /\ exists reply calls,
       (exec (H := offlineHost)
             (csssAction (H := wholeSeconds) sampleConfig noCsssOptions twelveServers)
             (9, 0)).1.1
       = Normal (Text reply, serverList sampleConfig)
       /\ (exec (H := offlineHost)
                (csssAction (H := wholeSeconds) sampleConfig noCsssOptions twelveServers)
                (9, 0)).2 = calls
       /\ omap errorLogOf calls = [utf16 "生成批量查询图片失败:"]
       /\ omap batchOf calls = [firstn 10 twelveServers].
Proof.
  assert (Hsome : requestedServers sampleConfig twelveServers <> []) by discriminate.
  split; [reflexivity|]. split; [exact Hsome|].
  destruct (csssAction_image_fallback (H := offlineHost) (H0 := wholeSeconds)
              sampleConfig noCsssOptions twelveServers
              (9, 0) (9, 0) (9, 0) (9, 0) (9, 0) (9, 0) 0
              (fst (answer (Host := offlineHost)
                      (QueryBatch (firstn 10 twelveServers)) (9, 0)))
              0 (newError (utf16 "canvas is not available"))
              eq_refl (or_introl eq_refl) eq_refl eq_refl Hsome
              eq_refl eq_refl eq_refl eq_refl eq_refl eq_refl)
    as (reply & calls & Hr & Hc & _ & Hlog & Hbatch).
  exists reply, calls. auto.
Defined.

Lemma csAction_invalid_address_witness :
  parseAddress (utf16 "edgebug.cn:0")
  = Thrown (newError (invalidAddressMessage (utf16 "edgebug.cn:0")))
  /\ exists hint,
       exec (H := sampleHost)
            (csAction (H := asciiLocale) (H0 := nameOnly) sampleConfig noCsOptions
                      (Some (utf16 "edgebug.cn:0"))) (9, 0)
       = (Normal (Text ((utf16 "查询失败: "
                         ++ invalidAddressMessage (utf16 "edgebug.cn:0")
                         ++ [10%N; 10%N]) ++ hint)), (9, 0), []).
Proof.
  split; [reflexivity|].
  apply (csAction_invalid_address (H := sampleHost) (H1 := asciiLocale)
           (H2 := nameOnly) sampleConfig noCsOptions (utf16 "edgebug.cn:0")
           (newError (invalidAddressMessage (utf16 "edgebug.cn:0"))) (9, 0));
    [discriminate|reflexivity|reflexivity].
Defined.

Lemma csAction_text_reply_witness :
  let hidden := {| cs_noPlayers := true; cs_image := false; cs_text := true;
                   cs_clear := false |} in
  shouldGenerateImage (cs_image hidden) (cs_text hidden) sampleConfig = false
  /\ exec (H := sampleHost)
          (csAction (H := asciiLocale) (H0 := nameOnly) sampleConfig hidden
                    (Some (utf16 "edgebug.cn:27015"))) (9, 0)
     = (Normal (Text (formatServerInfo sampleData ++ [10%N; 10%N]
                      ++ formatPlayers (H := asciiLocale) sampleConfig
                           (Some (default [] (players (result sampleData)))))),
        (9, 0), [mkCall _ (QueryOne (utf16 "edgebug.cn") 27015)]).
Proof.
  intros hidden. split; [reflexivity|].
  apply (csAction_text_reply (H := sampleHost) (H1 := asciiLocale) (H2 := nameOnly)
           sampleConfig hidden (utf16 "edgebug.cn:27015") (utf16 "edgebug.cn") 27015
           sampleData (9, 0) (9, 0));
    [discriminate|reflexivity|reflexivity|reflexivity|reflexivity].
Defined.

Lemma csAction_image_failure_witness :
  shouldGenerateImage (cs_image noCsOptions) (cs_text noCsOptions) sampleConfig = true
  /\ exists calls,
       (exec (H := offlineHost)
             (csAction (H := asciiLocale) (H0 := nameOnly) sampleConfig noCsOptions
                       (Some (utf16 "edgebug.cn:27015"))) (9, 0)).1.1
       = Normal (Text (utf16 "生成图片失败: "
                       ++ renderOptional
                            (message (newError (utf16 "canvas is not available")))))
       /\ (exec (H := offlineHost)
                (csAction (H := asciiLocale) (H0 := nameOnly) sampleConfig noCsOptions
                          (Some (utf16 "edgebug.cn:27015"))) (9, 0)).2 = calls
       /\ omap errorLogOf calls = [utf16 "生成图片失败:"].
Proof.
  split; [reflexivity|].
  destruct (csAction_image_failure (H := offlineHost) (H1 := asciiLocale)
              (H2 := nameOnly) sampleConfig noCsOptions (utf16 "edgebug.cn:27015")
              (utf16 "edgebug.cn") 27015 sampleData
              (newError (utf16 "canvas is not available")) (9, 0) (9, 0) (9, 0))
    as (calls & Hr & Hc & Hlog & _);
    try reflexivity; [discriminate|].
  exists calls. auto.
Defined.
